(** * AKRS equipment scrapers: harvesting and reconciliation engine

    A shallow embedding of the scrapers ([scrape-all-equipment.js],
    [scrape-tractor-house.js]) and of the location analyzers, with the
    properties of the batch scheduler, the pagination loops, the name
    parser, the cross-source matcher and the location aggregation.

    Conventions of the embedding:
    - a JavaScript string is a [string] of 7-bit ASCII characters; the
      case mappings and the white-space class are the ASCII part of the
      ECMAScript ones;
    - [undefined] and [null] are [None] of an [option];
    - the network, the browser and the file system are an explicit world:
      every awaited call reads its outcome from it, a rejected promise is
      an explicit failure value;
    - console output and [delay] calls are not part of the state. *)

From Stdlib Require Import Ascii String.
From stdpp Require Import gmap strings list.
From Stdlib Require Import QArith Sorted.

Local Open Scope nat_scope.

(** ** JavaScript strings *)

Module JsString.

(** White space and line terminators of ECMAScript ([\s], [trim]) within
    ASCII: TAB, LF, VT, FF, CR and SPACE. *)
Definition isSpace (c : ascii) : bool :=
  let n := nat_of_ascii c in
  ((9 <=? n) && (n <=? 13)) || (n =? 32).

(** [\d] *)
Definition isDigit (c : ascii) : bool :=
  let n := nat_of_ascii c in (48 <=? n) && (n <=? 57).

(** [.] without the [s] flag: anything but a line terminator. *)
Definition isDot (c : ascii) : bool :=
  let n := nat_of_ascii c in negb ((n =? 10) || (n =? 13)).

Definition upperChar (c : ascii) : ascii :=
  let n := nat_of_ascii c in
  if (97 <=? n) && (n <=? 122) then ascii_of_nat (n - 32) else c.

Definition lowerChar (c : ascii) : ascii :=
  let n := nat_of_ascii c in
  if (65 <=? n) && (n <=? 90) then ascii_of_nat (n + 32) else c.

Fixpoint mapChars (f : ascii → ascii) (s : string) : string :=
  match s with
  | EmptyString => EmptyString
  | String c t => String (f c) (mapChars f t)
  end.

Definition toUpperCase : string → string := mapChars upperChar.
Definition toLowerCase : string → string := mapChars lowerChar.

Fixpoint trimStart (s : string) : string :=
  match s with
  | String c t => if isSpace c then trimStart t else s
  | EmptyString => EmptyString
  end.

Fixpoint trimEnd (s : string) : string :=
  match s with
  | EmptyString => EmptyString
  | String c t =>
      match trimEnd t with
      | EmptyString => if isSpace c then EmptyString else String c EmptyString
      | t' => String c t'
      end
  end.

Definition trim (s : string) : string := trimEnd (trimStart s).

(** [s.startsWith(p)] *)
Definition startsWith (s p : string) : bool := String.prefix p s.

(** [s.includes(sub)] *)
Fixpoint includes (s sub : string) : bool :=
  String.prefix sub s ||
  match s with
  | EmptyString => false
  | String _ t => includes t sub
  end.

(** Truthiness of a string value: only the empty string is falsy. *)
Definition truthy (s : string) : bool :=
  match s with EmptyString => false | String _ _ => true end.

(** [v || ''] for a value that is a string or [undefined]. *)
Definition orEmpty (v : option string) : string := default EmptyString v.

(** [a.join(sep)] *)
Fixpoint join (sep : string) (l : list string) : string :=
  match l with
  | [] => EmptyString
  | [x] => x
  | x :: rest => x +:+ sep +:+ join sep rest
  end.

End JsString.

(** ** Regular expressions

    Every pattern of the sources is a sequence of quantified character
    classes, some of them capturing: [/(\d{4})\s+(.+?)\s+-\s+(\d+)/],
    [/\s+/g], [/\$[\d,]+/], ...  The matcher below is the backtracking
    semantics of ECMAScript for that fragment: the atoms are tried from left
    to right, a greedy atom tries its longest repetition first, a lazy one
    its shortest, and the first combination that lets the rest match wins. *)

Module Regex.

Record Atom := mkAtom {
  cls : ascii → bool;          (* the character class *)
  lo : nat;                    (* least number of repetitions *)
  hi : option nat;             (* greatest number, [None] for unbounded *)
  greedy : bool;
  capture : bool               (* the atom is a capturing group *)
}.

Definition Pattern := list Atom.

(** Number of leading characters of [s] in the class. *)
Fixpoint run (p : ascii → bool) (s : list ascii) : nat :=
  match s with
  | c :: t => if p c then S (run p t) else 0
  | [] => 0
  end.

(** The repetition counts an atom may take at [s], in priority order. *)
Definition candidates (a : Atom) (s : list ascii) : list nat :=
  let r := run (cls a) s in
  let mx := match hi a with Some h => Nat.min h r | None => r end in
  let up := seq (lo a) (S mx - lo a) in
  if greedy a then rev up else up.

Fixpoint firstSome {A B} (f : A → option B) (l : list A) : option B :=
  match l with
  | [] => None
  | x :: rest => match f x with Some y => Some y | None => firstSome f rest end
  end.

(** Match the whole pattern at the head of [s]: the pieces of input the
    atoms consumed, in order. *)
Fixpoint matchHere (p : Pattern) (s : list ascii) : option (list (list ascii)) :=
  match p with
  | [] => Some []
  | a :: p' =>
      firstSome
        (fun n => cons (take n s) <$> matchHere p' (drop n s))
        (candidates a s)
  end.

(** Leftmost match: the text before the match and the pieces. *)
Fixpoint search (p : Pattern) (s : list ascii) : option (list ascii * list (list ascii)) :=
  match matchHere p s with
  | Some pieces => Some ([], pieces)
  | None =>
      match s with
      | [] => None
      | c :: t => prod_map (cons c) id <$> search p t
      end
  end.

(** The captured groups of a match, in order ([match[1]], [match[2]], ...). *)
Fixpoint groups (p : Pattern) (pieces : list (list ascii)) : list string :=
  match p, pieces with
  | a :: p', x :: rest =>
      if capture a then string_of_list_ascii x :: groups p' rest
      else groups p' rest
  | _, _ => []
  end.

(** [s.match(re)] for a pattern without the [g] flag: [match[0]] and the
    groups, or [None] for [null]. *)
Definition jsMatch (p : Pattern) (s : string) : option (string * list string) :=
  match search p (list_ascii_of_string s) with
  | Some (_, pieces) => Some (string_of_list_ascii (concat pieces), groups p pieces)
  | None => None
  end.

(** [s.replace(re, rep)] for a pattern with the [g] flag.  [skip] counts
    the characters of the current match still to be dropped. *)
Fixpoint replaceGo (p : Pattern) (rep : list ascii) (skip : nat) (s : list ascii)
  : list ascii :=
  match s with
  | [] =>
      match skip, matchHere p [] with
      | 0, Some _ => rep
      | _, _ => []
      end
  | c :: t =>
      match skip with
      | S k => replaceGo p rep k t
      | 0 =>
          match (fun ps => length (concat ps)) <$> matchHere p s with
          | Some (S n) => rep ++ replaceGo p rep n t
          | Some 0 => rep ++ c :: replaceGo p rep 0 t
          | None => c :: replaceGo p rep 0 t
          end
      end
  end.

Definition replaceAll (p : Pattern) (rep : string) (s : string) : string :=
  string_of_list_ascii
    (replaceGo p (list_ascii_of_string rep) 0 (list_ascii_of_string s)).

(** Atom builders. *)
Definition one (c : ascii → bool) : Atom := mkAtom c 1 (Some 1) true false.
Definition lit (c : ascii) : Atom := one (fun x => Ascii.eqb x c).
Definition litCI (c : ascii) : Atom :=
  one (fun x => Ascii.eqb (JsString.upperChar x) (JsString.upperChar c)).
Definition plus (c : ascii → bool) : Atom := mkAtom c 1 None true false.
Definition plusLazy (c : ascii → bool) : Atom := mkAtom c 1 None false false.
Definition exactly (n : nat) (c : ascii → bool) : Atom := mkAtom c n (Some n) true false.
Definition group (a : Atom) : Atom := mkAtom (cls a) (lo a) (hi a) (greedy a) true.
Definition literal (s : string) : Pattern := lit <$> list_ascii_of_string s.
Definition literalCI (s : string) : Pattern := litCI <$> list_ascii_of_string s.

End Regex.

(** ** Promises and the batch scheduler

    [processBatch] is the same function in [scrape-all-equipment.js] and in
    the used-equipment scraper. *)

Module Batch.

Inductive Settled (E B : Type) :=
| Fulfilled (value : B)
| Rejected (reason : E).
Arguments Fulfilled {E B} value.
Arguments Rejected {E B} reason.

(** One invocation of an async per-item function: the time at which its
    promise settles, how it settles, and what it does to the state it
    shares with its siblings when it resumes after its awaits. *)
Record Call (St E B : Type) := mkCall {
  settlesAt : nat;
  outcome : Settled E B;
  effect : St → St
}.
Arguments mkCall {St E B} settlesAt outcome effect.
Arguments settlesAt {St E B} c.
Arguments outcome {St E B} c.
Arguments effect {St E B} c.

Section Scheduler.
Context {A B St E : Type}.

Definition valueOf (c : Call St E B) : option B :=
  match outcome c with Fulfilled v => Some v | Rejected _ => None end.

(** The order in which the promises of a window settle: by time, and by
    position for equal times. *)
Fixpoint insertByTime (x : nat * Call St E B) (l : list (nat * Call St E B))
  : list (nat * Call St E B) :=
  match l with
  | [] => [x]
  | y :: rest =>
      if settlesAt (snd x) <=? settlesAt (snd y) then x :: y :: rest
      else y :: insertByTime x rest
  end.

Definition settleOrder (calls : list (Call St E B)) : list (nat * Call St E B) :=
  foldr insertByTime [] (imap (fun j c => (j, c)) calls).

(** [Promise.all]: as each promise settles its continuation runs on the
    shared state; a fulfilled value is stored in the slot of its index,
    the first rejection rejects the whole. *)
Fixpoint settleAll (order : list (nat * Call St E B)) (values : list (option B)) (s : St)
  : St * Settled E (list (option B)) :=
  match order with
  | [] => (s, Fulfilled values)
  | (j, c) :: rest =>
      let s' := effect c s in
      match outcome c with
      | Fulfilled v => settleAll rest (<[j := Some v]> values) s'
      | Rejected e => (s', Rejected e)
      end
  end.

Definition promiseAll (calls : list (Call St E B)) (s : St) : St * Settled E (list B) :=
  match settleAll (settleOrder calls) (replicate (length calls) None) s with
  | (s', Fulfilled values) => (s', Fulfilled (omap id values))
  | (s', Rejected e) => (s', Rejected e)
  end.

Variable items : list A.
Variable batchSize : nat.
(** [batch.map(processFn)] calls [processFn(item, index, batch)]. *)
Variable processFn : A → nat → list A → Call St E B.

(** The [for] loop, [i] and [results] being its variables.  [None] when
    the fuel runs out. *)
Fixpoint processBatchLoop (fuel : nat) (i : nat) (results : list B) (s : St)
  : option (St * Settled E (list B)) :=
  match fuel with
  | 0 => None
  | S fuel' =>
      if i <? length items then
        let batch := take batchSize (drop i items) in
        match promiseAll (imap (fun j x => processFn x j batch) batch) s with
        | (s', Fulfilled batchResults) =>
            processBatchLoop fuel' (i + batchSize) (results ++ batchResults) s'
        | (s', Rejected e) => Some (s', Rejected e)
        end
      else Some (s, Fulfilled results)
  end.

(** [None] stands for a loop that never ends: [batchSize] 0 on a list
    that is not empty. *)
Definition processBatch (s : St) : option (St * Settled E (list B)) :=
  processBatchLoop (S (length items)) 0 [] s.

(** The call that [batch.map] makes for the item at index [i] of
    [items]. *)
Definition invocation (i : nat) (x : A) : Call St E B :=
  processFn x (i mod batchSize) (take batchSize (drop (i - i mod batchSize) items)).

End Scheduler.

End Batch.

(** ** The new and used equipment scraper ([scrape-all-equipment.js]) *)

Module AllEquipment.
Import JsString Batch.

Definition BASE_URL : string := "https://www.akrs.com".

(** [/Starting at/gi], [/List Price:/gi] and [/\s+/g] *)
Definition cleanPrice (priceText : string) : string :=
  if negb (truthy priceText) then ""
  else
    trim
      (Regex.replaceAll [Regex.plus isSpace] " "
         (Regex.replaceAll (Regex.literalCI "List Price:") ""
            (Regex.replaceAll (Regex.literalCI "Starting at") "" priceText))).

Record ParsedName := mkParsedName {
  parsedYear : string;
  parsedModel : string;
  parsedProductId : string
}.

(** [/(\d{4})\s+(.+?)\s+-\s+(\d+)/] *)
Definition namePattern : Regex.Pattern :=
  [Regex.group (Regex.exactly 4 isDigit);
   Regex.plus isSpace;
   Regex.group (Regex.plusLazy isDot);
   Regex.plus isSpace;
   Regex.lit "-";
   Regex.plus isSpace;
   Regex.group (Regex.plus isDigit)].

Definition parseProductName (nameText : string) : ParsedName :=
  if negb (truthy nameText) then mkParsedName "" "" ""
  else
    match Regex.jsMatch namePattern nameText with
    | Some (_, [y; m; i]) => mkParsedName y m i
    | _ => mkParsedName "" nameText ""
    end.

(** *** Detail pages *)

Record Details := mkDetails { detailLocation : string; detailHours : string }.

(** What [axios.get] and [cheerio.load] give for a detail page: a failure
    (network error, timeout, status outside 2xx), or the label and value
    text of every [.product-information-row]. *)
Inductive DetailResponse :=
| DetailError
| DetailPage (infoRows : list (string * string)).

(** What they give for a listing page: a failure, or the tiles. *)
Record RawTile := mkRawTile {
  tileBrand : string;                 (* .product-brand text *)
  tileName : string;                  (* .pdp-link a text *)
  tileHref : option string;           (* .pdp-link a href *)
  tilePrice : string;                 (* .price .sales text *)
  tileBadges : list string;           (* .equipment-type-badge texts *)
  tileImageSrc : option string;       (* .tile-image src *)
  tileImageDataSrc : option string    (* .tile-image data-src *)
}.

Inductive ListingResponse :=
| ListingError
| ListingPage (tiles : list RawTile).

(** The outside world of one crawl, that is of one call of
    [scrapeEquipment]: [equipmentUrl] selects the listing pages, page
    [pageNum] being the request with [start = pageNum * productsPerPage];
    [equipmentType] only names the debug file and the log lines. *)
Record World := mkWorld {
  listing : nat → ListingResponse;              (* by page number *)
  debugWriteOk : bool;                          (* [fs.writeFile] of the first page *)
  detail : string → nat * DetailResponse        (* by URL: response time and response *)
}.

Section Crawl.
Variable w : World.

Definition fullUrl (productUrl : string) : string :=
  if startsWith productUrl "http" then productUrl else BASE_URL +:+ productUrl.

(** The callback of [$('.product-information-row').each]. *)
Definition infoRowStep (d : Details) (row : string * string) : Details :=
  let label := toLowerCase (trim (fst row)) in
  let value := trim (snd row) in
  if includes label "location" then mkDetails value (detailHours d)
  else if includes label "hour" || includes label "hrs" then
    mkDetails (detailLocation d) value
  else d.

(** The [try] block of [scrapeProductDetails]. *)
Definition fetchDetails (productUrl : string) : Settled unit Details :=
  match snd (detail w (fullUrl productUrl)) with
  | DetailError => Rejected ()
  | DetailPage infoRows => Fulfilled (foldl infoRowStep (mkDetails "" "") infoRows)
  end.

(** [scrapeProductDetails]: the [catch] turns every failure into the
    empty details. *)
Definition scrapeProductDetails (productUrl : string) : Details :=
  match fetchDetails productUrl with
  | Fulfilled d => d
  | Rejected _ => mkDetails "" ""
  end.

Record Product := mkProduct {
  productName : string;
  brand : string;
  model : string;
  year : string;
  productId : string;
  price : string;
  status : string;
  category : string;
  productUrl : string;
  imageUrl : string;
  location : string;
  hours : string
}.

(** [/\/en-us\/([^\/]+)\//] *)
Definition categoryPattern : Regex.Pattern :=
  Regex.literal "/en-us/"
    ++ [Regex.group (Regex.plus (fun c => negb (Ascii.eqb c "/"))); Regex.lit "/"].

Definition firstTruthy (a b : option string) : string :=
  match a with
  | Some (String c t) => String c t
  | _ => orEmpty b
  end.

(** The callback of [productTiles.each]. *)
Definition tileProduct (t : RawTile) : Product :=
  let brand := trim (tileBrand t) in
  let productNameFull := trim (tileName t) in
  let productUrl := orEmpty (tileHref t) in
  let price := cleanPrice (trim (tilePrice t)) in
  let parsed := parseProductName productNameFull in
  let status := join ", " (trim <$> tileBadges t) in
  let imageUrl := firstTruthy (tileImageSrc t) (tileImageDataSrc t) in
  let category :=
    match Regex.jsMatch categoryPattern productUrl with
    | Some (_, [c]) => Regex.replaceAll [Regex.lit "-"] " " c
    | _ => ""
    end in
  mkProduct productNameFull brand (parsedModel parsed) (parsedYear parsed)
    (parsedProductId parsed) price status category productUrl imageUrl "" "".

(** The product after [product.location = ...; product.hours = ...]. *)
Definition enrich (p : Product) : Product :=
  let details := scrapeProductDetails (productUrl p) in
  mkProduct (productName p) (brand p) (model p) (year p) (productId p) (price p)
    (status p) (category p) (productUrl p) (imageUrl p)
    (detailLocation details) (detailHours details).

(** The per-item function given to [processBatch]: it resumes when the
    detail request settles, pushes the product on [products] and
    returns it. *)
Definition enrichCall (product : Product) (_ : nat) (_ : list Product)
  : Call (list Product) unit Product :=
  mkCall (fst (detail w (fullUrl (productUrl product))))
         (Fulfilled (enrich product))
         (fun products => products ++ [enrich product]).

Definition productsPerPage : nat := 12.
Definition BATCH_SIZE : nat := 10.

(** The state of the crawl: the [products] array and the listing pages
    requested so far, in order. *)
Record CrawlState := mkCrawlState {
  products : list Product;
  requested : list nat
}.

(** How the [try] block ended. *)
Inductive Completion := Returned | Thrown.

(** The [while] loop; [remaining] is [maxPages - pageNum].  [None] only
    if [processBatch] never ends. *)
Fixpoint crawlLoop (remaining pageNum : nat) (st : CrawlState)
  : option (CrawlState * Completion) :=
  match remaining with
  | 0 => Some (st, Returned)
  | S remaining' =>
      let st := mkCrawlState (products st) (requested st ++ [pageNum]) in
      match listing w pageNum with
      | ListingError => Some (st, Thrown)
      | ListingPage productTiles =>
          if (pageNum =? 0) && negb (debugWriteOk w) then Some (st, Thrown)
          else if length productTiles =? 0 then Some (st, Returned)
          else
            let pageProducts := tileProduct <$> productTiles in
            match processBatch pageProducts BATCH_SIZE enrichCall (products st) with
            | None => None
            | Some (products', Rejected _) =>
                Some (mkCrawlState products' (requested st), Thrown)
            | Some (products', Fulfilled _) =>
                let st := mkCrawlState products' (requested st) in
                if productsPerPage <=? length productTiles
                then crawlLoop remaining' (S pageNum) st
                else Some (st, Returned)
            end
      end
  end.

Definition crawl (maxPages : nat) : option (CrawlState * Completion) :=
  crawlLoop maxPages 0 (mkCrawlState [] []).

(** [scrapeEquipment] returns [products] from the [try] block and from
    the [catch] block alike. *)
Definition scrapeEquipment (maxPages : nat) : option (list Product) :=
  (fun r => products (fst r)) <$> crawl maxPages.

End Crawl.

End AllEquipment.

(** ** The Tractor House scraper ([scrape-tractor-house.js]) *)

Module TractorHouse.
Import JsString.

Definition BASE_URL : string := "https://www.akrsusedequipment.com".

Definition cleanText (text : string) : string :=
  if negb (truthy text) then ""
  else trim (Regex.replaceAll [Regex.plus isSpace] " " text).

(** [/\$[\d,]+/] *)
Definition pricePattern : Regex.Pattern :=
  [Regex.lit "$"; Regex.plus (fun c => isDigit c || Ascii.eqb c ",")].

Definition extractPrice (priceText : string) : string :=
  if negb (truthy priceText) then ""
  else
    match Regex.jsMatch pricePattern priceText with
    | Some (m, _) => m
    | None => cleanText priceText
    end.

(** An element of [scrapedData], as the function evaluated in the page
    returns it; [getAttr] gives [null] for a missing attribute. *)
Record Listing := mkListing {
  title : string;
  year : string;
  make : string;
  model : string;
  price : string;
  hours : string;
  serialNumber : string;
  stockNumber : string;
  location : string;
  condition : string;
  category : string;
  description : string;
  detailUrl : option string;
  imageUrl : option string;
  listingId : string
}.

Definition optTruthy (v : option string) : bool :=
  match v with Some s => truthy s | None => false end.

Definition fixDetailUrl (u : option string) : option string :=
  match u with
  | Some url =>
      if truthy url && negb (startsWith url "http") then
        Some (if startsWith url "/" then BASE_URL +:+ url else BASE_URL +:+ "/" +:+ url)
      else u
  | None => None
  end.

Definition fixImageUrl (u : option string) : option string :=
  match u with
  | Some url =>
      if truthy url && negb (startsWith url "http") then
        if startsWith url "//" then Some ("https:" +:+ url)
        else Some (if startsWith url "/" then BASE_URL +:+ url else BASE_URL +:+ "/" +:+ url)
      else u
  | None => None
  end.

(** The first half of the [scrapedData.forEach] callback. *)
Definition cleanItem (item : Listing) : Listing :=
  mkListing (title item) (year item) (make item) (model item)
    (extractPrice (price item))
    (hours item) (serialNumber item) (stockNumber item) (location item)
    (condition item) (category item)
    (String.substring 0 500 (cleanText (description item)))
    (fixDetailUrl (detailUrl item)) (fixImageUrl (imageUrl item)) (listingId item).

(** [item.title || item.model || item.make] *)
Definition meaningful (item : Listing) : bool :=
  truthy (title item) || truthy (model item) || truthy (make item).

(** The listings that one page adds to [listings]. *)
Definition pageListings (scrapedData : list Listing) : list Listing :=
  filter (fun item => meaningful item = true) (cleanItem <$> scrapedData).

(** What the browser gives for one page: a rejected step before the
    cards are read ([goto], [title], [screenshot], [content], [writeFile]
    or the extracting [$$eval]); or the cards and the answer of the
    next-page test, [None] when that evaluation is rejected.  A page
    without cards is also what the [catch] of the counting [$$eval]
    reports. *)
Inductive PageResult :=
| PageError
| PageCards (scrapedData : list Listing) (hasNextPage : option bool).

Record World := mkWorld {
  launchOk : bool;                 (* [puppeteer.launch] and the page set-up *)
  page : nat → PageResult          (* by page number, from 1 *)
}.

Definition maxPages : nat := 50.

(** The short-page bound of the loop ([count < 20]); the site itself
    serves 28 listings per page according to the comment on [maxPages]. *)
Definition shortPage : nat := 20.

Record CrawlState := mkCrawlState {
  listings : list Listing;
  requested : list nat
}.

Section Crawl.
Variable w : World.

(** The [while] loop; [remaining] is [maxPages + 1 - pageNum]. *)
Fixpoint crawlLoop (remaining pageNum : nat) (st : CrawlState) : CrawlState :=
  match remaining with
  | 0 => st
  | S remaining' =>
      let st := mkCrawlState (listings st) (requested st ++ [pageNum]) in
      match page w pageNum with
      | PageError => st
      | PageCards scrapedData hasNextPage =>
          let count := length scrapedData in
          if count =? 0 then st
          else
            let st := mkCrawlState (listings st ++ pageListings scrapedData)
                                   (requested st) in
            match hasNextPage with
            | None => st
            | Some hasNextPage =>
                if negb hasNextPage || (count <? shortPage) then st
                else crawlLoop remaining' (S pageNum) st
            end
      end
  end.

Definition crawl : CrawlState :=
  if launchOk w then crawlLoop maxPages 1 (mkCrawlState [] [])
  else mkCrawlState [] [].

(** [scrapeInventoryListings]: every path ends in [return listings]. *)
Definition scrapeInventoryListings : list Listing := listings crawl.

End Crawl.

End TractorHouse.

(** ** Location analyzer, single-workbook variant (the 50/20 heat map) *)

Module Heatmap.

(** The marker colours of the generated map; the source comments them as
    red for high, orange for medium and green for low inventory. *)
Definition HIGH : string := "#d32f2f".
Definition MEDIUM : string := "#ff9800".
Definition LOW : string := "#4caf50".

Definition getColor (count : nat) : string :=
  if 50 <? count then HIGH
  else if 20 <? count then MEDIUM
  else LOW.

End Heatmap.

(** ** Location analyzer, reconciliation variant (several workbooks,
       duplicate detection, the 150/100 heat map) *)

Module Reconcile.
Import JsString.

Definition HIGH : string := "#d32f2f".
Definition MEDIUM : string := "#ff9800".
Definition LOW : string := "#4caf50".

Definition getColor (count : nat) : string :=
  if 150 <? count then HIGH
  else if 100 <? count then MEDIUM
  else LOW.

(** *** Match keys *)

(** A spreadsheet row as [analyzeExcelData] collects it: every field is a
    string or was never assigned. *)
Record Item := mkItem {
  year : option string;
  make : option string;
  model : option string;
  location : option string;
  hours : option string
}.

Definition normalize (str : string) : string :=
  if negb (truthy str) then ""
  else Regex.replaceAll [Regex.plus isSpace] " " (trim (toUpperCase str)).

Definition createMatchKey (item : Item) : string :=
  let year := orEmpty (year item) in
  let make := normalize (orEmpty (make item)) in
  let model := normalize (orEmpty (model item)) in
  let location := normalize (orEmpty (location item)) in
  year +:+ "|" +:+ make +:+ "|" +:+ model +:+ "|" +:+ location.

(** [key && key !== '|||'] *)
Definition usableKey (key : string) : bool :=
  truthy key && negb (String.eqb key "|||").

(** *** Duplicate detection *)

(** The value of [overlapPercent]: the number [0], or the string that
    [toFixed(1)] prints for a quotient.  The quotient is kept as the exact
    rational; the rounding of binary64 arithmetic and of the decimal
    printing is not modelled. *)
Inductive Overlap :=
| Number0
| Fixed1 (q : Q).


Record DuplicateInfo := mkDuplicateInfo {
  duplicates : nat;
  overlapPercent : Overlap;
  uniqueUsed : Z;
  uniqueTractorHouse : Z;
  totalUnique : Z
}.

(** The [usedKeys] map after the first [forEach]. *)
Definition buildUsedKeys (usedItems : list Item) : gmap string Item :=
  foldl (fun usedKeys item =>
           let key := createMatchKey item in
           if usableKey key then <[key := item]> usedKeys else usedKeys)
        ∅ usedItems.

(** The [duplicates] counter after the second [forEach]. *)
Definition countDuplicates (usedKeys : gmap string Item) (tractorHouseItems : list Item)
  : nat :=
  foldl (fun duplicates item =>
           let key := createMatchKey item in
           if usableKey key && bool_decide (is_Some (usedKeys !! key))
           then S duplicates else duplicates)
        0 tractorHouseItems.

Definition ratio (a b : nat) : Q :=
  (inject_Z (Z.of_nat a) / inject_Z (Z.of_nat b))%Q.

Definition detectDuplicates (usedItems tractorHouseItems : list Item) : DuplicateInfo :=
  let usedKeys := buildUsedKeys usedItems in
  let duplicates := countDuplicates usedKeys tractorHouseItems in
  let overlapPercent :=
    if 0 <? length usedItems
    then Fixed1 (ratio duplicates (length usedItems) * 100)%Q
    else Number0 in
  let uniqueUsed := (Z.of_nat (length usedItems) - Z.of_nat duplicates)%Z in
  let uniqueTractorHouse :=
    (Z.of_nat (length tractorHouseItems) - Z.of_nat duplicates)%Z in
  let totalUnique := (uniqueUsed + uniqueTractorHouse)%Z in
  {| duplicates := duplicates;
     overlapPercent := overlapPercent;
     uniqueUsed := uniqueUsed;
     uniqueTractorHouse := uniqueTractorHouse;
     totalUnique := totalUnique |}.

(** *** Aggregation by location *)

Record Coordinates := mkCoordinates { lat : Q; lng : Q; city : string }.

(** Every key is upper case, and so is every string looked up in the
    table, so no lookup reaches a property of [Object.prototype]: the
    object is a finite map. *)
Definition STORE_LOCATIONS : gmap string Coordinates :=
  list_to_map [
    ("AINSWORTH", mkCoordinates 42.5506 (-99.8626) "Ainsworth, NE");
    ("ALBION", mkCoordinates 41.6906 (-98.0053) "Albion, NE");
    ("AUBURN", mkCoordinates 40.3925 (-95.8392) "Auburn, NE");
    ("AURORA", mkCoordinates 40.8672 (-98.0042) "Aurora, NE");
    ("BROKEN BOW", mkCoordinates 41.4017 (-99.6398) "Broken Bow, NE");
    ("CENTRAL CITY", mkCoordinates 41.1161 (-98.0020) "Central City, NE");
    ("CRETE", mkCoordinates 40.6278 (-96.9614) "Crete, NE");
    ("DAVID CITY", mkCoordinates 41.2517 (-97.1300) "David City, NE");
    ("ELKHORN", mkCoordinates 41.2858 (-96.2364) "Elkhorn, NE");
    ("GENEVA", mkCoordinates 40.5267 (-97.5961) "Geneva, NE");
    ("GRAND ISLAND", mkCoordinates 40.9250 (-98.3420) "Grand Island, NE");
    ("GRETNA", mkCoordinates 41.1400 (-96.2397) "Gretna, NE");
    ("MCCOOK", mkCoordinates 40.2017 (-100.6251) "McCook, NE");
    ("NELIGH", mkCoordinates 42.1281 (-98.0298) "Neligh, NE");
    ("NORFOLK", mkCoordinates 42.0281 (-97.4170) "Norfolk, NE");
    ("NORTH PLATTE", mkCoordinates 41.1239 (-100.7654) "North Platte, NE");
    ("O'NEILL", mkCoordinates 42.4578 (-98.6473) "O'Neill, NE");
    ("OBERLIN", mkCoordinates 39.8197 (-100.5282) "Oberlin, KS");
    ("ORD", mkCoordinates 41.6031 (-98.9273) "Ord, NE");
    ("OSCEOLA", mkCoordinates 41.1783 (-97.5450) "Osceola, NE");
    ("PLAINVIEW", mkCoordinates 42.3472 (-97.7917) "Plainview, NE");
    ("RAVENNA", mkCoordinates 41.0261 (-98.9123) "Ravenna, NE");
    ("SEWARD", mkCoordinates 40.9069 (-97.0989) "Seward, NE");
    ("SPALDING", mkCoordinates 41.6872 (-98.3742) "Spalding, NE");
    ("ST. PAUL", mkCoordinates 41.2147 (-98.4584) "St. Paul, NE");
    ("SYRACUSE", mkCoordinates 40.6564 (-96.1881) "Syracuse, NE");
    ("YORK", mkCoordinates 40.8678 (-97.5920) "York, NE")
  ]%Q.

Record LocationStat := mkLocationStat {
  total : nat;
  new : nat;
  used : nat;
  tractorHouse : nat;
  coordinates : option Coordinates
}.

Record ByType := mkByType { typeNew : nat; typeUsed : nat; typeTractorHouse : nat }.

(** A cell that [eachCell] visits: its column number and
    [cell.value?.toString()]. *)
Definition Cell : Type := nat * option string.

(** A worksheet: its name and the rows that [eachRow] visits, each with
    its row number. *)
Record Worksheet := mkWorksheet {
  name : string;
  rows : list (nat * list Cell)
}.

(** A workbook that [readFile] loaded. *)
Record Workbook := mkWorkbook {
  filename : string;
  sheets : list Worksheet
}.

(** The accumulators of [analyzeExcelData]. *)
Record Analysis := mkAnalysis {
  locationStats : gmap string LocationStat;
  totalByType : ByType;
  allItemsUsed : list Item;
  allItemsTractorHouse : list Item;
  totalProducts : nat
}.

(** [worksheet.getRow(1)]: the cells of row 1, none when it is empty. *)
Definition headerRow (ws : Worksheet) : list Cell :=
  default [] (snd <$> List.find (fun r => fst r =? 1) (rows ws)).

(** The sparse [headers] array. *)
Definition readHeaders (ws : Worksheet) : gmap nat string :=
  foldl (fun headers (cell : Cell) =>
           match snd cell with
           | Some v =>
               <[fst cell := Regex.replaceAll [Regex.plus isSpace] "" (toLowerCase v)]> headers
           | None => delete (fst cell) headers
           end)
        ∅ (headerRow ws).

Definition headerIs (header : option string) (s : string) : bool :=
  match header with Some h => String.eqb h s | None => false end.

Definition emptyItem : Item := mkItem None None None None None.

(** The body of [row.eachCell]: the item and the [location] variable. *)
Definition cellStep (headers : gmap nat string) (acc : Item * option string) (cell : Cell)
  : Item * option string :=
  let '(item, location) := acc in
  let header := headers !! fst cell in
  let value := trim <$> snd cell in
  let upper := (fun v => trim (toUpperCase v)) <$> value in
  let '(item, location) :=
    if headerIs header "year" then
      (mkItem value (make item) (model item) (Reconcile.location item) (hours item), location)
    else if headerIs header "make" || headerIs header "brand" then
      (mkItem (year item) value (model item) (Reconcile.location item) (hours item), location)
    else if headerIs header "model" then
      (mkItem (year item) (make item) value (Reconcile.location item) (hours item), location)
    else if headerIs header "location" then
      (mkItem (year item) (make item) (model item) upper (hours item), upper)
    else if headerIs header "hours" then
      (mkItem (year item) (make item) (model item) (Reconcile.location item) value, location)
    else (item, location) in
  match upper with
  | Some u =>
      if bool_decide (is_Some (STORE_LOCATIONS !! u)) then
        (mkItem (year item) (make item) (model item) (Some u) (hours item), Some u)
      else (item, location)
  | None => (item, location)
  end.

(** The source category of a row, from the file and sheet names. *)
Inductive Category := CatTractorHouse | CatNew | CatUsed | CatNone.

Definition categorize (isTractorHouse : bool) (sheetName : string) : Category :=
  if isTractorHouse && (includes sheetName "tractor" || includes sheetName "inventory")
  then CatTractorHouse
  else if includes sheetName "new" then CatNew
  else if includes sheetName "used" then CatUsed
  else CatNone.

Definition freshStat (location : string) : LocationStat :=
  mkLocationStat 0 0 0 0 (STORE_LOCATIONS !! location).

(** The counters of one entry after a row of the given category. *)
Definition bump (c : Category) (e : LocationStat) : LocationStat :=
  let e := mkLocationStat (S (total e)) (new e) (used e) (tractorHouse e) (coordinates e) in
  match c with
  | CatTractorHouse =>
      mkLocationStat (total e) (new e) (used e) (S (tractorHouse e)) (coordinates e)
  | CatNew => mkLocationStat (total e) (S (new e)) (used e) (tractorHouse e) (coordinates e)
  | CatUsed => mkLocationStat (total e) (new e) (S (used e)) (tractorHouse e) (coordinates e)
  | CatNone => e
  end.

Definition bumpType (c : Category) (t : ByType) : ByType :=
  match c with
  | CatTractorHouse => mkByType (typeNew t) (typeUsed t) (S (typeTractorHouse t))
  | CatNew => mkByType (S (typeNew t)) (typeUsed t) (typeTractorHouse t)
  | CatUsed => mkByType (typeNew t) (S (typeUsed t)) (typeTractorHouse t)
  | CatNone => t
  end.

(** The body of [worksheet.eachRow]. *)
Definition rowStep (isTractorHouse : bool) (sheetName : string) (headers : gmap nat string)
    (a : Analysis) (row : nat * list Cell) : Analysis :=
  if fst row =? 1 then a
  else
    let '(item, location) := foldl (cellStep headers) (emptyItem, None) (snd row) in
    match location with
    | Some loc =>
        if truthy loc then
          let c := categorize isTractorHouse sheetName in
          let entry := default (freshStat loc) (locationStats a !! loc) in
          mkAnalysis
            (<[loc := bump c entry]> (locationStats a))
            (bumpType c (totalByType a))
            (match c with CatUsed => allItemsUsed a ++ [item] | _ => allItemsUsed a end)
            (match c with
             | CatTractorHouse => allItemsTractorHouse a ++ [item]
             | _ => allItemsTractorHouse a
             end)
            (S (totalProducts a))
        else a
    | None => a
    end.

(** The body of [workbook.eachSheet]. *)
Definition sheetStep (isTractorHouse : bool) (a : Analysis) (ws : Worksheet) : Analysis :=
  let sheetName := toLowerCase (name ws) in
  foldl (rowStep isTractorHouse sheetName (readHeaders ws)) a (rows ws).

Definition fileStep (a : Analysis) (wb : Workbook) : Analysis :=
  let isTractorHouse := includes (filename wb) "tractor-house" in
  foldl (sheetStep isTractorHouse) a (sheets wb).

Definition analyzeExcelData (workbooks : list Workbook) : Analysis :=
  foldl fileStep (mkAnalysis ∅ (mkByType 0 0 0) [] [] 0) workbooks.

End Reconcile.

(** * Vocabulary of the properties *)

Module MatcherSpec.
Import Reconcile.

(** The four components of the match key. *)
Definition keyYear (item : Item) : string := JsString.orEmpty (year item).
Definition keyMake (item : Item) : string := normalize (JsString.orEmpty (make item)).
Definition keyModel (item : Item) : string := normalize (JsString.orEmpty (model item)).
Definition keyLocation (item : Item) : string :=
  normalize (JsString.orEmpty (location item)).

Definition isEmpty (s : string) : bool := negb (JsString.truthy s).


Definition allEmpty (item : Item) : bool :=
  isEmpty (keyYear item) && isEmpty (keyMake item) && isEmpty (keyModel item)
  && isEmpty (keyLocation item).

(** A record with the make missing and the other three components
    present. *)
Definition partlyEmpty : Item :=
  mkItem (Some "2024") None (Some "5095M") (Some "GRETNA") None.

Definition fullRecord : Item :=
  mkItem (Some "2024") (Some "John Deere") (Some "5095M") (Some "Gretna") None.


Definition otherRecord : Item :=
  mkItem (Some "2019") (Some "Case IH") (Some "Magnum 340") (Some "York") None.

End MatcherSpec.

Module AggregationSpec.
Import Reconcile.

(** The per-source counters of an entry do not exceed its total. *)
Definition balanced (e : LocationStat) : Prop :=
  new e + used e + tractorHouse e ≤ total e.

Definition sourceCount (e : LocationStat) : nat := new e + used e + tractorHouse e.

Definition allBalanced (a : Analysis) : Prop :=
  map_Forall (fun _ e => balanced e) (locationStats a).

(** Two workbooks: an equipment file with a New, a Used and a Summary
    sheet, and a Tractor House file. *)
Definition headerCells : list Cell :=
  [(1, Some "Product Name"); (2, Some "Brand"); (3, Some "Model"); (4, Some "Year");
   (5, Some "Location")].
Definition sampleRow (n : nat) (place : string) : nat * list Cell :=
  (n, [(1, Some "2020 8R 410 - 77"); (2, Some "John Deere"); (3, Some "8R 410");
       (4, Some "2020"); (5, Some place)]).
Definition sampleWorkbooks : list Workbook :=
  [mkWorkbook "akrs-all-equipment-2025-01-01T10-00-00.xlsx"
     [mkWorksheet "New Equipment" [(1, headerCells); sampleRow 2 "Gretna"];
      mkWorksheet "Used Equipment"
        [(1, headerCells); sampleRow 2 "Gretna"; sampleRow 3 "York"];
      mkWorksheet "Summary" [(1, headerCells); sampleRow 2 "Gretna"]];
   mkWorkbook "akrs-tractor-house-2025-01-01T11-00-00.xlsx"
     [mkWorksheet "Tractor House" [(1, headerCells); sampleRow 2 "Gretna"]]].

End AggregationSpec.

Module TractorHouseSpec.
Import TractorHouse.

(** The number of cards read on the pages that the crawl requested. *)
Definition cardsOn (w : World) (pageNum : nat) : nat :=
  match page w pageNum with
  | PageCards scrapedData _ => length scrapedData
  | PageError => 0
  end.

Definition cardsRead (w : World) : nat :=
  sum_list (cardsOn w <$> requested (crawl w)).

Definition card (title : string) : Listing :=
  mkListing title "" "" "" "$1,000" "" "" "" "" "" "" "" None None "".

(** One page with a titled card and a card without any text. *)
Definition onePage : World :=
  mkWorld true (fun n => if n =? 1 then PageCards [card "2025 JOHN DEERE 9RX 640"; card ""]
                                                  (Some false)
                         else PageError).

End TractorHouseSpec.

Module RegexSpec.
Import Regex.

(** A piece of input that an atom may have consumed. *)
Definition fits (a : Atom) (piece : list ascii) : Prop :=
  lo a ≤ length piece ∧ (∀ h, hi a = Some h → length piece ≤ h) ∧
  Forall (fun c => cls a c = true) piece.

End RegexSpec.

Module NameSpec.
Import AllEquipment.

(** Every character of [s] is in the class. *)
Definition allChars (p : ascii → bool) (s : string) : Prop :=
  Forall (fun c => p c = true) (list_ascii_of_string s).



End NameSpec.

Module BatchSpec.
Import Batch.

Section Defs.
Context {B St E : Type}.

(** The slots of [Promise.all] once the promises of [order] have been
    fulfilled. *)
Definition fill (values : list (option B)) (order : list (nat * Call St E B))
  : list (option B) :=
  foldl (fun vs jc => <[fst jc := valueOf (snd jc)]> vs) values order.

(** The shared state once the continuations of [ran] have run, in that
    order. *)
Definition runEffects (s : St) (ran : list (Call St E B)) : St :=
  foldl (fun s c => effect c s) s ran.

(** The calls that a whole run of [processBatch] makes, in the order of
    the items. *)
Definition allCalls {A} (items : list A) (batchSize : nat)
    (processFn : A → nat → list A → Call St E B) : list (Call St E B) :=
  imap (invocation items batchSize processFn) items.

End Defs.

End BatchSpec.

Module BatchExample.
Import Batch.

(** A per-item function over numbers: the later an item in its window,
    the sooner its promise settles; it logs the item in the shared state
    and returns ten times the item. *)
Definition tenfold (x : nat) (j : nat) (batch : list nat) : Call (list nat) unit nat :=
  mkCall (length batch - j) (Fulfilled (10 * x)) (fun log => log ++ [x]).

(** A per-item function whose promise is rejected for the item 3. *)
Definition rejects3 (x : nat) (j : nat) (batch : list nat) : Call (list nat) unit nat :=
  mkCall j (if x =? 3 then Rejected () else Fulfilled x) (fun log => log ++ [x]).

End BatchExample.

Module DetailSpec.
Import AllEquipment.

(** A row of the product information whose label names the location or
    the hours. *)
Definition mentions (row : string * string) : bool :=
  let label := JsString.toLowerCase (JsString.trim (fst row)) in
  JsString.includes label "location" || JsString.includes label "hour"
  || JsString.includes label "hrs".

(** The detail request of a product fails. *)
Definition detailFails (w : World) (p : Product) : Prop :=
  snd (detail w (fullUrl (productUrl p))) = DetailError.

Definition tile (n : string) : RawTile :=
  mkRawTile "John Deere" ("2024 5095M - 43153" +:+ n)
    (Some ("/en-us/used-equipment/tractors/" +:+ n)) "Starting at $96,977.25"
    ["Used"] (Some "/img.png") None.

(** A world in which the detail page of the second tile times out, the
    one of the first answers last, and the second listing page fails. *)
Definition flaky : World :=
  mkWorld
    (fun n => if n =? 0 then ListingPage (tile <$> ["1"; "2"; "3"; "4"; "5"; "6"; "7"; "8";
                                                     "9"; "a"; "b"; "c"])
              else ListingError)
    true
    (fun url =>
       if String.eqb url "https://www.akrs.com/en-us/used-equipment/tractors/2"
       then (5, DetailError)
       else if String.eqb url "https://www.akrs.com/en-us/used-equipment/tractors/1"
       then (7, DetailPage [("Location: ", " Gretna "); ("Engine Hours", "120")])
       else (1, DetailPage [("Serial", "X")])).


End DetailSpec.

Module CrawlSpec.
Import AllEquipment.

(** The tiles parsed on a listing page: none when the request fails, or
    when the debug copy of the first page cannot be written. *)
Definition parsed (w : World) (pageNum : nat) : option (list RawTile) :=
  match listing w pageNum with
  | ListingPage tiles =>
      if (pageNum =? 0) && negb (debugWriteOk w) then None else Some tiles
  | ListingError => None
  end.

(** The records of a listing page, in the order of its tiles. *)
Definition pageRecords (w : World) (pageNum : nat) : list Product :=
  match parsed w pageNum with
  | Some tiles => enrich w <$> (tileProduct <$> tiles)
  | None => []
  end.

(** A page with at least the nominal number of tiles. *)
Definition fullPage (w : World) (pageNum : nat) : Prop :=
  ∃ tiles, parsed w pageNum = Some tiles ∧ productsPerPage ≤ length tiles.

(** How the [try] block ends after requesting [n] pages from [pageNum]
    on: it throws when the last of them could not be parsed. *)
Definition completionOf (w : World) (pageNum n : nat) : Completion :=
  match n with
  | 0 => Returned
  | S m => match parsed w (pageNum + m) with None => Thrown | Some _ => Returned end
  end.

(** The number of tiles parsed on a listing page. *)
Definition tilesParsed (w : World) (pageNum : nat) : nat :=
  match parsed w pageNum with
  | Some tiles => length tiles
  | None => 0
  end.

End CrawlSpec.

(** ** The used-equipment scraper

    Its [processBatch], [cleanPrice], [scrapeProductDetails] and
    [parseProductName] are those of [scrape-all-equipment.js], and its
    [scrapeProducts] is the loop of [scrapeEquipment] on the used-equipment
    URL with [maxPages] fixed to 80. *)

Module UsedEquipment.

Definition maxPages : nat := 80.

Definition scrapeProducts (w : AllEquipment.World) : option (list AllEquipment.Product) :=
  AllEquipment.scrapeEquipment w maxPages.

End UsedEquipment.

Module TractorHouseCrawlSpec.
Import TractorHouse.

(** The listings that a page contributes. *)
Definition pageRecords (w : World) (pageNum : nat) : list Listing :=
  match page w pageNum with
  | PageCards scrapedData _ => pageListings scrapedData
  | PageError => []
  end.

(** A page after which the loop goes on: a next page is announced and
    there are at least [shortPage] cards. *)
Definition continues (w : World) (pageNum : nat) : Prop :=
  ∃ scrapedData, page w pageNum = PageCards scrapedData (Some true) ∧
                 shortPage ≤ length scrapedData.


End TractorHouseCrawlSpec.

(** * Further vocabulary *)

Module SheetUrl.
Import JsString.

(** The [productUrl] and [imageUrl] cells that [saveToExcel] writes, in
    [scrape-all-equipment.js] and in the used-equipment scraper: the empty
    string for an empty URL, else the URL made absolute. *)
Definition sheetUrl (url : string) : string :=
  if truthy url then
    (if startsWith url "http" then url else AllEquipment.BASE_URL +:+ url)
  else "".

(** A URL attribute that is absent, empty or absolute. *)
Definition absoluteOrEmpty (u : option string) : Prop :=
  match u with
  | Some url => url = "" ∨ startsWith url "http" = true
  | None => True
  end.

End SheetUrl.

Module DuplicateSpec.
Import Reconcile.

(** A Tractor House record that has a counterpart among the used records:
    its key is not ['|||'] and some used record has the same key. *)
Definition hasCounterpart (usedItems : list Item) (item : Item) : bool :=
  usableKey (createMatchKey item)
  && existsb (fun u => String.eqb (createMatchKey u) (createMatchKey item)) usedItems.

Definition counterparts (usedItems tractorHouseItems : list Item) : list Item :=
  filter (fun item => hasCounterpart usedItems item = true) tractorHouseItems.

End DuplicateSpec.

Module HeatmapAnalysis.
Import JsString.

(** The store table of the single-workbook analyzer; the key of McCook is
    spelled ['McCOOK'] there. *)
Definition STORE_LOCATIONS : gmap string Reconcile.Coordinates :=
  list_to_map [
    ("AINSWORTH", Reconcile.mkCoordinates 42.5506 (-99.8626) "Ainsworth, NE");
    ("ALBION", Reconcile.mkCoordinates 41.6906 (-98.0053) "Albion, NE");
    ("AUBURN", Reconcile.mkCoordinates 40.3925 (-95.8392) "Auburn, NE");
    ("AURORA", Reconcile.mkCoordinates 40.8672 (-98.0042) "Aurora, NE");
    ("BROKEN BOW", Reconcile.mkCoordinates 41.4017 (-99.6398) "Broken Bow, NE");
    ("CENTRAL CITY", Reconcile.mkCoordinates 41.1161 (-98.0020) "Central City, NE");
    ("CRETE", Reconcile.mkCoordinates 40.6278 (-96.9614) "Crete, NE");
    ("DAVID CITY", Reconcile.mkCoordinates 41.2517 (-97.1300) "David City, NE");
    ("ELKHORN", Reconcile.mkCoordinates 41.2858 (-96.2364) "Elkhorn, NE");
    ("GENEVA", Reconcile.mkCoordinates 40.5267 (-97.5961) "Geneva, NE");
    ("GRAND ISLAND", Reconcile.mkCoordinates 40.9250 (-98.3420) "Grand Island, NE");
    ("GRETNA", Reconcile.mkCoordinates 41.1400 (-96.2397) "Gretna, NE");
    ("McCOOK", Reconcile.mkCoordinates 40.2017 (-100.6251) "McCook, NE");
    ("NELIGH", Reconcile.mkCoordinates 42.1281 (-98.0298) "Neligh, NE");
    ("NORFOLK", Reconcile.mkCoordinates 42.0281 (-97.4170) "Norfolk, NE");
    ("NORTH PLATTE", Reconcile.mkCoordinates 41.1239 (-100.7654) "North Platte, NE");
    ("O'NEILL", Reconcile.mkCoordinates 42.4578 (-98.6473) "O'Neill, NE");
    ("OBERLIN", Reconcile.mkCoordinates 39.8197 (-100.5282) "Oberlin, KS");
    ("ORD", Reconcile.mkCoordinates 41.6031 (-98.9273) "Ord, NE");
    ("OSCEOLA", Reconcile.mkCoordinates 41.1783 (-97.5450) "Osceola, NE");
    ("PLAINVIEW", Reconcile.mkCoordinates 42.3472 (-97.7917) "Plainview, NE");
    ("RAVENNA", Reconcile.mkCoordinates 41.0261 (-98.9123) "Ravenna, NE");
    ("SEWARD", Reconcile.mkCoordinates 40.9069 (-97.0989) "Seward, NE");
    ("SPALDING", Reconcile.mkCoordinates 41.6872 (-98.3742) "Spalding, NE");
    ("ST. PAUL", Reconcile.mkCoordinates 41.2147 (-98.4584) "St. Paul, NE");
    ("SYRACUSE", Reconcile.mkCoordinates 40.6564 (-96.1881) "Syracuse, NE");
    ("YORK", Reconcile.mkCoordinates 40.8678 (-97.5920) "York, NE")
  ]%Q.

Record LocationStat := mkLocationStat {
  total : nat;
  new : nat;
  used : nat;
  coordinates : option Reconcile.Coordinates
}.

Record Analysis := mkAnalysis {
  locationStats : gmap string LocationStat;
  totalProducts : nat
}.

(** The body of [row.eachCell]: the [location] variable. *)
Definition cellStep (location : option string) (cell : Reconcile.Cell) : option string :=
  match (fun v => trim (toUpperCase v)) <$> snd cell with
  | Some value =>
      if bool_decide (is_Some (STORE_LOCATIONS !! value)) then Some value else location
  | None => location
  end.

Definition freshStat (location : string) : LocationStat :=
  mkLocationStat 0 0 0 (STORE_LOCATIONS !! location).

(** The counters of an entry after a row of a sheet. *)
Definition bump (sheetName : string) (e : LocationStat) : LocationStat :=
  let e := mkLocationStat (S (total e)) (new e) (used e) (coordinates e) in
  if includes (toLowerCase sheetName) "new" then
    mkLocationStat (total e) (S (new e)) (used e) (coordinates e)
  else if includes (toLowerCase sheetName) "used" then
    mkLocationStat (total e) (new e) (S (used e)) (coordinates e)
  else e.

(** The body of [worksheet.eachRow]. *)
Definition rowStep (sheetName : string) (a : Analysis) (row : nat * list Reconcile.Cell)
  : Analysis :=
  if fst row =? 1 then a
  else
    match foldl cellStep None (snd row) with
    | Some loc =>
        if truthy loc then
          let entry := default (freshStat loc) (locationStats a !! loc) in
          mkAnalysis (<[loc := bump sheetName entry]> (locationStats a))
                     (S (totalProducts a))
        else a
    | None => a
    end.

Definition sheetStep (a : Analysis) (ws : Reconcile.Worksheet) : Analysis :=
  foldl (rowStep (Reconcile.name ws)) a (Reconcile.rows ws).

(** [analyzeExcelData] of one workbook. *)
Definition analyze (wb : Reconcile.Workbook) : Analysis :=
  foldl sheetStep (mkAnalysis ∅ 0) (Reconcile.sheets wb).

Definition analyzeExcelData (wb : Reconcile.Workbook) : gmap string LocationStat :=
  locationStats (analyze wb).

(** The script of the generated page. *)
Inductive Filter := FilterAll | FilterNew | FilterUsed.

Definition getCount (location : LocationStat) (filter : Filter) : nat :=
  match filter with
  | FilterNew => new location
  | FilterUsed => used location
  | FilterAll => total location
  end.

(** The [forEach] of [updateMarkers] runs to its end: every location that is
    not skipped for a count of 0 has the coordinates that the marker
    reads. *)
Definition updateMarkersRuns (locations : gmap string LocationStat) (filter : Filter) : Prop :=
  map_Forall (fun _ location => getCount location filter = 0 ∨ is_Some (coordinates location))
             locations.

(** An entry as the single-workbook analyzer makes them. *)
Definition storeEntry (location : string) (e : LocationStat) : Prop :=
  (∃ v, location = trim (toUpperCase v)) ∧
  is_Some (STORE_LOCATIONS !! location) ∧
  coordinates e = STORE_LOCATIONS !! location ∧
  1 ≤ total e ∧
  new e + used e ≤ total e.

(** The value of [location] after some cells of a row. *)
Definition storeName (location : option string) : Prop :=
  match location with
  | Some loc => (∃ v, loc = trim (toUpperCase v)) ∧ is_Some (STORE_LOCATIONS !! loc)
  | None => True
  end.

(** A workbook with three rows located at McCook. *)
Definition mccookWorkbook : Reconcile.Workbook :=
  Reconcile.mkWorkbook "akrs-all-equipment-2025-01-01T10-00-00.xlsx"
    [Reconcile.mkWorksheet "Used Equipment"
       [(1, AggregationSpec.headerCells); AggregationSpec.sampleRow 2 "McCook";
        AggregationSpec.sampleRow 3 "MCCOOK"; AggregationSpec.sampleRow 4 "McCOOK"]].

End HeatmapAnalysis.

Module ReconcileMap.
Import Reconcile.

(** The script of the page that the reconciliation analyzer generates. *)
Inductive Filter := FilterAll | FilterNew | FilterUsed | FilterTractorHouse.

Definition getCount (location : LocationStat) (filter : Filter) : nat :=
  match filter with
  | FilterNew => new location
  | FilterUsed => used location
  | FilterTractorHouse => tractorHouse location
  | FilterAll => total location
  end.

(** [locations.reduce((sum, loc) => sum + loc.<field>, 0)] of [updateStats];
    the sum does not depend on the order of the array. *)
Definition sumOver (field : LocationStat → nat) (locations : gmap string LocationStat) : nat :=
  map_fold (fun _ location sum => sum + field location) 0 locations.

(** The [forEach] of [updateMarkers] runs to its end. *)
Definition updateMarkersRuns (locations : gmap string LocationStat) (filter : Filter) : Prop :=
  map_Forall (fun _ location => getCount location filter = 0 ∨ is_Some (coordinates location))
             locations.

End ReconcileMap.

Module AnalysisSpec.
Import Reconcile.

(** The totals of the analyzer agree with its entries and its item
    lists. *)
Definition accounted (a : Analysis) : Prop :=
  ReconcileMap.sumOver total (locationStats a) = totalProducts a ∧
  ReconcileMap.sumOver new (locationStats a) = typeNew (totalByType a) ∧
  ReconcileMap.sumOver used (locationStats a) = typeUsed (totalByType a) ∧
  ReconcileMap.sumOver tractorHouse (locationStats a) = typeTractorHouse (totalByType a) ∧
  length (allItemsUsed a) = typeUsed (totalByType a) ∧
  length (allItemsTractorHouse a) = typeTractorHouse (totalByType a).

(** An entry as the analyzer makes them. *)
Definition wellFormedEntry (location : string) (e : LocationStat) : Prop :=
  location ≠ "" ∧ 1 ≤ total e ∧ coordinates e = STORE_LOCATIONS !! location.

(** An item with a location that is not empty. *)
Definition located (item : Item) : Prop :=
  ∃ v, location item = Some (JsString.trim (JsString.toUpperCase v)) ∧
       JsString.trim (JsString.toUpperCase v) ≠ "".

(** What [row.eachCell] keeps true of the item and the [location]
    variable. *)
Definition cellInvariant (acc : Item * option string) : Prop :=
  location (fst acc) = snd acc ∧
  (snd acc = None ∨ ∃ v, snd acc = Some (JsString.trim (JsString.toUpperCase v))).

Definition allLocated (a : Analysis) : Prop :=
  Forall located (allItemsUsed a) ∧ Forall located (allItemsTractorHouse a).

(** A workbook with a row whose location is no store. *)
Definition strayWorkbooks : list Workbook :=
  [mkWorkbook "akrs-all-equipment-2025-01-01T10-00-00.xlsx"
     [mkWorksheet "Used Equipment"
        [(1, AggregationSpec.headerCells); AggregationSpec.sampleRow 2 "Gretna";
         AggregationSpec.sampleRow 3 "In transit"]]].

End AnalysisSpec.

Module CharSpec.

(** A lower-case letter. *)
Definition isLower (c : ascii) : bool :=
  let n := nat_of_ascii c in (97 <=? n) && (n <=? 122).

End CharSpec.

(** ** Rows of a detail page *)

Module DetailRows.
Import JsString AllEquipment.

Definition labelOf (row : string * string) : string := toLowerCase (trim (fst row)).

(** The rows that set the location, and the rows that set the hours. *)
Definition isLocationRow (row : string * string) : bool :=
  includes (labelOf row) "location".
Definition isHoursRow (row : string * string) : bool :=
  negb (isLocationRow row) && (includes (labelOf row) "hour" || includes (labelOf row) "hrs").

(** The trimmed value of the last row of a kind, empty when there is none. *)
Definition lastValue (kind : string * string → bool) (rows : list (string * string))
  : string :=
  match last (List.filter kind rows) with
  | Some row => trim (snd row)
  | None => ""
  end.

End DetailRows.

(** A detail page with two location rows, an hours row, and a row that
    names both the location and the hours. *)
Module DetailRowsExample.
Import AllEquipment.

Definition labelledRows : list (string * string) :=
  [("Location", " Gretna "); ("Engine Hours", "310"); ("Store location", "York ");
   ("Location hours", "8-5")].

Definition labelled : World :=
  mkWorld (fun _ => ListingError) true (fun _ => (1, DetailPage labelledRows)).

End DetailRowsExample.


(** ** Choosing the workbooks

    [findLatestExcelFile] of the single-workbook analyzer, and
    [findExcelFiles] and the choice of [filesToAnalyze] in [main] of the
    reconciliation analyzer.  A directory is what [fs.readdir] lists and
    the modification time that [fs.stat] gives for a name, in
    milliseconds; a directory that cannot be read is not modelled.
    [None] is the error thrown. *)

Module FileSelection.
Import JsString.

Record Directory := mkDirectory {
  readdir : list string;
  mtimeOf : string → Z
}.

Record FileStat := mkFileStat { name : string; mtime : Z }.

Definition endsWith (s suffix : string) : bool :=
  (String.length suffix <=? String.length s)
  && String.eqb (substring (String.length s - String.length suffix)
                           (String.length suffix) s) suffix.

(** [f.startsWith('akrs-') && f.endsWith('.xlsx')] *)
Definition isExcel (f : string) : bool := startsWith f "akrs-" && endsWith f ".xlsx".

(** [fileStats.sort((a, b) => b.mtime - a.mtime)]: the sort is stable, so
    a file stays before the files of the same time that came after it. *)
Fixpoint insertNewest (x : FileStat) (l : list FileStat) : list FileStat :=
  match l with
  | [] => [x]
  | y :: rest =>
      if (mtime y <=? mtime x)%Z then x :: y :: rest else y :: insertNewest x rest
  end.

Definition sortNewest (l : list FileStat) : list FileStat := foldr insertNewest [] l.

Definition statAll (d : Directory) (files : list string) : list FileStat :=
  (fun file => mkFileStat file (mtimeOf d file)) <$> files.

Definition findLatestExcelFile (d : Directory) : option string :=
  let excelFiles := List.filter isExcel (readdir d) in
  if length excelFiles =? 0 then None
  else
    match sortNewest (statAll d excelFiles) with
    | first :: _ => Some (name first)
    | [] => None
    end.

Record ExcelFiles := mkExcelFiles {
  all : list string;
  latest : string;
  equipment : list string;
  tractorHouse : list string
}.

Definition findExcelFiles (d : Directory) : option ExcelFiles :=
  let excelFiles := List.filter isExcel (readdir d) in
  if length excelFiles =? 0 then None
  else
    let fileStats := sortNewest (statAll d excelFiles) in
    match fileStats with
    | first :: _ =>
        Some (mkExcelFiles
                (name <$> fileStats)
                (name first)
                (name <$> List.filter (fun f => includes (name f) "all-equipment") fileStats)
                (name <$> List.filter (fun f => includes (name f) "tractor-house") fileStats))
    | [] => None
    end.

(** The [filesToAnalyze] of [main]. *)
Definition filesToAnalyze (files : ExcelFiles) : list string :=
  let chosen := match equipment files with f :: _ => [f] | [] => [] end in
  let chosen := chosen ++ match tractorHouse files with f :: _ => [f] | [] => [] end in
  if length chosen =? 0 then chosen ++ [latest files] else chosen.

(** A workbook of the directory. *)
Definition workbookOf (d : Directory) (f : string) : Prop :=
  f ∈ readdir d ∧ isExcel f = true.

(** No workbook of the directory with [word] in its name is more recent
    than [f]. *)
Definition newestWith (d : Directory) (word : string) (f : string) : Prop :=
  workbookOf d f ∧ includes f word = true ∧
  ∀ g, workbookOf d g → includes g word = true → (mtimeOf d g ≤ mtimeOf d f)%Z.

(** A directory after the three scrapers have run twice. *)
Definition sampleDirectory : Directory :=
  mkDirectory
    ["akrs-all-equipment-2025-01-02.xlsx"; "akrs-used-equipment-2025-01-09.xlsx";
     "notes.txt"; "akrs-tractor-house-2025-01-03.xlsx";
     "akrs-all-equipment-2025-01-05.xlsx"; "akrs-tractor-house-2025-01-01.xlsx";
     "akrs-location-heatmap.html"]
    (fun f => Z.of_nat (String.length f) +
              if includes f "01-09" then 900
              else if includes f "01-05" then 500
              else if includes f "01-03" then 300
              else if includes f "01-02" then 200 else 100)%Z.

End FileSelection.


(** ** The run of the reconciliation analyzer

    [main] up to the duplicate analysis: the workbooks chosen, their
    analysis, and the [duplicateInfo] handed to the page generator.  A
    workbook that cannot be read is not modelled; [None] is the run that
    ends in the [catch] with exit code 1. *)

Module ReconcileMain.
Import Reconcile FileSelection.

(** The [duplicateInfo] that [main] starts from; ['0.0'] is the string
    that [toFixed(1)] prints for zero. *)
Definition defaultInfo (t : ByType) : DuplicateInfo :=
  mkDuplicateInfo 0 (Fixed1 0)
    (Z.of_nat (typeUsed t)) (Z.of_nat (typeTractorHouse t))
    (Z.of_nat (typeUsed t) + Z.of_nat (typeTractorHouse t)).

Definition duplicateInfoOf (a : Analysis) : DuplicateInfo :=
  if (0 <? length (allItemsUsed a)) && (0 <? length (allItemsTractorHouse a))
  then detectDuplicates (allItemsUsed a) (allItemsTractorHouse a)
  else defaultInfo (totalByType a).

Record Report := mkReport {
  sourceFiles : list string;
  analysis : Analysis;
  duplicateInfo : DuplicateInfo
}.

Definition main (d : Directory) (readFile : string → list Worksheet) : option Report :=
  match findExcelFiles d with
  | None => None
  | Some files =>
      let filesToAnalyze := filesToAnalyze files in
      let a := analyzeExcelData ((fun f => mkWorkbook f (readFile f)) <$> filesToAnalyze) in
      Some (mkReport filesToAnalyze a (duplicateInfoOf a))
  end.

(** Rows of a sheet with a location column. *)
Definition locationSheet (sheetName : string) (stores : list string) : Worksheet :=
  mkWorksheet sheetName
    ((1, [(1, Some "Year"); (2, Some "Make"); (3, Some "Model"); (4, Some "Location")])
       :: imap (fun j store => (j + 2, [(1, Some "2020"); (2, Some "John Deere");
                                         (3, Some "8R 410"); (4, Some store)])) stores).

(** What the workbooks of [sampleDirectory] hold. *)
Definition sampleContents (f : string) : list Worksheet :=
  if JsString.includes f "tractor-house" then [locationSheet "Inventory" ["York"; "Gretna"]]
  else [locationSheet "New Equipment" ["York"];
        locationSheet "Used Equipment" ["York"; "Ord"; "York"]].

End ReconcileMain.


(** ** Collapsed white space *)

Module Squeeze.
Import JsString.

(** [s] with every run of white space replaced by one space; [inRun]
    says that the characters before [s] ended in white space that has
    been replaced already. *)
Fixpoint squeeze (inRun : bool) (s : string) : string :=
  match s with
  | EmptyString => EmptyString
  | String c t =>
      if isSpace c then
        if inRun then squeeze true t else String " " (squeeze true t)
      else String c (squeeze false t)
  end.


End Squeeze.


(** ** Price labels *)

Module PriceLabels.

(** The price text without its two labels, in any letter case. *)
Definition removeLabels (priceText : string) : string :=
  Regex.replaceAll (Regex.literalCI "List Price:") ""
    (Regex.replaceAll (Regex.literalCI "Starting at") "" priceText).

End PriceLabels.


(** ** Dollar amounts *)

Module PriceSpec.
Import JsString.

(** [[\d,]] *)
Definition amountChar (c : ascii) : bool := isDigit c || Ascii.eqb c ",".

(** The first character of [s] is none of an amount. *)
Definition amountEnds (s : string) : Prop :=
  match s with EmptyString => True | String c _ => amountChar c = false end.

End PriceSpec.


(** ** Names of the usual format *)

Module NameFormat.
Import JsString NameSpec.

(** A character of a model text: no line terminator and no dash. *)
Definition modelChar (c : ascii) : bool := isDot c && negb (Ascii.eqb c "-").

Definition firstChar (s : string) : option ascii :=
  match s with EmptyString => None | String c _ => Some c end.

Fixpoint lastChar (s : string) : option ascii :=
  match s with
  | EmptyString => None
  | String c t => match lastChar t with Some z => Some z | None => Some c end
  end.

Definition nonBlank (c : option ascii) : bool :=
  match c with Some c => negb (isSpace c) | None => false end.

(** A model text: not empty, without dash or line terminator, and
    without white space at either end. *)
Definition modelText (m : string) : Prop :=
  allChars modelChar m ∧ nonBlank (firstChar m) = true ∧ nonBlank (lastChar m) = true.

End NameFormat.


(** ** Cards of the Tractor House inventory

    The function that [scrapeInventoryListings] evaluates in the page on
    every card; the model of the crawl above takes its result,
    [scrapedData], as given.  A card answers the queries of the function: the text content
    of the first element that matches a selector, an attribute of it, its
    own [data-listing-id] and the number of its [.spec-container]
    elements. *)

Module TractorHouseCard.
Import JsString TractorHouse.

Record Card := mkCard {
  textOf : string → option string;
    (* [el.querySelector(sel)?.textContent] *)
  attrOf : string → string → option (option string);
    (* [None]: no element; [Some None]: [getAttribute] gives [null] *)
  dataListingId : option string;
  specContainers : nat
}.

Section Extract.
Variable el : Card.

Definition getText (sel : string) : string :=
  match textOf el sel with Some text => trim text | None => "" end.

Definition getAttr (sel attr : string) : option string :=
  match attrOf el sel attr with Some v => v | None => Some "" end.

(** [a || b] on values that are strings or [null]. *)
Definition orElse (a b : option string) : option string :=
  if optTruthy a then a else b.

(** [a || b] on strings. *)
Definition orText (a b : string) : string := if truthy a then a else b.

End Extract.

(** [s.replace(':', '')]: the first colon is removed. *)
Fixpoint removeFirst (c : ascii) (s : string) : string :=
  match s with
  | EmptyString => EmptyString
  | String x t => if Ascii.eqb x c then t else String x (removeFirst c t)
  end.

(** [s.replace(re, rep)] for a pattern without the [g] flag. *)
Definition replaceFirst (p : Regex.Pattern) (rep : string) (s : string) : string :=
  match Regex.search p (list_ascii_of_string s) with
  | Some (before, pieces) =>
      string_of_list_ascii before +:+ rep
        +:+ string_of_list_ascii
              (drop (length before + length (concat pieces)) (list_ascii_of_string s))
  | None => s
  end.

(** [s.split(' ')] *)
Fixpoint split (sep : ascii) (s : string) : list string :=
  match s with
  | EmptyString => [EmptyString]
  | String c t =>
      if Ascii.eqb c sep then EmptyString :: split sep t
      else
        match split sep t with
        | part :: parts => String c part :: parts
        | [] => [String c EmptyString]
        end
  end.

(** [/^\d{4}$/.test(s)] *)
Definition isYear (s : string) : bool :=
  (String.length s =? 4) && forallb isDigit (list_ascii_of_string s).

Record TitleParts := mkTitleParts {
  partYear : string;
  partMake : string;
  partModel : string
}.

(** The year, make and model read from the title. *)
Definition parseTitle (title : string) : TitleParts :=
  if truthy title then
    match split " " title with
    | p0 :: p1 :: p2 :: rest =>
        if isYear p0 then
          match rest with
          | _ :: _ => mkTitleParts p0 (p1 +:+ " " +:+ p2) (join " " rest)
          | [] => mkTitleParts p0 p1 (join " " [p2])
          end
        else mkTitleParts "" "" ""
    | _ => mkTitleParts "" "" ""
    end
  else mkTitleParts "" "" "".

Record Specs := mkSpecs {
  specHours : string;
  specSerialNumber : string;
  specStockNumber : string
}.

(** The body of [specContainers.forEach].  [getText] is an arrow function
    over the card [el], so the receiver given to [call] is not used: the
    label and the value are those of the first [.spec-label] and
    [.spec-value] of the card, for every container. *)
Definition specStep (el : Card) (s : Specs) : Specs :=
  let label := trim (removeFirst ":" (toLowerCase (getText el ".spec-label"))) in
  let value := getText el ".spec-value" in
  if includes label "hour" then mkSpecs value (specSerialNumber s) (specStockNumber s)
  else if includes label "serial" then mkSpecs (specHours s) value (specStockNumber s)
  else if includes label "stock" then mkSpecs (specHours s) (specSerialNumber s) value
  else s.

Definition readSpecs (el : Card) : Specs :=
  Nat.iter (specContainers el) (specStep el) (mkSpecs "" "" "").

(** [/^([^,]+)/] *)
Definition cityPattern : Regex.Pattern :=
  [Regex.group (Regex.plus (fun c => negb (Ascii.eqb c ",")))].

Definition readLocation (el : Card) : string :=
  match textOf el ".machine-location" with
  | Some textContent =>
      let locationText :=
        trim (replaceFirst (Regex.literalCI "Machine Location:") "" textContent) in
      match Regex.matchHere cityPattern (list_ascii_of_string locationText) with
      | Some pieces =>
          match Regex.groups cityPattern pieces with
          | city :: _ => toUpperCase (trim city)
          | [] => ""
          end
      | None => ""
      end
  | None => ""
  end.

Definition doubleQuote : string := String (ascii_of_nat 34) EmptyString.

(** The selector [a[href*=.../listing/for-sale/...]], with the path in
    double quotes. *)
Definition listingLink : string :=
  "a[href*=" +:+ doubleQuote +:+ "/listing/for-sale/" +:+ doubleQuote +:+ "]".

(** The callback of [elements.map]. *)
Definition extract (el : Card) : Listing :=
  let title := orText (getText el "h2.listing-portion-title strong")
                      (getText el ".list-listing-title-link strong") in
  let category := getText el "p.listing-category" in
  let price := getText el ".listing-image-price" in
  let detailUrl := orElse (getAttr el ".list-listing-title-link" "href")
                          (getAttr el listingLink "href") in
  let imageUrl := orElse (getAttr el "img.listing-main-image" "src")
                         (getAttr el "img" "src") in
  let listingId := orText (orEmpty (dataListingId el)) "" in
  let specs := readSpecs el in
  let location := readLocation el in
  let parts := parseTitle title in
  mkListing title (partYear parts) (partMake parts) (partModel parts) price
    (specHours specs) (specSerialNumber specs) (specStockNumber specs) location
    "" category "" detailUrl imageUrl listingId.

(** A world whose pages are read from cards: the cards of a page and the
    answer of its next-page test, [None] for a page that fails. *)
Definition worldOf (launchOk : bool) (cards : nat → option (list Card * option bool))
  : World :=
  mkWorld launchOk
    (fun pageNum =>
       match cards pageNum with
       | Some (els, hasNextPage) => PageCards (extract <$> els) hasNextPage
       | None => PageError
       end).

(** A card with a title, a price, one location and three spec containers
    for hours, serial number and stock number. *)
Definition sampleCard : Card :=
  mkCard
    (fun sel =>
       if String.eqb sel "h2.listing-portion-title strong" then Some " 2025 JOHN DEERE 9RX 640 "
       else if String.eqb sel ".listing-image-price" then Some "USD $629,900.00"
       else if String.eqb sel ".spec-label" then Some "Hours:"
       else if String.eqb sel ".spec-value" then Some "412"
       else if String.eqb sel ".machine-location"
            then Some "Machine Location: Mccook, Nebraska 69001"
       else None)
    (fun sel attr =>
       if String.eqb sel ".list-listing-title-link" then Some (Some "/listing/for-sale/1")
       else if String.eqb sel "img" then Some (Some "//media.example.com/1.jpg")
       else None)
    (Some "1")
    3.

End TractorHouseCard.


(** ** Names of the workbooks

    The name that [saveToExcel] gives its file in each of the three
    scrapers, and the date that [generateHeatmapHTML] of the
    reconciliation analyzer reads back from a name. *)

Module FileNames.
Import JsString Regex.

(** The parts of [new Date().toISOString()], for a year from 0 to 9999:
    [YYYY-MM-DDTHH:mm:ss.sssZ]. *)
Record Instant := mkInstant {
  isoYear : string;
  isoMonth : string;
  isoDay : string;
  isoHour : string;
  isoMinute : string;
  isoSecond : string;
  isoMillis : string
}.

Definition digits (n : nat) (s : string) : Prop :=
  String.length s = n ∧ NameSpec.allChars isDigit s.

Definition wellFormed (t : Instant) : Prop :=
  digits 4 (isoYear t) ∧ digits 2 (isoMonth t) ∧ digits 2 (isoDay t) ∧
  digits 2 (isoHour t) ∧ digits 2 (isoMinute t) ∧ digits 2 (isoSecond t) ∧
  digits 3 (isoMillis t).

Definition toISOString (t : Instant) : string :=
  isoYear t +:+ "-" +:+ isoMonth t +:+ "-" +:+ isoDay t +:+ "T" +:+ isoHour t
    +:+ ":" +:+ isoMinute t +:+ ":" +:+ isoSecond t +:+ "." +:+ isoMillis t +:+ "Z".

(** [iso.replace(/:/g, '-').split('.')[0]] *)
Definition fileStamp (iso : string) : string :=
  match TractorHouseCard.split "." (replaceAll [lit ":"] "-" iso) with
  | part :: _ => part
  | [] => ""
  end.

Definition allEquipmentName (iso : string) : string :=
  "akrs-all-equipment-" +:+ fileStamp iso +:+ ".xlsx".
Definition tractorHouseName (iso : string) : string :=
  "akrs-tractor-house-" +:+ fileStamp iso +:+ ".xlsx".
Definition usedEquipmentName (iso : string) : string :=
  "akrs-used-equipment-" +:+ fileStamp iso +:+ ".xlsx".

(** [/(\d{4})-(\d{2})-(\d{2})T(\d{2})-(\d{2})-(\d{2})/] *)
Definition stampPattern : Pattern :=
  [group (exactly 4 isDigit); lit "-"; group (exactly 2 isDigit); lit "-";
   group (exactly 2 isDigit); lit "T"; group (exactly 2 isDigit); lit "-";
   group (exactly 2 isDigit); lit "-"; group (exactly 2 isDigit)].

(** The string that [generateHeatmapHTML] gives to [new Date]; [None]
    when the name has no timestamp and the page says 'Unknown'. *)
Definition dateArgument (latestFile : string) : option string :=
  match jsMatch stampPattern latestFile with
  | Some (_, [year; month; day; hour; minute; second]) =>
      Some (year +:+ "-" +:+ month +:+ "-" +:+ day +:+ "T" +:+ hour
              +:+ ":" +:+ minute +:+ ":" +:+ second)
  | _ => None
  end.

(** The date of the page: that of [sourceFiles[0]]; [main] never gives an
    empty list. *)
Definition pageDate (sourceFiles : list string) : option string :=
  match sourceFiles with
  | latestFile :: _ => dateArgument latestFile
  | [] => None
  end.

(** The instant without its milliseconds and its zone. *)
Definition localReading (t : Instant) : string :=
  isoYear t +:+ "-" +:+ isoMonth t +:+ "-" +:+ isoDay t +:+ "T" +:+ isoHour t
    +:+ ":" +:+ isoMinute t +:+ ":" +:+ isoSecond t.

Definition sampleInstant : Instant := mkInstant "2025" "01" "05" "14" "03" "59" "123".
Definition laterInstant : Instant := mkInstant "2025" "02" "11" "08" "30" "00" "007".

End FileNames.


(** * Properties *)

(** ** Strings *)

Section StringFacts.

Lemma string_length_app (a b : string) :
  String.length (a +:+ b) = String.length a + String.length b.
Proof. induction a as [|c a IH]; simpl; [reflexivity | now rewrite IH]. Qed.

Lemma string_length_0 (a : string) : String.length a = 0 → a = "".
Proof. destruct a; [reflexivity | discriminate]. Qed.

Lemma truthy_false (a : string) : JsString.truthy a = false ↔ a = "".
Proof. destruct a; simpl; split; congruence. Qed.

End StringFacts.

(** ** Tiers *)

(** C7: with a total of exactly 51, the tier function of the 50/20 map gives
    the colour of HIGH and the one of the 150/100 reconciliation map the
    colour of LOW; each function follows its own two thresholds for every
    count. *)
Theorem tiers_at_51 :
  Heatmap.getColor 51 = Heatmap.HIGH ∧
  Reconcile.getColor 51 = Reconcile.LOW ∧
  (∀ count,
     Heatmap.getColor count =
       if bool_decide (50 < count) then Heatmap.HIGH
       else if bool_decide (20 < count ∧ count ≤ 50) then Heatmap.MEDIUM
       else Heatmap.LOW) ∧
  (∀ count,
     Reconcile.getColor count =
       if bool_decide (150 < count) then Reconcile.HIGH
       else if bool_decide (100 < count ∧ count ≤ 150) then Reconcile.MEDIUM
       else Reconcile.LOW).
Proof.
  split; [reflexivity|]. split; [reflexivity|].
  split; intros count.
  - unfold Heatmap.getColor.
    destruct (Nat.ltb_spec 50 count), (Nat.ltb_spec 20 count);
      repeat case_bool_decide; try reflexivity; lia.
  - unfold Reconcile.getColor.
    destruct (Nat.ltb_spec 150 count), (Nat.ltb_spec 100 count);
      repeat case_bool_decide; try reflexivity; lia.
Qed.

(** ** Cross-source matcher *)

Section Matcher.
Import Reconcile MatcherSpec.

Lemma key_components (item : Item) :
  createMatchKey item =
    keyYear item +:+ "|" +:+ keyMake item +:+ "|" +:+ keyModel item +:+ "|"
      +:+ keyLocation item.
Proof. reflexivity. Qed.

Lemma all_empty_key (item : Item) :
  allEmpty item = true ↔ createMatchKey item = "|||".
Proof.
  rewrite key_components. unfold allEmpty, isEmpty.
  rewrite !andb_true_iff, !negb_true_iff, !truthy_false.
  split.
  - intros [[[-> ->] ->] ->]. reflexivity.
  - intros H. apply (f_equal String.length) in H.
    rewrite !string_length_app in H. simpl in H.
    repeat split; apply string_length_0; lia.
Qed.

Lemma usable_key (item : Item) :
  usableKey (createMatchKey item) = negb (allEmpty item).
Proof.
  unfold usableKey.
  assert (JsString.truthy (createMatchKey item) = true) as ->.
  { rewrite key_components. destruct (keyYear item); reflexivity. }
  simpl. f_equal.
  destruct (allEmpty item) eqn:E.
  - apply all_empty_key in E. rewrite E. reflexivity.
  - apply String.eqb_neq. intros K. apply all_empty_key in K. congruence.
Qed.

Lemma buildUsedKeys_app (l k : list Item) :
  buildUsedKeys (l ++ k) =
    foldl (fun usedKeys item =>
             let key := createMatchKey item in
             if usableKey key then <[key := item]> usedKeys else usedKeys)
          (buildUsedKeys l) k.
Proof. unfold buildUsedKeys. apply foldl_app. Qed.




Lemma buildUsedKeys_no_empty_key (usedItems : list Item) :
  buildUsedKeys usedItems !! "|||" = None.
Proof.
  induction usedItems as [|item l IH] using rev_ind; [reflexivity|].
  rewrite buildUsedKeys_app. simpl.
  rewrite usable_key. destruct (allEmpty item) eqn:E; simpl; [exact IH|].
  rewrite lookup_insert_ne; [exact IH|].
  intros K. apply all_empty_key in K. congruence.
Qed.

End Matcher.

Section MatcherClaims.
Import Reconcile MatcherSpec.




Lemma countDuplicates_nil (m : gmap string Item) : countDuplicates m [] = 0.
Proof. reflexivity. Qed.






End MatcherClaims.

(** ** Aggregation by location *)

Section Aggregation.
Import Reconcile AggregationSpec.

Lemma bump_total (c : Category) (e : LocationStat) : total (bump c e) = S (total e).
Proof. destruct c; reflexivity. Qed.

Lemma bump_sources (c : Category) (e : LocationStat) :
  sourceCount (bump c e) =
    sourceCount e + match c with CatNone => 0 | _ => 1 end.
Proof. destruct c; unfold sourceCount; simpl; lia. Qed.

Lemma bump_balanced (c : Category) (e : LocationStat) :
  balanced e → balanced (bump c e).
Proof.
  intros H. pose proof (bump_total c e) as Ht. pose proof (bump_sources c e) as Hs.
  unfold balanced, sourceCount in *. destruct c; lia.
Qed.

Lemma freshStat_balanced (loc : string) : balanced (freshStat loc).
Proof. unfold balanced; simpl; lia. Qed.

Lemma rowStep_balanced isTH sheetName headers (a : Analysis) (row : nat * list Cell) :
  allBalanced a → allBalanced (rowStep isTH sheetName headers a row).
Proof.
  intros Ha. unfold rowStep.
  destruct (fst row =? 1); [exact Ha|].
  destruct (foldl (cellStep headers) (emptyItem, None) (snd row)) as [item [loc|]];
    [|exact Ha].
  destruct (JsString.truthy loc); [|exact Ha].
  unfold allBalanced; cbn [locationStats].
  apply map_Forall_insert_2; [|exact Ha].
  apply bump_balanced.
  destruct (locationStats a !! loc) as [e|] eqn:E; simpl.
  - exact (Ha _ _ E).
  - apply freshStat_balanced.
Qed.

Lemma foldl_preserves {A B} (P : A → Prop) (f : A → B → A) (l : list B) (a : A) :
  (∀ a b, P a → P (f a b)) → P a → P (foldl f a l).
Proof.
  intros Hf. revert a. induction l as [|b l IH]; intros a Ha; simpl; [exact Ha|].
  apply IH, Hf, Ha.
Qed.

Lemma analyzeExcelData_balanced (workbooks : list Workbook) :
  allBalanced (analyzeExcelData workbooks).
Proof.
  unfold analyzeExcelData.
  apply (foldl_preserves allBalanced).
  - intros a wb Ha. unfold fileStep.
    apply (foldl_preserves allBalanced); [|exact Ha].
    intros a' ws Ha'. unfold sheetStep.
    apply (foldl_preserves allBalanced); [|exact Ha'].
    intros a'' row. apply rowStep_balanced.
  - intros loc e E. cbn [locationStats] in E. rewrite lookup_empty in E. discriminate.
Qed.

(** C10: in every location entry that the aggregation of the
    reconciliation analyzer produces, new + used + tractorHouse is at most
    total.  A counted row adds one to the total and one to at most one of
    the three counters, none when its sheet has no source category. *)
Theorem source_counters_within_total
    (workbooks : list Workbook) (location : string) (e : LocationStat) :
  locationStats (analyzeExcelData workbooks) !! location = Some e →
  new e + used e + tractorHouse e ≤ total e ∧
  (∀ c e', total (bump c e') = S (total e') ∧
           sourceCount (bump c e') = sourceCount e' + match c with CatNone => 0 | _ => 1 end).
Proof.
  intros E. split.
  - exact (analyzeExcelData_balanced workbooks _ _ E).
  - intros c e'. split; [apply bump_total | apply bump_sources].
Qed.

Lemma source_counters_within_total_witness :
  1 + 1 + 1 ≤ 4 ∧
  (∀ c e', total (bump c e') = S (total e') ∧
           sourceCount (bump c e') = sourceCount e' + match c with CatNone => 0 | _ => 1 end).
Proof.
  apply (source_counters_within_total sampleWorkbooks "GRETNA"
           (mkLocationStat 4 1 1 1 (STORE_LOCATIONS !! "GRETNA"))).
  vm_compute. reflexivity.
Defined.

End Aggregation.

(** ** Tractor House crawl *)

Section TractorHouseListings.
Import TractorHouse TractorHouseSpec.

Lemma meaningful_false (item : Listing) :
  meaningful item = false ↔ title item = "" ∧ make item = "" ∧ model item = "".
Proof.
  unfold meaningful. rewrite !orb_false_iff, !truthy_false. tauto.
Qed.

Lemma meaningful_true (item : Listing) :
  meaningful item = true → title item ≠ "" ∨ make item ≠ "" ∨ model item ≠ "".
Proof.
  unfold meaningful. rewrite !orb_true_iff.
  intros [[H|H]|H]; [left | right; right | right; left];
    intros E; rewrite E in H; discriminate.
Qed.

Lemma cleanItem_meaningful (item : Listing) :
  meaningful (cleanItem item) = meaningful item.
Proof. reflexivity. Qed.

Lemma pageListings_meaningful (scrapedData : list Listing) :
  Forall (fun item => meaningful item = true) (pageListings scrapedData).
Proof.
  unfold pageListings. apply Forall_forall. intros item H.
  apply list_elem_of_filter in H. tauto.
Qed.

Lemma pageListings_app (l k : list Listing) :
  pageListings (l ++ k) = pageListings l ++ pageListings k.
Proof. unfold pageListings. now rewrite fmap_app, filter_app. Qed.

Lemma pageListings_cons (item : Listing) (l : list Listing) :
  pageListings (item :: l) =
    (if meaningful item then [cleanItem item] else []) ++ pageListings l.
Proof.
  unfold pageListings. rewrite fmap_cons, filter_cons.
  rewrite cleanItem_meaningful.
  destruct (meaningful item); case_decide; try reflexivity; congruence.
Qed.

Lemma pageListings_length (scrapedData : list Listing) :
  length (pageListings scrapedData) ≤ length scrapedData.
Proof.
  unfold pageListings. etransitivity; [apply length_filter|].
  now rewrite length_fmap.
Qed.

(** What the loop keeps true: it only adds listings that pass the test,
    and no more listings than the cards of the pages it requests. *)
Lemma crawlLoop_listings (w : World) (remaining pageNum : nat) (st : CrawlState) :
  ∃ added pages,
    listings (crawlLoop w remaining pageNum st) = listings st ++ added ∧
    requested (crawlLoop w remaining pageNum st) = requested st ++ pages ∧
    Forall (fun item => meaningful item = true) added ∧
    length added ≤ sum_list (cardsOn w <$> pages).
Proof.
  revert pageNum st. induction remaining as [|remaining IH]; intros pageNum st; simpl.
  { exists [], []. rewrite !app_nil_r. repeat split; [constructor | simpl; lia]. }
  assert (∃ added pages,
             listings st = listings st ++ added ∧
             requested st ++ [pageNum] = requested st ++ pages ∧
             Forall (fun item => meaningful item = true) added ∧
             length added ≤ sum_list (cardsOn w <$> pages)) as Stop.
  { exists [], [pageNum]. rewrite app_nil_r. repeat split; [constructor | simpl; lia]. }
  assert (∀ d o, page w pageNum = PageCards d o →
             ∃ added pages,
               listings st ++ pageListings d = listings st ++ added ∧
               requested st ++ [pageNum] = requested st ++ pages ∧
               Forall (fun item => meaningful item = true) added ∧
               length added ≤ sum_list (cardsOn w <$> pages)) as StopKept.
  { intros d o E. exists (pageListings d), [pageNum].
    repeat split; [apply pageListings_meaningful|].
    simpl. unfold cardsOn. rewrite E.
    pose proof (pageListings_length d). lia. }
  destruct (page w pageNum) as [|scrapedData hasNextPage] eqn:E; [exact Stop|].
  destruct (length scrapedData =? 0); [exact Stop|].
  destruct hasNextPage as [hasNextPage|]; [|cbn; eauto].
  destruct (negb hasNextPage || (length scrapedData <? shortPage)); [cbn; eauto|].
  destruct (IH (S pageNum)
              (mkCrawlState (listings st ++ pageListings scrapedData)
                            (requested st ++ [pageNum])))
    as (added & pages & Hl & Hr & Hm & Hn).
  cbn [listings requested] in *.
  exists (pageListings scrapedData ++ added), (pageNum :: pages).
  rewrite Hl, Hr, <- !app_assoc. repeat split.
  - apply Forall_app. split; [apply pageListings_meaningful | exact Hm].
  - rewrite length_app.
    change (sum_list (cardsOn w <$> pageNum :: pages))
      with (cardsOn w pageNum + sum_list (cardsOn w <$> pages)).
    unfold cardsOn at 1. rewrite E.
    pose proof (pageListings_length scrapedData). lia.
Qed.

(** C9: every listing that [scrapeInventoryListings] returns has a title,
    a make or a model that is not empty; a card whose three fields are
    empty adds nothing to the page's listings; so the crawl never returns
    more listings than it read cards, and it can return fewer. *)
Theorem listings_have_title_make_or_model (w : World) :
  Forall (fun item => title item ≠ "" ∨ make item ≠ "" ∨ model item ≠ "")
         (scrapeInventoryListings w) ∧
  (∀ before item after,
     pageListings (before ++ item :: after) =
       pageListings before
         ++ (if bool_decide (title item = "" ∧ make item = "" ∧ model item = "")
             then [] else [cleanItem item])
         ++ pageListings after) ∧
  length (scrapeInventoryListings w) ≤ cardsRead w ∧
  length (scrapeInventoryListings onePage) < cardsRead onePage.
Proof.
  assert (Forall (fun item => meaningful item = true) (scrapeInventoryListings w)
          ∧ length (scrapeInventoryListings w) ≤ cardsRead w) as [Hm Hn].
  { unfold scrapeInventoryListings, cardsRead, crawl.
    destruct (launchOk w); [|split; [constructor | simpl; lia]].
    destruct (crawlLoop_listings w maxPages 1 (mkCrawlState [] []))
      as (added & pages & Hl & Hr & Hm & Hn).
    rewrite Hl, Hr. simpl. auto. }
  split; [|split; [|split]].
  - eapply Forall_impl; [exact Hm|]. intros item. apply meaningful_true.
  - intros before item after.
    rewrite pageListings_app, pageListings_cons. f_equal. f_equal.
    destruct (meaningful item) eqn:E; case_bool_decide as D; try reflexivity.
    + apply meaningful_false in D. congruence.
    + rewrite <- meaningful_false in D. congruence.
  - exact Hn.
  - vm_compute. lia.
Qed.

End TractorHouseListings.

(** ** Regular expressions *)

Section RegexFacts.
Import Regex RegexSpec.

Lemma firstSome_Some {A B} (f : A → option B) (l : list A) (y : B) :
  firstSome f l = Some y → ∃ x, x ∈ l ∧ f x = Some y.
Proof.
  induction l as [|x l IH]; simpl; [discriminate|].
  destruct (f x) as [y'|] eqn:E.
  - intros [= <-]. exists x. split; [left | exact E].
  - intros H. destruct (IH H) as (x' & Hin & Hx). exists x'. split; [now right | exact Hx].
Qed.

Lemma run_le_length (p : ascii → bool) (s : list ascii) : run p s ≤ length s.
Proof. induction s as [|c s IH]; simpl; [lia|]. destruct (p c); simpl; lia. Qed.

Lemma run_take (p : ascii → bool) (s : list ascii) (n : nat) :
  n ≤ run p s → Forall (fun c => p c = true) (take n s).
Proof.
  revert n. induction s as [|c s IH]; intros n Hn; simpl in *.
  - destruct n; constructor.
  - destruct n as [|n]; [constructor|]. simpl.
    destruct (p c) eqn:E; [|lia].
    constructor; [exact E | apply IH; lia].
Qed.

Lemma candidates_bounds (a : Atom) (s : list ascii) (n : nat) :
  n ∈ candidates a s →
  lo a ≤ n ∧ n ≤ run (cls a) s ∧ (∀ h, hi a = Some h → n ≤ h).
Proof.
  unfold candidates. intros H.
  assert (n ∈ seq (lo a)
                 (S (match hi a with
                     | Some h => Nat.min h (run (cls a) s)
                     | None => run (cls a) s
                     end) - lo a)) as Hn.
  { destruct (greedy a); [|exact H].
    apply list_elem_of_In, in_rev, list_elem_of_In. exact H. }
  apply elem_of_seq in Hn.
  destruct (hi a) as [h|]; repeat split; try lia; intros h' [= <-]; lia.
Qed.

Lemma matchHere_sound (p : Pattern) (s : list ascii) (pieces : list (list ascii)) :
  matchHere p s = Some pieces →
  Forall2 fits p pieces ∧ ∃ rest, s = concat pieces ++ rest.
Proof.
  revert s pieces. induction p as [|a p IH]; intros s pieces; simpl.
  - intros [= <-]. split; [constructor | now exists s].
  - intros H. apply firstSome_Some in H as (n & Hn & H).
    destruct (matchHere p (drop n s)) as [pieces'|] eqn:E; [|discriminate].
    injection H as <-.
    destruct (IH _ _ E) as (Hfit & rest & Hrest).
    apply candidates_bounds in Hn as (Hlo & Hrun & Hhi).
    pose proof (run_le_length (cls a) s) as Hlen.
    split.
    + constructor; [|exact Hfit].
      unfold fits. rewrite length_take_le by lia.
      repeat split; [exact Hlo | exact Hhi | now apply run_take].
    + exists rest. simpl. rewrite <- app_assoc, <- Hrest. symmetry. apply take_drop.
Qed.

Lemma search_sound (p : Pattern) (s pre : list ascii) (pieces : list (list ascii)) :
  search p s = Some (pre, pieces) →
  matchHere p (drop (length pre) s) = Some pieces ∧
  (∃ rest, s = pre ++ concat pieces ++ rest) ∧
  (∀ k, k < length pre → matchHere p (drop k s) = None).
Proof.
  revert pre. induction s as [|c s IH]; intros pre; simpl.
  - destruct (matchHere p []) as [ps|] eqn:E; [|discriminate].
    intros [= <- <-]. simpl. split; [exact E|]. split.
    + apply matchHere_sound in E as (_ & rest & ->). now exists rest.
    + intros k Hk. lia.
  - destruct (matchHere p (c :: s)) as [ps|] eqn:E.
    + intros [= <- <-]. simpl. split; [exact E|]. split.
      * apply matchHere_sound in E as (_ & rest & ->). now exists rest.
      * intros k Hk. lia.
    + destruct (search p s) as [[pre' ps]|] eqn:Es; [|discriminate].
      simpl. intros [= <- <-]. destruct (IH _ eq_refl) as (Hm & (rest & Hs) & Hnone).
      simpl. split; [exact Hm|]. split.
      * exists rest. now rewrite Hs at 1.
      * intros [|k] Hk; [exact E|]. simpl. apply Hnone. lia.
Qed.

Lemma string_of_list_ascii_app (a b : list ascii) :
  string_of_list_ascii (a ++ b) = string_of_list_ascii a +:+ string_of_list_ascii b.
Proof. induction a as [|c a IH]; simpl; [reflexivity | now rewrite IH]. Qed.


End RegexFacts.

(** ** Name parsing *)

Section NameParsing.
Import Regex RegexSpec AllEquipment NameSpec JsString.


Lemma nonempty_of_list (piece : list ascii) :
  1 ≤ length piece → string_of_list_ascii piece ≠ "".
Proof. destruct piece; simpl; [lia | discriminate]. Qed.

Lemma fits_lit (c : ascii) (piece : list ascii) : fits (lit c) piece → piece = [c].
Proof.
  intros (Hlo & Hhi & Hc). simpl in *. specialize (Hhi 1 eq_refl).
  destruct piece as [|x [|y piece]]; simpl in *; try lia.
  apply Forall_cons in Hc as [Hx _]. apply Ascii.eqb_eq in Hx. now subst.
Qed.






End NameParsing.

(** ** Promises and the batch scheduler *)

Section PromiseAll.
Import Batch BatchSpec.
Context {B St E : Type}.
Implicit Types (calls ran : list (Call St E B)) (order : list (nat * Call St E B)).
Implicit Types (values : list (option B)) (s : St).

Lemma insertByTime_perm (x : nat * Call St E B) order :
  insertByTime x order ≡ₚ x :: order.
Proof.
  induction order as [|y order IH]; simpl; [reflexivity|].
  destruct (settlesAt (snd x) <=? settlesAt (snd y)); [reflexivity|].
  rewrite IH. apply Permutation_swap.
Qed.

Lemma settleOrder_perm calls :
  settleOrder calls ≡ₚ imap (fun j c => (j, c)) calls.
Proof.
  unfold settleOrder. induction (imap (fun j c => (j, c)) calls) as [|x l IH]; simpl;
    [reflexivity|].
  rewrite insertByTime_perm. now rewrite IH.
Qed.

Lemma indices_imap calls :
  fst <$> imap (fun j (c : Call St E B) => (j, c)) calls = seq 0 (length calls).
Proof.
  apply list_eq. intros k.
  rewrite list_lookup_fmap, list_lookup_imap.
  destruct (calls !! k) as [c|] eqn:Ek; simpl.
  - symmetry. apply lookup_seq. split; [reflexivity|]. now apply lookup_lt_Some in Ek.
  - symmetry. apply lookup_seq_ge. now apply lookup_ge_None in Ek.
Qed.

Lemma calls_imap calls :
  snd <$> imap (fun j (c : Call St E B) => (j, c)) calls = calls.
Proof.
  apply list_eq. intros k. rewrite list_lookup_fmap, list_lookup_imap.
  now destruct (calls !! k).
Qed.

Lemma settleOrder_calls calls : snd <$> settleOrder calls ≡ₚ calls.
Proof. now rewrite settleOrder_perm, calls_imap. Qed.

Lemma settleOrder_NoDup calls : NoDup (fst <$> settleOrder calls).
Proof. rewrite settleOrder_perm, indices_imap. apply NoDup_seq. Qed.

Lemma fill_length values order : length (fill values order) = length values.
Proof.
  revert values. induction order as [|[j c] order IH]; intros values; simpl;
    [reflexivity|].
  unfold fill in *. simpl. now rewrite IH, length_insert.
Qed.

Lemma fill_lookup_other values order (k : nat) :
  k ∉ fst <$> order → fill values order !! k = values !! k.
Proof.
  revert values. induction order as [|[j c] order IH]; intros values Hk; [reflexivity|].
  rewrite fmap_cons, not_elem_of_cons in Hk. destruct Hk as [Hj Hk].
  unfold fill in *. simpl. rewrite IH by exact Hk.
  now apply list_lookup_insert_ne.
Qed.

Lemma fill_lookup values order (k : nat) (c : Call St E B) :
  NoDup (fst <$> order) → (k, c) ∈ order → k < length values →
  fill values order !! k = Some (valueOf c).
Proof.
  revert values. induction order as [|[j c'] order IH]; intros values Hnd Hin Hk.
  { now apply elem_of_nil in Hin. }
  rewrite fmap_cons in Hnd. apply NoDup_cons in Hnd as [Hj Hnd].
  apply elem_of_cons in Hin as [[= <- <-]|Hin].
  - change (fill values ((k, c) :: order))
      with (fill (<[k := valueOf c]> values) order).
    rewrite fill_lookup_other by exact Hj. now apply list_lookup_insert_eq.
  - change (fill values ((j, c') :: order))
      with (fill (<[j := valueOf c']> values) order).
    apply IH; [exact Hnd | exact Hin | now rewrite length_insert].
Qed.

(** The slots end up in the order of the calls, whatever the order in
    which the promises settle. *)
Lemma fill_settleOrder calls :
  fill (replicate (length calls) None) (settleOrder calls) = valueOf <$> calls.
Proof.
  apply list_eq. intros k. rewrite list_lookup_fmap.
  destruct (calls !! k) as [c|] eqn:Ek; simpl.
  - apply fill_lookup.
    + apply settleOrder_NoDup.
    + rewrite settleOrder_perm. apply list_elem_of_lookup. exists k.
      rewrite list_lookup_imap, Ek. reflexivity.
    + rewrite length_replicate. now apply lookup_lt_Some in Ek.
  - apply lookup_ge_None. rewrite fill_length, length_replicate.
    now apply lookup_ge_None in Ek.
Qed.

Lemma settleAll_fulfilled order values s :
  Forall (fun jc => is_Some (valueOf (snd jc))) order →
  settleAll order values s =
    (runEffects s (snd <$> order), Fulfilled (fill values order)).
Proof.
  revert values s. induction order as [|[j c] order IH]; intros values s H; simpl;
    [reflexivity|].
  apply Forall_cons in H as [[v Hv] H]. unfold valueOf in Hv. simpl in Hv.
  destruct (outcome c) as [v'|e] eqn:Ec; [|discriminate]. injection Hv as ->.
  rewrite IH by exact H. unfold fill, runEffects, valueOf. simpl. now rewrite Ec.
Qed.

Lemma omap_id_Some (vs : list B) : omap id (Some <$> vs) = vs.
Proof. induction vs as [|v vs IH]; [reflexivity | simpl; f_equal; exact IH]. Qed.

Lemma promiseAll_fulfilled calls (vs : list B) s :
  valueOf <$> calls = Some <$> vs →
  promiseAll calls s = (runEffects s (snd <$> settleOrder calls), Fulfilled vs).
Proof.
  intros Hvs. unfold promiseAll. rewrite settleAll_fulfilled.
  - now rewrite fill_settleOrder, Hvs, omap_id_Some.
  - apply Forall_forall. intros [j c] Hin. simpl.
    assert (c ∈ calls) as Hc.
    { rewrite <- settleOrder_calls. apply list_elem_of_fmap. now exists (j, c). }
    assert (valueOf c ∈ valueOf <$> calls) as Hv by now apply list_elem_of_fmap_2.
    rewrite Hvs in Hv. apply list_elem_of_fmap in Hv as (v & -> & _). eauto.
Qed.

End PromiseAll.

Section ProcessBatch.
Import Batch BatchSpec.
Context {A B St E : Type}.
Variable items : list A.
Variable batchSize : nat.
Variable processFn : A → nat → list A → Call St E B.
Hypothesis batchSize_pos : 1 ≤ batchSize.

Local Abbreviation allCalls := (allCalls items batchSize processFn).

Lemma window_index (q k : nat) :
  k < batchSize →
  (q * batchSize + k) mod batchSize = k ∧
  q * batchSize + k - (q * batchSize + k) mod batchSize = q * batchSize.
Proof.
  intros Hk.
  assert ((q * batchSize + k) mod batchSize = k) as ->.
  { rewrite Nat.add_comm, Nat.Div0.mod_add. now apply Nat.mod_small. }
  split; [reflexivity | lia].
Qed.

(** The calls of the window that starts at [i] are the part of
    [allCalls] from [i] on, [batchSize] long. *)
Lemma window_calls (q : nat) :
  let i := q * batchSize in
  let batch := take batchSize (drop i items) in
  imap (fun j x => processFn x j batch) batch = take batchSize (drop i allCalls).
Proof.
  intros i batch. apply list_eq. intros k.
  rewrite list_lookup_imap. unfold batch. rewrite !lookup_take.
  case_decide as Hk; [|reflexivity].
  rewrite !lookup_drop. unfold BatchSpec.allCalls. rewrite list_lookup_imap.
  destruct (items !! (i + k)) as [x|]; [|reflexivity]. simpl.
  unfold invocation, i.
  destruct (window_index q k Hk) as [-> ->]. reflexivity.
Qed.

Lemma all_Some (l : list (option B)) :
  Forall is_Some l → ∃ vs, l = Some <$> vs.
Proof.
  induction 1 as [|o l [v ->] _ [vs ->]]; [now exists [] | now exists (v :: vs)].
Qed.

Lemma runEffects_app (s : St) (ran ran' : list (Call St E B)) :
  runEffects s (ran ++ ran') = runEffects (runEffects s ran) ran'.
Proof. apply foldl_app. Qed.

Hypothesis all_fulfil : Forall (fun c => is_Some (valueOf c)) allCalls.

Lemma processBatchLoop_fulfilled (fuel q : nat) (results : list B) (s : St) :
  length items - q * batchSize < fuel →
  Some <$> results = take (q * batchSize) (valueOf <$> allCalls) →
  ∃ ran results',
    processBatchLoop items batchSize processFn fuel (q * batchSize) results s
      = Some (runEffects s ran, Fulfilled results') ∧
    ran ≡ₚ drop (q * batchSize) allCalls ∧
    Some <$> results' = valueOf <$> allCalls.
Proof.
  revert q results s. induction fuel as [|fuel IH]; intros q results s Hfuel Hres;
    [lia|].
  assert (length allCalls = length items) as Hlen by apply length_imap.
  cbn [processBatchLoop].
  destruct (Nat.ltb_spec (q * batchSize) (length items)) as [Hlt|Hge].
  - rewrite window_calls.
    set (win := take batchSize (drop (q * batchSize) allCalls)).
    destruct (all_Some (valueOf <$> win)) as [vs Hvs].
    { apply Forall_fmap. unfold win. now apply Forall_take, Forall_drop. }
    rewrite (promiseAll_fulfilled win vs s Hvs).
    replace (q * batchSize + batchSize) with (S q * batchSize) by lia.
    destruct (IH (S q) (results ++ vs)
                (runEffects s (snd <$> settleOrder win)))
      as (ran & results' & Hrun & Hperm & Hvals).
    + lia.
    + rewrite fmap_app, Hres, <- Hvs. unfold win.
      rewrite fmap_take, fmap_drop, take_take_drop. f_equal. lia.
    + exists ((snd <$> settleOrder win) ++ ran), results'.
      rewrite Hrun, runEffects_app. split; [reflexivity|]. split; [|exact Hvals].
      rewrite settleOrder_calls, Hperm. unfold win.
      replace (S q * batchSize) with (q * batchSize + batchSize) by lia.
      rewrite <- drop_drop. now rewrite take_drop.
  - exists [], results. split; [reflexivity|]. split.
    + rewrite drop_ge by lia. reflexivity.
    + rewrite Hres. apply take_ge. rewrite length_fmap. lia.
Qed.

Lemma processBatch_fulfilled (s : St) :
  ∃ ran results,
    processBatch items batchSize processFn s = Some (runEffects s ran, Fulfilled results) ∧
    ran ≡ₚ allCalls ∧
    Some <$> results = valueOf <$> allCalls.
Proof.
  destruct (processBatchLoop_fulfilled (S (length items)) 0 [] s)
    as (ran & results & H & Hp & Hv); [simpl; lia | reflexivity |].
  exists ran, results. auto.
Qed.

End ProcessBatch.

Section BatchClaims.
Import Batch BatchSpec BatchExample.


Example processBatch_tenfold :
  processBatch [1; 2; 3; 4; 5] 2 tenfold [] =
    Some ([2; 1; 4; 3; 5], Fulfilled [10; 20; 30; 40; 50]).
Proof. vm_compute. reflexivity. Qed.

(** A rejected promise rejects [processBatch] at the [await] of its window:
    the later windows are never started. *)
Example processBatch_rejects3 :
  processBatch [1; 2; 3; 4; 5] 2 rejects3 [] = Some ([1; 2; 3], Rejected ()).
Proof. vm_compute. reflexivity. Qed.

(** With a batch size of 0 the loop never advances. *)
Example processBatch_batch_size_0 :
  processBatch [1; 2; 3] 0 tenfold [] = None.
Proof. vm_compute. reflexivity. Qed.


End BatchClaims.

(** ** Detail pages and enrichment *)

Section Enrichment.
Import Batch BatchSpec AllEquipment DetailSpec.
Variable w : World.

Lemma fetch_failure_gives_defaults (url : string) :
  snd (detail w (fullUrl url)) = DetailError →
  scrapeProductDetails w url = mkDetails "" "".
Proof. intros H. unfold scrapeProductDetails, fetchDetails. now rewrite H. Qed.

Lemma rows_without_fields (rows : list (string * string)) (d : Details) :
  Forall (fun row => mentions row = false) rows →
  foldl infoRowStep d rows = d.
Proof.
  induction 1 as [|row rows Hrow _ IH]; [reflexivity|]. simpl.
  unfold mentions in Hrow. apply orb_false_iff in Hrow as [Hrow Hhrs].
  apply orb_false_iff in Hrow as [Hloc Hhour].
  unfold infoRowStep at 2. rewrite Hloc, Hhour, Hhrs. exact IH.
Qed.

Lemma parse_miss_gives_defaults (url : string) (rows : list (string * string)) :
  snd (detail w (fullUrl url)) = DetailPage rows →
  Forall (fun row => mentions row = false) rows →
  scrapeProductDetails w url = mkDetails "" "".
Proof.
  intros H Hrows. unfold scrapeProductDetails, fetchDetails. rewrite H.
  now apply rows_without_fields.
Qed.

Lemma enrich_calls (items : list Product) (batchSize : nat) :
  allCalls items batchSize (enrichCall w) = (fun p => enrichCall w p 0 []) <$> items.
Proof.
  unfold allCalls. apply list_eq. intros i.
  rewrite list_lookup_imap, list_lookup_fmap. now destruct (items !! i).
Qed.

Lemma runEffects_push (products : list Product) (ran : list (Call (list Product) unit Product)) :
  Forall (fun c => ∃ p, c = enrichCall w p 0 []) ran →
  runEffects products ran = products ++ omap valueOf ran.
Proof.
  intros H. revert products.
  induction H as [|c ran [p ->] _ IH]; intros products; simpl.
  - now rewrite app_nil_r.
  - unfold runEffects in *. simpl. rewrite IH.
    change (valueOf (enrichCall w p 0 [])) with (Some (enrich w p)). simpl.
    now rewrite <- app_assoc.
Qed.

(** [processBatch] over the detail pages never fails: it leaves the
    enriched products in input order as its result, and has pushed each of
    them once on [products]. *)
Lemma processBatch_enrich (items : list Product) (batchSize : nat) (products : list Product) :
  1 ≤ batchSize →
  ∃ pushed,
    processBatch items batchSize (enrichCall w) products
      = Some (products ++ pushed, Fulfilled (enrich w <$> items)) ∧
    pushed ≡ₚ enrich w <$> items.
Proof.
  intros Hbs.
  assert (valueOf <$> allCalls items batchSize (enrichCall w)
          = Some <$> (enrich w <$> items)) as Hvals.
  { rewrite enrich_calls, <- !list_fmap_compose. reflexivity. }
  destruct (processBatch_fulfilled items batchSize (enrichCall w) Hbs)
    with (s := products) as (ran & results & Hrun & Hperm & Hres).
  { rewrite enrich_calls. apply Forall_fmap, Forall_true. intros p.
    exists (enrich w p). reflexivity. }
  rewrite Hvals in Hres. apply (inj (fmap Some)) in Hres. subst results.
  exists (omap valueOf ran). split.
  - rewrite Hrun. f_equal. f_equal. apply runEffects_push.
    rewrite Hperm, enrich_calls. apply Forall_fmap, Forall_true. intros p. now exists p.
  - rewrite Hperm, enrich_calls. clear. induction items as [|p items IH]; [reflexivity|].
    rewrite !fmap_cons. simpl. now rewrite IH.
Qed.

End Enrichment.

(** ** The pagination loops *)

Section EquipmentCrawl.
Import Batch AllEquipment CrawlSpec.
Variable w : World.

Lemma parsed_error (pageNum : nat) :
  listing w pageNum = ListingError → parsed w pageNum = None.
Proof. intros H. unfold parsed. now rewrite H. Qed.

Lemma pageRecords_unparsed (pageNum : nat) :
  parsed w pageNum = None → pageRecords w pageNum = [].
Proof. intros H. unfold pageRecords. now rewrite H. Qed.

(** What one run of the loop does: it requests [n] consecutive pages,
    all of them full but possibly the last, and adds their records. *)
Lemma crawlLoop_spec (remaining pageNum : nat) (st : CrawlState) :
  ∃ st' n added,
    crawlLoop w remaining pageNum st = Some (st', completionOf w pageNum n) ∧
    n ≤ remaining ∧
    requested st' = requested st ++ seq pageNum n ∧
    products st' = products st ++ added ∧
    added ≡ₚ concat (pageRecords w <$> seq pageNum n) ∧
    (∀ j, pageNum ≤ j → S j < pageNum + n → fullPage w j).
Proof.
  revert pageNum st. induction remaining as [|remaining IH]; intros pageNum st.
  { exists st, 0, []. simpl. rewrite !app_nil_r. repeat split; try done. lia. }
  assert (parsed w pageNum = None →
          ∃ st' n added,
            Some (mkCrawlState (products st) (requested st ++ [pageNum]), Thrown)
              = Some (st', completionOf w pageNum n) ∧
            n ≤ S remaining ∧
            requested st' = requested st ++ seq pageNum n ∧
            products st' = products st ++ added ∧
            added ≡ₚ concat (pageRecords w <$> seq pageNum n) ∧
            (∀ j, pageNum ≤ j → S j < pageNum + n → fullPage w j)) as Throws.
  { intros Hp. eexists _, 1, []. simpl. rewrite Nat.add_0_r, Hp.
    split; [reflexivity|]. rewrite pageRecords_unparsed by exact Hp. simpl.
    rewrite app_nil_r. repeat split; try done; lia. }
  cbn [crawlLoop]. cbn [products requested].
  destruct (listing w pageNum) as [|productTiles] eqn:El.
  { apply Throws. now apply parsed_error. }
  destruct ((pageNum =? 0) && negb (debugWriteOk w)) eqn:Ed.
  { apply Throws. unfold parsed. now rewrite El, Ed. }
  assert (parsed w pageNum = Some productTiles) as Hp.
  { unfold parsed. now rewrite El, Ed. }
  destruct (Nat.eqb_spec (length productTiles) 0) as [H0|H0].
  { eexists _, 1, []. simpl. rewrite Nat.add_0_r, Hp.
    split; [reflexivity|]. unfold pageRecords. rewrite Hp.
    destruct productTiles; [|discriminate]. simpl. rewrite app_nil_r.
    repeat split; try done; lia. }
  destruct (processBatch_enrich w (tileProduct <$> productTiles) BATCH_SIZE (products st))
    as (pushed & -> & Hpushed); [unfold BATCH_SIZE; lia|].
  assert (pushed ≡ₚ pageRecords w pageNum) as Hrec.
  { unfold pageRecords. now rewrite Hp. }
  destruct (Nat.leb_spec productsPerPage (length productTiles)) as [Hfull|Hshort].
  - destruct (IH (S pageNum)
                (mkCrawlState (products st ++ pushed) (requested st ++ [pageNum])))
      as (st' & n & added & Hrun & Hn & Hreq & Hprod & Hadded & Hfulls).
    cbn [products requested] in *.
    exists st', (S n), (pushed ++ added).
    split; [|split; [lia|split; [|split; [|split]]]].
    + rewrite Hrun. f_equal. f_equal. destruct n as [|n]; simpl.
      * rewrite Nat.add_0_r, Hp. reflexivity.
      * now replace (pageNum + S n) with (S (pageNum + n)) by lia.
    + rewrite Hreq, <- app_assoc. reflexivity.
    + rewrite Hprod, <- app_assoc. reflexivity.
    + cbn [seq fmap list_fmap concat]. now rewrite Hrec, Hadded.
    + intros j Hj1 Hj2. destruct (decide (j = pageNum)) as [->|Hne].
      * exists productTiles. auto.
      * apply Hfulls; lia.
  - eexists _, 1, pushed. simpl. rewrite Nat.add_0_r, Hp.
    split; [reflexivity|]. rewrite app_nil_r.
    repeat split; try done; lia.
Qed.

(** The crawl as a whole. *)
Lemma crawl_spec (maxPages : nat) :
  ∃ st n,
    crawl w maxPages = Some (st, completionOf w 0 n) ∧
    n ≤ maxPages ∧
    requested st = seq 0 n ∧
    products st ≡ₚ concat (pageRecords w <$> seq 0 n) ∧
    (∀ j, S j < n → fullPage w j).
Proof.
  destruct (crawlLoop_spec maxPages 0 (mkCrawlState [] []))
    as (st & n & added & Hrun & Hn & Hreq & Hprod & Hadded & Hfull).
  exists st, n. simpl in *. rewrite Hprod. repeat split; try done.
  intros j Hj. apply Hfull; lia.
Qed.

(** A requested page that is not full is the last one requested. *)
Lemma requested_not_full (n k : nat) :
  (∀ j, S j < n → fullPage w j) →
  k ∈ seq 0 n → ¬ fullPage w k →
  n = S k ∧ last (seq 0 n) = Some k.
Proof.
  intros Hfull Hk Hnot. apply elem_of_seq in Hk.
  assert (n = S k) as ->.
  { destruct (decide (S k < n)) as [Hlt|]; [|lia].
    destruct Hnot. now apply Hfull. }
  split; [reflexivity|]. rewrite seq_S, last_snoc. reflexivity.
Qed.

End EquipmentCrawl.

Section TractorHouseCrawl.
Import TractorHouse TractorHouseCrawlSpec.
Variable w : World.

Lemma th_crawlLoop_spec (remaining pageNum : nat) (st : CrawlState) :
  ∃ n,
    n ≤ remaining ∧
    requested (crawlLoop w remaining pageNum st) = requested st ++ seq pageNum n ∧
    listings (crawlLoop w remaining pageNum st)
      = listings st ++ concat (pageRecords w <$> seq pageNum n) ∧
    (∀ j, pageNum ≤ j → S j < pageNum + n → continues w j).
Proof.
  revert pageNum st. induction remaining as [|remaining IH]; intros pageNum st.
  { exists 0. simpl. rewrite !app_nil_r. repeat split; try done. lia. }
  pose (Q := fun st' : CrawlState =>
               ∃ n, n ≤ S remaining ∧
                    requested st' = requested st ++ seq pageNum n ∧
                    listings st' = listings st ++ concat (pageRecords w <$> seq pageNum n) ∧
                    (∀ j, pageNum ≤ j → S j < pageNum + n → continues w j)).
  assert (pageRecords w pageNum = [] →
          Q (mkCrawlState (listings st) (requested st ++ [pageNum]))) as StopNil.
  { intros Hr. exists 1. simpl. rewrite Hr. simpl. rewrite app_nil_r.
    repeat split; try done; lia. }
  assert (∀ d, pageRecords w pageNum = pageListings d →
               Q (mkCrawlState (listings st ++ pageListings d)
                               (requested st ++ [pageNum]))) as Stop.
  { intros d Hr. exists 1. simpl. rewrite Hr, app_nil_r.
    repeat split; try done; lia. }
  change (Q (crawlLoop w (S remaining) pageNum st)).
  cbn [crawlLoop]. cbn [listings requested].
  destruct (page w pageNum) as [|scrapedData hasNextPage] eqn:Ep.
  { apply StopNil. unfold pageRecords. now rewrite Ep. }
  assert (pageRecords w pageNum = pageListings scrapedData) as Hrec.
  { unfold pageRecords. now rewrite Ep. }
  destruct (Nat.eqb_spec (length scrapedData) 0) as [H0|H0].
  { apply StopNil. rewrite Hrec. now destruct scrapedData. }
  destruct hasNextPage as [[|]|]; cbn [negb orb]; try (apply Stop; exact Hrec).
  destruct (Nat.ltb_spec (length scrapedData) shortPage) as [Hshort|Hlong];
    [apply Stop; exact Hrec|].
  destruct (IH (S pageNum)
              (mkCrawlState (listings st ++ pageListings scrapedData)
                            (requested st ++ [pageNum])))
    as (n & Hn & Hreq & Hlist & Hcont).
  cbn [listings requested] in Hreq, Hlist.
  exists (S n). split; [lia|]. split; [|split].
  - rewrite Hreq, <- app_assoc. reflexivity.
  - rewrite Hlist, <- app_assoc. cbn [seq fmap list_fmap concat]. now rewrite Hrec.
  - intros j Hj1 Hj2. destruct (decide (j = pageNum)) as [->|Hne].
    + exists scrapedData. auto.
    + apply Hcont; lia.
Qed.


End TractorHouseCrawl.

Section CrawlClaims.
Import Batch AllEquipment CrawlSpec DetailSpec.




(** C5: when the request of a listing page fails, [scrapeEquipment]
    still returns: the [try] block ends by the exception, the failed page
    is the last one requested, and the result holds the records of the
    pages before it, all of them full pages, and nothing else. *)
Theorem listing_failure_returns_collected (w : World) (maxPages : nat) :
  ∃ st c,
    crawl w maxPages = Some (st, c) ∧
    scrapeEquipment w maxPages = Some (products st) ∧
    ∀ k,
      k ∈ requested st → listing w k = ListingError →
      c = Thrown ∧
      requested st = seq 0 (S k) ∧
      products st ≡ₚ concat (pageRecords w <$> seq 0 k) ∧
      (∀ j, j < k → fullPage w j).
Proof.
  destruct (crawl_spec w maxPages) as (st & n & Hrun & _ & Hreq & Hprod & Hfull).
  exists st, (completionOf w 0 n). split; [exact Hrun|]. split.
  { unfold scrapeEquipment. now rewrite Hrun. }
  intros k Hk Herr. rewrite Hreq in Hk.
  pose proof (parsed_error w k Herr) as Hp.
  destruct (requested_not_full w n k Hfull Hk) as [-> _].
  { intros (tiles & Hp' & _). congruence. }
  split; [|split; [exact Hreq|split]].
  - simpl. now rewrite Hp.
  - rewrite Hprod, seq_S, fmap_app, concat_app. simpl.
    rewrite pageRecords_unparsed by exact Hp. now rewrite !app_nil_r.
  - intros j Hj. apply Hfull. lia.
Qed.

Lemma listing_failure_returns_collected_witness :
  ∃ st c,
    crawl flaky 50 = Some (st, c) ∧
    scrapeEquipment flaky 50 = Some (products st) ∧
    c = Thrown ∧
    requested st = seq 0 2 ∧
    products st ≡ₚ concat (pageRecords flaky <$> seq 0 1) ∧
    (∀ j, j < 1 → fullPage flaky j).
Proof.
  destruct (listing_failure_returns_collected flaky 50) as (st & c & Hrun & Hret & H).
  exists st, c. split; [exact Hrun|]. split; [exact Hret|].
  apply (H 1).
  - assert (Some (requested st) = Some [0; 1]) as Hreq.
    { change (Some (requested st))
        with ((fun r : CrawlState * Completion => requested (fst r)) <$> Some (st, c)).
      rewrite <- Hrun. vm_compute. reflexivity. }
    injection Hreq as ->. apply list_elem_of_In. simpl. auto.
  - reflexivity.
Defined.

(** C6: [processBatch] over the detail pages always returns, with one
    result for every item and in input order; each item was pushed once on
    [products]; an item whose detail request fails, or whose detail page
    names neither a location nor hours, gets the empty location and hours,
    and the results of the other items are their own. *)
Theorem detail_failure_fails_soft
    (w : World) (items : list Product) (batchSize : nat) (products : list Product) :
  1 ≤ batchSize →
  ∃ pushed,
    processBatch items batchSize (enrichCall w) products
      = Some (products ++ pushed, Fulfilled (enrich w <$> items)) ∧
    length (enrich w <$> items) = length items ∧
    pushed ≡ₚ enrich w <$> items ∧
    (∀ p, detailFails w p →
          scrapeProductDetails w (productUrl p) = mkDetails "" "" ∧
          location (enrich w p) = "" ∧ hours (enrich w p) = "") ∧
    (∀ p rows, snd (detail w (fullUrl (productUrl p))) = DetailPage rows →
               Forall (fun row => mentions row = false) rows →
               scrapeProductDetails w (productUrl p) = mkDetails "" "").
Proof.
  intros Hbs.
  destruct (processBatch_enrich w items batchSize products Hbs) as (pushed & Hrun & Hperm).
  exists pushed. split; [exact Hrun|]. split; [apply length_fmap|].
  split; [exact Hperm|]. split.
  - intros p Hp. pose proof (fetch_failure_gives_defaults w _ Hp) as Hd.
    split; [exact Hd|]. unfold enrich. cbn [location hours]. now rewrite Hd.
  - intros p rows Hp Hrows. now apply (parse_miss_gives_defaults w _ rows).
Qed.

Lemma detail_failure_fails_soft_witness :
  ∃ pushed,
    processBatch (tileProduct <$> (tile <$> ["1"; "2"; "3"])) 10 (enrichCall flaky) []
      = Some ([] ++ pushed,
              Fulfilled (enrich flaky <$> (tileProduct <$> (tile <$> ["1"; "2"; "3"])))) ∧
    length (enrich flaky <$> (tileProduct <$> (tile <$> ["1"; "2"; "3"])))
      = length (tileProduct <$> (tile <$> ["1"; "2"; "3"])) ∧
    pushed ≡ₚ enrich flaky <$> (tileProduct <$> (tile <$> ["1"; "2"; "3"])) ∧
    (∀ p, detailFails flaky p →
          scrapeProductDetails flaky (productUrl p) = mkDetails "" "" ∧
          location (enrich flaky p) = "" ∧ hours (enrich flaky p) = "") ∧
    (∀ p rows, snd (detail flaky (fullUrl (productUrl p))) = DetailPage rows →
               Forall (fun row => mentions row = false) rows →
               scrapeProductDetails flaky (productUrl p) = mkDetails "" "").
Proof.
  apply (detail_failure_fails_soft flaky (tileProduct <$> (tile <$> ["1"; "2"; "3"])) 10 []).
  lia.
Defined.

(** The second tile's request times out: its record has the empty
    defaults, the records of its siblings have their own details, and the
    records are pushed as the requests settle. *)
Example detail_failure_example :
  (fun p => (location p, hours p))
    <$> (enrich flaky <$> (tileProduct <$> (tile <$> ["1"; "2"; "3"])))
    = [("Gretna", "120"); ("", ""); ("", "")] ∧
  match processBatch (tileProduct <$> (tile <$> ["1"; "2"; "3"])) 10 (enrichCall flaky) [] with
  | Some (pushed, _) => productId <$> pushed
  | None => []
  end = ["431533"; "431532"; "431531"].
Proof. vm_compute. split; reflexivity. Qed.

End CrawlClaims.

(** * Further properties *)

(** ** URLs *)

Section Urls.
Import JsString AllEquipment SheetUrl.

Lemma base_url_absolute (url : string) : startsWith (BASE_URL +:+ url) "http" = true.
Proof. reflexivity. Qed.

(** X1: the URL that [scrapeProductDetails] requests is always absolute: a
    product URL that does not start with [http] is put behind the base URL,
    one that does is requested as it is, and making a URL absolute twice
    changes nothing.  The URL cells of the sheets are the same absolute URL,
    except that an empty URL stays empty. *)
Theorem detail_url_is_absolute (productUrl : string) :
  startsWith (fullUrl productUrl) "http" = true ∧
  fullUrl (fullUrl productUrl) = fullUrl productUrl ∧
  sheetUrl productUrl = (if truthy productUrl then fullUrl productUrl else "") ∧
  sheetUrl (sheetUrl productUrl) = sheetUrl productUrl.
Proof.
  assert (fullUrl (fullUrl productUrl) = fullUrl productUrl) as Hidem.
  { unfold fullUrl at 1. destruct (startsWith (fullUrl productUrl) "http") eqn:E;
      [reflexivity|].
    unfold fullUrl in E. destruct (startsWith productUrl "http") eqn:E'; [congruence|].
    rewrite base_url_absolute in E. discriminate. }
  split; [|split; [exact Hidem|split]].
  - unfold fullUrl. destruct (startsWith productUrl "http") eqn:E; [exact E | reflexivity].
  - reflexivity.
  - unfold sheetUrl at 1. destruct (truthy (sheetUrl productUrl)) eqn:E; [|
      unfold sheetUrl in *; destruct (truthy productUrl); [|reflexivity];
      apply truthy_false in E; exact (eq_sym E)].
    unfold sheetUrl in *. destruct (truthy productUrl); [|discriminate].
    exact Hidem.
Qed.

End Urls.

Section TractorHouseUrls.
Import JsString TractorHouse SheetUrl.

Lemma th_base_url_absolute (url : string) : startsWith (BASE_URL +:+ url) "http" = true.
Proof. reflexivity. Qed.

Lemma fixDetailUrl_absolute (u : option string) : absoluteOrEmpty (fixDetailUrl u).
Proof.
  destruct u as [url|]; [|exact I]. simpl.
  destruct (truthy url) eqn:Et; simpl.
  - destruct (startsWith url "http") eqn:Eh; simpl; [now right|].
    right. destruct (startsWith url "/"); reflexivity.
  - left. now apply truthy_false.
Qed.

Lemma fixImageUrl_absolute (u : option string) : absoluteOrEmpty (fixImageUrl u).
Proof.
  destruct u as [url|]; [|exact I]. simpl.
  destruct (truthy url) eqn:Et; simpl.
  - destruct (startsWith url "http") eqn:Eh; simpl; [now right|].
    destruct (startsWith url "//"); simpl; [now right|].
    right. destruct (startsWith url "/"); reflexivity.
  - left. now apply truthy_false.
Qed.

Lemma fix_absolute_id (fix_ : option string → option string) (u : option string) :
  (∀ url, (truthy url && negb (startsWith url "http")) = false → fix_ (Some url) = Some url) →
  fix_ None = None →
  absoluteOrEmpty (fix_ u) → fix_ (fix_ u) = fix_ u.
Proof.
  intros Hkeep Hnone Habs. destruct (fix_ u) as [url|]; [|exact Hnone].
  apply Hkeep. destruct Habs as [-> | ->]; [reflexivity|].
  now rewrite andb_false_r.
Qed.

(** X2: after [scrapeInventoryListings] has fixed them, the detail URL and
    the image URL of a listing are absent, empty, or absolute (they start
    with [http]); a protocol-relative image URL gets [https:] in front and
    not the site's base URL; fixing a second time changes nothing. *)
Theorem listing_urls_are_absolute (item : Listing) (path : string) :
  absoluteOrEmpty (detailUrl (cleanItem item)) ∧
  absoluteOrEmpty (imageUrl (cleanItem item)) ∧
  fixImageUrl (Some ("//" +:+ path)) = Some ("https://" +:+ path) ∧
  fixDetailUrl (fixDetailUrl (detailUrl item)) = fixDetailUrl (detailUrl item) ∧
  fixImageUrl (fixImageUrl (imageUrl item)) = fixImageUrl (imageUrl item).
Proof.
  split; [apply fixDetailUrl_absolute|]. split; [apply fixImageUrl_absolute|].
  split; [destruct path; reflexivity|]. split.
  - apply fix_absolute_id; [|reflexivity|apply fixDetailUrl_absolute].
    intros url H. simpl. now rewrite H.
  - apply fix_absolute_id; [|reflexivity|apply fixImageUrl_absolute].
    intros url H. simpl. now rewrite H.
Qed.

End TractorHouseUrls.

(** ** More on the batch scheduler *)

Section ProcessBatchEnds.
Import Batch BatchSpec.
Context {A B St E : Type}.
Variable items : list A.
Variable batchSize : nat.
Variable processFn : A → nat → list A → Call St E B.

Lemma processBatchLoop_returns (fuel i : nat) (results : list B) (s : St) :
  1 ≤ batchSize → length items - i < fuel →
  is_Some (processBatchLoop items batchSize processFn fuel i results s).
Proof.
  intros Hbs. revert i results s.
  induction fuel as [|fuel IH]; intros i results s Hfuel; [lia|].
  cbn [processBatchLoop].
  destruct (Nat.ltb_spec i (length items)) as [Hlt|Hge]; [|eauto].
  destruct (promiseAll _ s) as [s' [batchResults|e]]; [|eauto].
  apply IH. lia.
Qed.



End ProcessBatchEnds.

Section ProcessBatchRejects.
Import Batch BatchSpec.
Context {A B St E : Type}.
Variable items : list A.
Variable batchSize : nat.
Variable processFn : A → nat → list A → Call St E B.
Hypothesis batchSize_pos : 1 ≤ batchSize.

Local Abbreviation allCalls := (allCalls items batchSize processFn).

Lemma settleAll_Fulfilled_inv (order : list (nat * Call St E B))
    (values values' : list (option B)) (s s' : St) :
  settleAll order values s = (s', Fulfilled values') →
  Forall (fun jc => is_Some (valueOf (snd jc))) order.
Proof.
  revert values s. induction order as [|[j c] order IH]; intros values s H; [constructor|].
  simpl in H. destruct (outcome c) as [v|e] eqn:Ec; [|discriminate].
  constructor; [|eapply IH; exact H].
  unfold valueOf. simpl. rewrite Ec. eauto.
Qed.

Lemma promiseAll_Fulfilled_inv (calls : list (Call St E B)) (vs : list B) (s s' : St) :
  promiseAll calls s = (s', Fulfilled vs) →
  Forall (fun c => is_Some (valueOf c)) calls.
Proof.
  unfold promiseAll. intros H.
  destruct (settleAll (settleOrder calls) (replicate (length calls) None) s)
    as [s'' [values|e]] eqn:Es; [|discriminate].
  apply settleAll_Fulfilled_inv in Es.
  rewrite <- settleOrder_calls. now apply Forall_fmap.
Qed.

Lemma processBatchLoop_Fulfilled_inv (fuel q : nat) (results results' : list B) (s s' : St) :
  processBatchLoop items batchSize processFn fuel (q * batchSize) results s
    = Some (s', Fulfilled results') →
  Forall (fun c => is_Some (valueOf c)) (drop (q * batchSize) allCalls).
Proof.
  revert q results s. induction fuel as [|fuel IH]; intros q results s H; [discriminate|].
  cbn [processBatchLoop] in H.
  assert (length allCalls = length items) as Hlen by apply length_imap.
  destruct (Nat.ltb_spec (q * batchSize) (length items)) as [Hlt|Hge].
  - rewrite (window_calls items batchSize processFn batchSize_pos) in H.
    destruct (promiseAll _ s) as [s1 [vs|e]] eqn:Ep; [|discriminate].
    apply promiseAll_Fulfilled_inv in Ep.
    replace (q * batchSize + batchSize) with (S q * batchSize) in H by lia.
    apply IH in H.
    rewrite <- (take_drop batchSize (drop (q * batchSize) allCalls)).
    apply Forall_app. split; [exact Ep|].
    rewrite drop_drop. now replace (q * batchSize + batchSize) with (S q * batchSize) by lia.
  - rewrite drop_ge by lia. constructor.
Qed.

(** X4: with a batch size of at least 1, [processBatch] gives a list of
    results, one for each item, when the promise of every call is
    fulfilled; when one is rejected the whole call is rejected, and the
    results of the windows already done are not returned. *)
Theorem processBatch_all_or_nothing (s : St) :
  (Forall (fun c => is_Some (valueOf c)) allCalls →
   ∃ s' results,
     processBatch items batchSize processFn s = Some (s', Fulfilled results) ∧
     length results = length items) ∧
  (¬ Forall (fun c => is_Some (valueOf c)) allCalls →
   ∃ s' e, processBatch items batchSize processFn s = Some (s', Rejected e)).
Proof.
  split.
  - intros Hall.
    destruct (processBatch_fulfilled items batchSize processFn batchSize_pos Hall s)
      as (ran & results & H & _ & Hvals).
    exists (runEffects s ran), results. split; [exact H|].
    apply (f_equal length) in Hvals. rewrite !length_fmap in Hvals.
    rewrite Hvals. apply length_imap.
  - intros Hnot.
    destruct (processBatchLoop_returns items batchSize processFn
                (S (length items)) 0 [] s batchSize_pos) as [[s' [results|e]] H]; [lia| |].
    + destruct Hnot. now apply (processBatchLoop_Fulfilled_inv _ 0) in H.
    + exists s', e. exact H.
Qed.

End ProcessBatchRejects.

Section ProcessBatchRejectsWitness.
Import Batch BatchSpec BatchExample.

Lemma processBatch_all_or_nothing_witness :
  (∃ s' results,
     processBatch [1; 2; 3; 4; 5] 2 tenfold [] = Some (s', Fulfilled results) ∧
     length results = 5) ∧
  (∃ s' e, processBatch [1; 2; 3; 4; 5] 2 rejects3 [] = Some (s', Rejected e)).
Proof.
  split.
  - apply (processBatch_all_or_nothing [1; 2; 3; 4; 5] 2 tenfold); [lia|].
    repeat constructor; eexists; reflexivity.
  - apply (processBatch_all_or_nothing [1; 2; 3; 4; 5] 2 rejects3); [lia|].
    intros H. apply Forall_cons in H as [_ H]. apply Forall_cons in H as [_ H].
    apply Forall_cons in H as [[v Hv] _]. discriminate Hv.
Defined.

End ProcessBatchRejectsWitness.

(** ** More on the cross-source matcher *)

Section DuplicateCount.
Import Reconcile MatcherSpec DuplicateSpec.

Lemma buildUsedKeys_is_Some (usedItems : list Item) (key : string) :
  is_Some (buildUsedKeys usedItems !! key) ↔
  usableKey key = true ∧ ∃ u, u ∈ usedItems ∧ createMatchKey u = key.
Proof.
  induction usedItems as [|item l IH] using rev_ind.
  - unfold buildUsedKeys. simpl. rewrite lookup_empty. split.
    + intros [x Hx]. discriminate.
    + intros (_ & u & Hu & _). now apply elem_of_nil in Hu.
  - rewrite buildUsedKeys_app. simpl.
    destruct (usableKey (createMatchKey item)) eqn:Eu.
    + destruct (decide (createMatchKey item = key)) as [<-|Hne].
      * rewrite lookup_insert_eq. split; [|eauto].
        intros _. split; [exact Eu|]. exists item. split; [|reflexivity].
        apply elem_of_app. right. now apply list_elem_of_singleton.
      * rewrite lookup_insert_ne by exact Hne. rewrite IH. split.
        -- intros (Hk & u & Hu & Hkey). split; [exact Hk|]. exists u. split; [|exact Hkey].
           apply elem_of_app. now left.
        -- intros (Hk & u & Hu & Hkey). split; [exact Hk|].
           apply elem_of_app in Hu as [Hu|Hu]; [now exists u|].
           apply list_elem_of_singleton in Hu. congruence.
    + rewrite IH. split.
      * intros (Hk & u & Hu & Hkey). split; [exact Hk|]. exists u. split; [|exact Hkey].
           apply elem_of_app. now left.
      * intros (Hk & u & Hu & Hkey). split; [exact Hk|].
        apply elem_of_app in Hu as [Hu|Hu]; [now exists u|].
        apply list_elem_of_singleton in Hu. congruence.
Qed.

Lemma hasCounterpart_lookup (usedItems : list Item) (item : Item) :
  hasCounterpart usedItems item =
    usableKey (createMatchKey item)
    && bool_decide (is_Some (buildUsedKeys usedItems !! createMatchKey item)).
Proof.
  unfold hasCounterpart. destruct (usableKey (createMatchKey item)) eqn:Eu; [|reflexivity].
  simpl. apply eq_true_iff_eq. rewrite bool_decide_eq_true, buildUsedKeys_is_Some.
  rewrite existsb_exists. split.
  - intros (u & Hu & Hkey). split; [exact Eu|]. exists u.
    split; [now apply list_elem_of_In | now apply String.eqb_eq].
  - intros (_ & u & Hu & Hkey). exists u.
    split; [now apply list_elem_of_In | now apply String.eqb_eq].
Qed.

Lemma foldl_count_filter {X} (hit : X → bool) (l : list X) (n : nat) :
  foldl (fun d x => if hit x then S d else d) n l
    = n + length (filter (fun x => hit x = true) l).
Proof.
  revert n. induction l as [|x l IH]; intros n; simpl; [lia|].
  rewrite IH, filter_cons. destruct (hit x); case_decide; simpl; try lia; congruence.
Qed.

(** The counter of [detectDuplicates] counts the Tractor House records that
    have a counterpart. *)
Lemma duplicates_are_counterparts (usedItems tractorHouseItems : list Item) :
  duplicates (detectDuplicates usedItems tractorHouseItems)
    = length (counterparts usedItems tractorHouseItems).
Proof.
  cbn [detectDuplicates duplicates]. unfold countDuplicates, counterparts.
  rewrite (foldl_count_filter
             (fun item => usableKey (createMatchKey item)
                          && bool_decide (is_Some (buildUsedKeys usedItems
                                                     !! createMatchKey item)))).
  simpl. f_equal. apply list_filter_iff. intros item.
  now rewrite hasCounterpart_lookup.
Qed.

(** X5: the number of duplicates is the number of Tractor House records
    whose key is not ['|||'] and is the key of some used record: each such
    record counts once, however many used records share its key, and a used
    record matched by several Tractor House records counts each time.  So
    the count is at most the number of Tractor House records, and
    [uniqueTractorHouse] is never negative. *)
Theorem duplicates_count_the_second_set (usedItems tractorHouseItems : list Item) :
  duplicates (detectDuplicates usedItems tractorHouseItems)
    = length (counterparts usedItems tractorHouseItems) ∧
  duplicates (detectDuplicates usedItems tractorHouseItems) ≤ length tractorHouseItems ∧
  (0 ≤ uniqueTractorHouse (detectDuplicates usedItems tractorHouseItems))%Z.
Proof.
  pose proof (duplicates_are_counterparts usedItems tractorHouseItems) as Hd.
  assert (duplicates (detectDuplicates usedItems tractorHouseItems)
          ≤ length tractorHouseItems) as Hle.
  { rewrite Hd. apply length_filter. }
  split; [exact Hd|]. split; [exact Hle|].
  cbn [detectDuplicates uniqueTractorHouse]. cbn [detectDuplicates duplicates] in Hle. lia.
Qed.

Lemma hasCounterpart_perm (used used' : list Item) (item : Item) :
  used ≡ₚ used' → hasCounterpart used item = hasCounterpart used' item.
Proof.
  intros Hp. unfold hasCounterpart. f_equal. apply eq_true_iff_eq.
  rewrite !existsb_exists. split; intros (u & Hu & Hk); exists u; split; try exact Hk.
  - apply list_elem_of_In. rewrite <- Hp. now apply list_elem_of_In.
  - apply list_elem_of_In. rewrite Hp. now apply list_elem_of_In.
Qed.

(** X6: the result of [detectDuplicates] does not depend on the order of the
    records in either list. *)
Theorem detectDuplicates_ignores_order (used used' th th' : list Item) :
  used ≡ₚ used' → th ≡ₚ th' →
  detectDuplicates used th = detectDuplicates used' th'.
Proof.
  intros Hu Ht.
  assert (countDuplicates (buildUsedKeys used) th
          = countDuplicates (buildUsedKeys used') th') as Hd.
  { pose proof (duplicates_are_counterparts used th) as H1.
    pose proof (duplicates_are_counterparts used' th') as H2.
    cbn [detectDuplicates duplicates] in H1, H2. rewrite H1, H2.
    unfold counterparts. rewrite <- Ht.
    f_equal. apply list_filter_iff. intros item.
    now rewrite (hasCounterpart_perm used used' item Hu). }
  unfold detectDuplicates. rewrite Hd.
  now rewrite (Permutation_length Hu), (Permutation_length Ht).
Qed.

Lemma detectDuplicates_ignores_order_witness :
  detectDuplicates [fullRecord; otherRecord; partlyEmpty] [partlyEmpty; fullRecord]
    = detectDuplicates [partlyEmpty; fullRecord; otherRecord] [fullRecord; partlyEmpty].
Proof.
  apply detectDuplicates_ignores_order.
  - apply (Permutation_app_comm [fullRecord; otherRecord] [partlyEmpty]).
  - apply perm_swap.
Defined.

Lemma counterparts_keys (usedItems tractorHouseItems : list Item) (key : string) :
  key ∈ createMatchKey <$> counterparts usedItems tractorHouseItems →
  key ∈ createMatchKey <$> usedItems.
Proof.
  intros H. apply list_elem_of_fmap in H as (item & -> & Hitem).
  apply list_elem_of_filter in Hitem as [Hc _].
  unfold hasCounterpart in Hc. apply andb_true_iff in Hc as [_ Hc].
  apply existsb_exists in Hc as (u & Hu & Hk).
  apply String.eqb_eq in Hk. rewrite <- Hk.
  apply list_elem_of_fmap_2. now apply list_elem_of_In.
Qed.

(** X7: when no two Tractor House records have the same key, the number of
    duplicates is at most the number of used records, so [uniqueUsed] and
    [totalUnique] are not negative.  Without that, one used record matched
    by two Tractor House records gives [uniqueUsed] = -1. *)
Theorem unique_used_not_negative (usedItems tractorHouseItems : list Item) :
  NoDup (createMatchKey <$> tractorHouseItems) →
  duplicates (detectDuplicates usedItems tractorHouseItems) ≤ length usedItems ∧
  (0 ≤ uniqueUsed (detectDuplicates usedItems tractorHouseItems))%Z ∧
  (0 ≤ totalUnique (detectDuplicates usedItems tractorHouseItems))%Z ∧
  uniqueUsed (detectDuplicates [fullRecord] [fullRecord; fullRecord]) = (-1)%Z.
Proof.
  intros Hnd.
  assert (duplicates (detectDuplicates usedItems tractorHouseItems) ≤ length usedItems)
    as Hle.
  { rewrite duplicates_are_counterparts.
    rewrite <- (length_fmap createMatchKey (counterparts _ _)).
    rewrite <- (length_fmap createMatchKey usedItems).
    apply submseteq_length, NoDup_submseteq.
    - apply (sublist_NoDup _ _ Hnd).
      apply fmap_sublist. unfold counterparts. apply sublist_filter.
    - intros key. apply counterparts_keys. }
  assert (duplicates (detectDuplicates usedItems tractorHouseItems)
          ≤ length tractorHouseItems) as Hle'.
  { rewrite duplicates_are_counterparts. apply length_filter. }
  split; [exact Hle|].
  cbn [detectDuplicates duplicates] in Hle, Hle'.
  cbn [detectDuplicates uniqueUsed totalUnique].
  split; [lia|]. split; [lia|]. vm_compute. reflexivity.
Qed.

Lemma unique_used_not_negative_witness :
  duplicates (detectDuplicates [fullRecord; partlyEmpty] [partlyEmpty; otherRecord]) ≤ 2 ∧
  (0 ≤ uniqueUsed (detectDuplicates [fullRecord; partlyEmpty] [partlyEmpty; otherRecord]))%Z ∧
  (0 ≤ totalUnique (detectDuplicates [fullRecord; partlyEmpty] [partlyEmpty; otherRecord]))%Z ∧
  uniqueUsed (detectDuplicates [fullRecord] [fullRecord; fullRecord]) = (-1)%Z.
Proof.
  apply (unique_used_not_negative [fullRecord; partlyEmpty] [partlyEmpty; otherRecord]).
  apply (bool_decide_unpack _). vm_compute. exact I.
Defined.

End DuplicateCount.

(** ** More on strings *)

Section TrimFacts.
Import JsString CharSpec NameSpec.

Lemma isSpace_upperChar (c : ascii) : isSpace (upperChar c) = isSpace c.
Proof. destruct c as [[] [] [] [] [] [] [] []]; reflexivity. Qed.

Lemma isSpace_lowerChar (c : ascii) : isSpace (lowerChar c) = isSpace c.
Proof. destruct c as [[] [] [] [] [] [] [] []]; reflexivity. Qed.

Lemma upperChar_not_lower (c : ascii) : isLower (upperChar c) = false.
Proof. destruct c as [[] [] [] [] [] [] [] []]; reflexivity. Qed.



Lemma trimStart_head (s : string) :
  trimStart s = "" ∨ ∃ c t, trimStart s = String c t ∧ isSpace c = false.
Proof.
  induction s as [|c s IH]; simpl; [now left|].
  destruct (isSpace c) eqn:E; [exact IH|]. right. eauto.
Qed.

Lemma trimEnd_head (c : ascii) (t : string) :
  isSpace c = false → ∃ t', trimEnd (String c t) = String c t'.
Proof.
  intros E. simpl. destruct (trimEnd t); [rewrite E|]; eauto.
Qed.

(** A trimmed string is empty or starts with a character that is no white
    space. *)
Lemma trim_head (s : string) :
  trim s = "" ∨ ∃ c t, trim s = String c t ∧ isSpace c = false.
Proof.
  unfold trim. destruct (trimStart_head s) as [->|(c & t & -> & E)]; [now left|].
  right. destruct (trimEnd_head c t E) as [t' ->]. eauto.
Qed.

Lemma trimStart_chars (p : ascii → bool) (s : string) :
  allChars p s → allChars p (trimStart s).
Proof.
  unfold allChars. induction s as [|c s IH]; simpl; [auto|].
  intros H. apply Forall_cons in H as [Hc H].
  destruct (isSpace c); [auto|]. simpl. now constructor.
Qed.

Lemma trimEnd_chars (p : ascii → bool) (s : string) :
  allChars p s → allChars p (trimEnd s).
Proof.
  unfold allChars. induction s as [|c s IH]; simpl; [auto|].
  intros H. apply Forall_cons in H as [Hc H]. specialize (IH H).
  destruct (trimEnd s) eqn:E.
  - destruct (isSpace c); simpl; [constructor | now repeat constructor].
  - simpl. now constructor.
Qed.

Lemma trim_chars (p : ascii → bool) (s : string) : allChars p s → allChars p (trim s).
Proof. intros H. now apply trimEnd_chars, trimStart_chars. Qed.

Lemma toUpperCase_no_lower (s : string) :
  allChars (fun c => negb (isLower c)) (toUpperCase s).
Proof.
  unfold allChars. induction s as [|c s IH]; simpl; constructor; [|exact IH].
  now rewrite upperChar_not_lower.
Qed.

(** An upper-cased and trimmed string has no lower-case letter. *)
Lemma upper_trim_no_lower (v : string) :
  allChars (fun c => negb (isLower c)) (trim (toUpperCase v)).
Proof. apply trim_chars, toUpperCase_no_lower. Qed.

Lemma collapse_head (c : ascii) (t : string) :
  isSpace c = false →
  ∃ t', Regex.replaceAll [Regex.plus isSpace] " " (String c t) = String c t'.
Proof.
  intros E. unfold Regex.replaceAll. simpl.
  unfold Regex.candidates. simpl. rewrite E. simpl. eauto.
Qed.

(** [normalize] keeps a trimmed string that is not empty from becoming
    empty. *)
Lemma normalize_nonempty (v : string) :
  trim (toUpperCase v) ≠ "" → Reconcile.normalize (trim (toUpperCase v)) ≠ "".
Proof.
  intros Hne. destruct (trim_head (toUpperCase v)) as [H|(c & t & H & E)]; [congruence|].
  rewrite H. unfold Reconcile.normalize. simpl.
  destruct (trim_head (String (upperChar c) (toUpperCase t))) as [H'|(c' & t' & H' & E')].
  - exfalso. unfold trim in H'. simpl in H'. rewrite isSpace_upperChar, E in H'.
    destruct (trimEnd_head (upperChar c) (toUpperCase t)) as [t'' Ht''].
    { now rewrite isSpace_upperChar. }
    rewrite Ht'' in H'. discriminate.
  - change (toUpperCase (String c t)) with (String (upperChar c) (toUpperCase t)).
    rewrite H'. destruct (collapse_head c' t' E') as [t'' ->]. discriminate.
Qed.

End TrimFacts.

(** ** More on the aggregation by location *)

Section Accounting.
Import Reconcile ReconcileMap AnalysisSpec.

Lemma sumOver_insert_fresh (f : LocationStat → nat) (m : gmap string LocationStat)
    (k : string) (e : LocationStat) :
  m !! k = None → sumOver f (<[k := e]> m) = sumOver f m + f e.
Proof.
  intros Hk. unfold sumOver. rewrite map_fold_insert_L; [reflexivity| |exact Hk].
  intros. lia.
Qed.

Lemma sumOver_update (f : LocationStat → nat) (m : gmap string LocationStat)
    (k : string) (e0 e' : LocationStat) :
  m !! k = Some e0 ∨ (m !! k = None ∧ f e0 = 0) →
  sumOver f (<[k := e']> m) + f e0 = sumOver f m + f e'.
Proof.
  intros [Hk|[Hk H0]].
  - rewrite <- (insert_delete_id m k e0 Hk) at 2.
    rewrite <- (insert_delete_eq m k e').
    rewrite !sumOver_insert_fresh by apply lookup_delete_eq. lia.
  - rewrite sumOver_insert_fresh by exact Hk. lia.
Qed.

Lemma entry_cases (f : LocationStat → nat) (m : gmap string LocationStat) (k : string) :
  f (freshStat k) = 0 →
  m !! k = Some (default (freshStat k) (m !! k))
  ∨ (m !! k = None ∧ f (default (freshStat k) (m !! k)) = 0).
Proof. intros H0. destruct (m !! k); simpl; auto. Qed.

Lemma rowStep_accounted isTH sheetName headers (a : Analysis) (row : nat * list Cell) :
  accounted a → accounted (rowStep isTH sheetName headers a row).
Proof.
  intros Ha. unfold rowStep.
  destruct (fst row =? 1); [exact Ha|].
  destruct (foldl (cellStep headers) (emptyItem, None) (snd row)) as [item [loc|]];
    [|exact Ha].
  destruct (JsString.truthy loc); [|exact Ha].
  destruct Ha as (Ht & Hn & Hu & Hh & Hlu & Hlh).
  set (entry := default (freshStat loc) (locationStats a !! loc)).
  set (c := categorize isTH sheetName).
  pose proof (sumOver_update total (locationStats a) loc entry (bump c entry)
                (entry_cases total _ loc eq_refl)) as St.
  pose proof (sumOver_update new (locationStats a) loc entry (bump c entry)
                (entry_cases new _ loc eq_refl)) as Sn.
  pose proof (sumOver_update used (locationStats a) loc entry (bump c entry)
                (entry_cases used _ loc eq_refl)) as Su.
  pose proof (sumOver_update tractorHouse (locationStats a) loc entry (bump c entry)
                (entry_cases tractorHouse _ loc eq_refl)) as Sh.
  unfold accounted. cbn [locationStats totalByType allItemsUsed allItemsTractorHouse
                           totalProducts].
  destruct c; simpl in St, Sn, Su, Sh; cbn [bumpType typeNew typeUsed typeTractorHouse];
    rewrite ?length_app; simpl; repeat split; lia.
Qed.

Lemma analyzeExcelData_accounted (workbooks : list Workbook) :
  accounted (analyzeExcelData workbooks).
Proof.
  unfold analyzeExcelData.
  apply (foldl_preserves accounted).
  - intros a wb Ha. unfold fileStep.
    apply (foldl_preserves accounted); [|exact Ha].
    intros a' ws Ha'. unfold sheetStep.
    apply (foldl_preserves accounted); [|exact Ha'].
    intros a'' row. apply rowStep_accounted.
  - repeat split.
Qed.

(** X8: the totals that [analyzeExcelData] returns agree with its entries
    and its item lists: the totals over all locations that the page shows
    ([updateStats] sums the entries) are the number of rows counted and the
    numbers by type, and the lists handed to the duplicate detection have
    as many items as were counted as used and as Tractor House. *)
Theorem analysis_totals_agree (workbooks : list Workbook) :
  let a := analyzeExcelData workbooks in
  sumOver total (locationStats a) = totalProducts a ∧
  sumOver new (locationStats a) = typeNew (totalByType a) ∧
  sumOver used (locationStats a) = typeUsed (totalByType a) ∧
  sumOver tractorHouse (locationStats a) = typeTractorHouse (totalByType a) ∧
  length (allItemsUsed a) = typeUsed (totalByType a) ∧
  length (allItemsTractorHouse a) = typeTractorHouse (totalByType a).
Proof. exact (analyzeExcelData_accounted workbooks). Qed.

Lemma rowStep_entries isTH sheetName headers (a : Analysis) (row : nat * list Cell) :
  map_Forall wellFormedEntry (locationStats a) →
  map_Forall wellFormedEntry (locationStats (rowStep isTH sheetName headers a row)).
Proof.
  intros Ha. unfold rowStep.
  destruct (fst row =? 1); [exact Ha|].
  destruct (foldl (cellStep headers) (emptyItem, None) (snd row)) as [item [loc|]];
    [|exact Ha].
  destruct (JsString.truthy loc) eqn:Et; [|exact Ha].
  cbn [locationStats]. apply map_Forall_insert_2; [|exact Ha].
  destruct (locationStats a !! loc) as [e|] eqn:E; simpl.
  - destruct (Ha _ _ E) as (Hne & Htot & Hco).
    repeat split; [exact Hne | rewrite bump_total; lia |].
    rewrite <- Hco. now destruct (categorize isTH sheetName).
  - repeat split; [intros ->; discriminate | rewrite bump_total; lia |].
    now destruct (categorize isTH sheetName).
Qed.

Lemma analyzeExcelData_entries (workbooks : list Workbook) :
  map_Forall wellFormedEntry (locationStats (analyzeExcelData workbooks)).
Proof.
  unfold analyzeExcelData.
  apply (foldl_preserves (fun a => map_Forall wellFormedEntry (locationStats a))).
  - intros a wb Ha. unfold fileStep.
    apply (foldl_preserves (fun a => map_Forall wellFormedEntry (locationStats a)));
      [|exact Ha].
    intros a' ws Ha'. unfold sheetStep.
    apply (foldl_preserves (fun a => map_Forall wellFormedEntry (locationStats a)));
      [|exact Ha'].
    intros a'' row. apply rowStep_entries.
  - apply map_Forall_empty.
Qed.

(** X9: every entry of [locationStats] has a name that is not empty and a
    total of at least 1, and its coordinates are those of the store table,
    undefined when the location text is no store name: such a location is
    counted all the same.  The markers of the generated page are therefore
    all drawn exactly when every counted location is a store; a row located
    ["In transit"] makes [updateMarkers] stop at the missing coordinates. *)
Theorem entries_follow_the_store_table (workbooks : list Workbook) :
  let stats := locationStats (analyzeExcelData workbooks) in
  (∀ location e, stats !! location = Some e →
     location ≠ "" ∧ 1 ≤ total e ∧ coordinates e = STORE_LOCATIONS !! location) ∧
  (updateMarkersRuns stats FilterAll ↔
   ∀ location, is_Some (stats !! location) → is_Some (STORE_LOCATIONS !! location)) ∧
  ¬ updateMarkersRuns (locationStats (analyzeExcelData strayWorkbooks)) FilterAll.
Proof.
  intros stats. pose proof (analyzeExcelData_entries workbooks) as Hw.
  fold stats in Hw. split; [exact Hw|]. split; [split|].
  - intros Hruns location [e He]. destruct (Hw _ _ He) as (_ & Htot & Hco).
    destruct (Hruns _ _ He) as [H0|Hc]; [simpl in H0; lia|]. now rewrite <- Hco.
  - intros Hall location e He. right.
    destruct (Hw _ _ He) as (_ & _ & ->). apply Hall. eauto.
  - intros Hruns.
    destruct (Hruns "IN TRANSIT" (mkLocationStat 1 0 1 0 None)) as [H0|[c Hc]];
      [vm_compute; reflexivity | discriminate | discriminate].
Qed.

End Accounting.

Section CollectedItems.
Import Reconcile AnalysisSpec MatcherSpec JsString.

Lemma cellStep_invariant (headers : gmap nat string) (acc : Item * option string)
    (cell : Cell) :
  cellInvariant acc → cellInvariant (cellStep headers acc cell).
Proof.
  destruct acc as [item loc]. intros [Hloc Hform]. simpl in Hloc, Hform.
  unfold cellStep.
  remember ((fun v => trim (toUpperCase v)) <$> (trim <$> snd cell)) as upper eqn:Eup.
  assert (upper = None ∨ ∃ v, upper = Some (trim (toUpperCase v))) as Hup.
  { rewrite Eup. destruct (snd cell) as [v|]; simpl; eauto. }
  clear Eup.
  repeat match goal with
         | |- context [if ?b then _ else _] =>
             lazymatch b with
             | bool_decide _ => fail
             | _ => destruct b
             end
         end;
    destruct upper as [u|]; try case_bool_decide;
    split; simpl; auto;
    destruct Hup as [?|[v Hv]]; try discriminate; eauto.
Qed.

Lemma row_invariant (headers : gmap nat string) (cells : list Cell) :
  cellInvariant (foldl (cellStep headers) (emptyItem, None) cells).
Proof.
  apply (foldl_preserves cellInvariant).
  - intros acc cell. apply cellStep_invariant.
  - split; [reflexivity | now left].
Qed.

Lemma rowStep_located isTH sheetName headers (a : Analysis) (row : nat * list Cell) :
  allLocated a → allLocated (rowStep isTH sheetName headers a row).
Proof.
  intros Ha. unfold rowStep.
  destruct (fst row =? 1); [exact Ha|].
  pose proof (row_invariant headers (snd row)) as Hinv.
  destruct (foldl (cellStep headers) (emptyItem, None) (snd row)) as [item [loc|]];
    [|exact Ha].
  destruct (truthy loc) eqn:Et; [|exact Ha].
  destruct Hinv as [Hloc [Hn|[v Hv]]]; [discriminate|]. simpl in Hloc, Hv.
  assert (located item) as Hitem.
  { exists v. injection Hv as <-. split; [exact Hloc|].
    intros E. rewrite E in Et. discriminate. }
  destruct Ha as [Hu Ht]. unfold allLocated.
  cbn [allItemsUsed allItemsTractorHouse].
  destruct (categorize isTH sheetName); split; try assumption;
    apply Forall_app; split; try assumption; now constructor.
Qed.

Lemma analyzeExcelData_located (workbooks : list Workbook) :
  allLocated (analyzeExcelData workbooks).
Proof.
  unfold analyzeExcelData.
  apply (foldl_preserves allLocated).
  - intros a wb Ha. unfold fileStep.
    apply (foldl_preserves allLocated); [|exact Ha].
    intros a' ws Ha'. unfold sheetStep.
    apply (foldl_preserves allLocated); [|exact Ha'].
    intros a'' row. apply rowStep_located.
  - split; constructor.
Qed.

Lemma located_usable (item : Item) :
  located item → allEmpty item = false ∧ usableKey (createMatchKey item) = true.
Proof.
  intros (v & Hloc & Hne).
  assert (allEmpty item = false) as Hall.
  { unfold allEmpty. apply andb_false_iff. right.
    unfold isEmpty, keyLocation. rewrite Hloc. simpl.
    apply negb_false_iff.
    destruct (normalize (trim (toUpperCase v))) eqn:En; [|reflexivity].
    now apply normalize_nonempty in En. }
  split; [exact Hall|]. now rewrite usable_key, Hall.
Qed.

(** X10: every item that [analyzeExcelData] collects for the duplicate
    detection has a location that is not empty, so its match key is never
    ['|||']: on the lists that [main] passes on, the guard of
    [detectDuplicates] skips nothing, and a Tractor House item counts as a
    duplicate as soon as a used item has its key. *)
Theorem collected_items_have_usable_keys (workbooks : list Workbook) (item : Item) :
  item ∈ allItemsUsed (analyzeExcelData workbooks)
  ∨ item ∈ allItemsTractorHouse (analyzeExcelData workbooks) →
  (∃ loc, location item = Some loc ∧ loc ≠ "") ∧
  allEmpty item = false ∧
  usableKey (createMatchKey item) = true.
Proof.
  intros Hin. destruct (analyzeExcelData_located workbooks) as [Hu Ht].
  assert (located item) as Hitem.
  { destruct Hin as [Hin|Hin]; [exact (proj1 (Forall_forall _ _) Hu _ Hin)|
                                 exact (proj1 (Forall_forall _ _) Ht _ Hin)]. }
  split; [|now apply located_usable].
  destruct Hitem as (v & Hloc & Hne). eauto.
Qed.

Lemma collected_items_have_usable_keys_witness :
  (∃ loc, location (mkItem (Some "2020") (Some "John Deere") (Some "8R 410")
                       (Some "YORK") None) = Some loc ∧ loc ≠ "") ∧
  allEmpty (mkItem (Some "2020") (Some "John Deere") (Some "8R 410") (Some "YORK") None)
    = false ∧
  usableKey (createMatchKey (mkItem (Some "2020") (Some "John Deere") (Some "8R 410")
                               (Some "YORK") None)) = true.
Proof.
  apply (collected_items_have_usable_keys AggregationSpec.sampleWorkbooks).
  left. apply list_elem_of_In. vm_compute. auto.
Defined.

End CollectedItems.

(** ** The single-workbook analyzer *)

Section HeatmapEntries.
Import JsString HeatmapAnalysis CharSpec NameSpec.

Lemma hm_cellStep_storeName (location : option string) (cell : Reconcile.Cell) :
  storeName location → storeName (cellStep location cell).
Proof.
  intros H. unfold cellStep.
  destruct (snd cell) as [v|]; cbn [fmap option_fmap option_map]; [|exact H].
  case_bool_decide as Hs; [|exact H]. split; [now exists v | exact Hs].
Qed.

Lemma hm_bump_counts (sheetName : string) (e : LocationStat) :
  total (bump sheetName e) = S (total e) ∧
  new (bump sheetName e) + used (bump sheetName e) ≤ S (new e + used e) ∧
  coordinates (bump sheetName e) = coordinates e.
Proof.
  unfold bump. destruct (includes (toLowerCase sheetName) "new");
    [|destruct (includes (toLowerCase sheetName) "used")]; simpl; repeat split; lia.
Qed.

Lemma hm_rowStep_entries (sheetName : string) (a : Analysis)
    (row : nat * list Reconcile.Cell) :
  map_Forall storeEntry (locationStats a) →
  map_Forall storeEntry (locationStats (rowStep sheetName a row)).
Proof.
  intros Ha. unfold rowStep.
  destruct (fst row =? 1); [exact Ha|].
  assert (storeName (foldl cellStep None (snd row))) as Hloc.
  { apply (foldl_preserves storeName); [|exact I].
    intros l c. apply hm_cellStep_storeName. }
  destruct (foldl cellStep None (snd row)) as [loc|]; [|exact Ha].
  destruct (truthy loc); [|exact Ha].
  cbn [locationStats]. apply map_Forall_insert_2; [|exact Ha].
  destruct Hloc as [Hv Hs].
  destruct (hm_bump_counts sheetName (default (freshStat loc) (locationStats a !! loc)))
    as (Ht & Hnu & Hc).
  unfold storeEntry. rewrite Ht, Hc.
  destruct (locationStats a !! loc) as [e|] eqn:E;
    cbn [default id coordinates total new used freshStat] in *.
  - destruct (Ha _ _ E) as (_ & _ & Hco & Htot & Hle). repeat split; auto; lia.
  - repeat split; auto; lia.
Qed.

Lemma hm_entries (wb : Reconcile.Workbook) :
  map_Forall storeEntry (analyzeExcelData wb).
Proof.
  unfold analyzeExcelData, analyze.
  apply (foldl_preserves (fun a => map_Forall storeEntry (locationStats a))).
  - intros a ws Ha. unfold sheetStep.
    apply (foldl_preserves (fun a => map_Forall storeEntry (locationStats a)));
      [|exact Ha].
    intros a' row. apply hm_rowStep_entries.
  - apply map_Forall_empty.
Qed.

(** X11: in the result of the single-workbook [analyzeExcelData] every
    entry is a store of the table, with the coordinates of the table, a
    total of at least 1 and new + used within the total; so the generated
    page can draw the markers of every filter: [updateMarkers] never meets a
    location without coordinates. *)
Theorem heatmap_entries_are_stores (wb : Reconcile.Workbook) :
  (∀ location e, analyzeExcelData wb !! location = Some e →
     is_Some (STORE_LOCATIONS !! location) ∧
     coordinates e = STORE_LOCATIONS !! location ∧
     1 ≤ total e ∧
     new e + used e ≤ total e) ∧
  (∀ filter, updateMarkersRuns (analyzeExcelData wb) filter).
Proof.
  pose proof (hm_entries wb) as Hw. split.
  - intros location e He. destruct (Hw _ _ He) as (_ & Hs & Hc & Ht & Hle). auto.
  - intros filter location e He. right.
    destruct (Hw _ _ He) as (_ & Hs & -> & _). exact Hs.
Qed.

Lemma allChars_forallb (p : ascii → bool) (s : string) :
  allChars p s → forallb p (list_ascii_of_string s) = true.
Proof.
  unfold allChars. induction 1 as [|c l Hc _ IH]; simpl; [reflexivity|].
  now rewrite Hc, IH.
Qed.

(** X12: the single-workbook analyzer never counts McCook.  A cell is
    upper-cased before it is looked up, the table spells the key
    ['McCOOK'], with a lower-case letter, and has no key ['MCCOOK']: no cell
    is found under either, however the store is written in the sheet.  The
    table of the reconciliation analyzer has the key ['MCCOOK'] and counts
    the same rows. *)
Theorem mccook_is_never_counted (wb : Reconcile.Workbook) :
  analyzeExcelData wb !! "McCOOK" = None ∧
  analyzeExcelData wb !! "MCCOOK" = None ∧
  is_Some (STORE_LOCATIONS !! "McCOOK") ∧
  analyzeExcelData mccookWorkbook = ∅ ∧
  Reconcile.total
    <$> Reconcile.locationStats (Reconcile.analyzeExcelData [mccookWorkbook]) !! "MCCOOK"
    = Some 3.
Proof.
  pose proof (hm_entries wb) as Hw. split; [|split; [|split; [|split]]].
  - destruct (analyzeExcelData wb !! "McCOOK") as [e|] eqn:E; [|reflexivity].
    destruct (Hw _ _ E) as ((v & Hv) & _).
    pose proof (allChars_forallb _ _ (upper_trim_no_lower v)) as Hup.
    rewrite <- Hv in Hup. vm_compute in Hup. discriminate.
  - destruct (analyzeExcelData wb !! "MCCOOK") as [e|] eqn:E; [|reflexivity].
    destruct (Hw _ _ E) as (_ & [c Hc] & _). vm_compute in Hc. discriminate.
  - vm_compute. eauto.
  - vm_compute. reflexivity.
  - vm_compute. reflexivity.
Qed.

End HeatmapEntries.

(** ** The page ceilings *)

Section Ceilings.
Import Batch AllEquipment CrawlSpec.

Lemma length_concat_sum {X} (l : list (list X)) :
  length (concat l) = sum_list (length <$> l).
Proof. induction l as [|x l IH]; simpl; [reflexivity|]. now rewrite length_app, IH. Qed.

Lemma pageRecords_length (w : World) (pageNum : nat) :
  length (pageRecords w pageNum) = tilesParsed w pageNum.
Proof.
  unfold pageRecords, tilesParsed. destruct (parsed w pageNum); [|reflexivity].
  now rewrite !length_fmap.
Qed.

Lemma crawl_pages (w : World) (maxPages : nat) :
  ∃ st n,
    crawl w maxPages = Some (st, completionOf w 0 n) ∧
    scrapeEquipment w maxPages = Some (products st) ∧
    requested st = seq 0 n ∧
    n ≤ maxPages ∧
    (∀ j, S j < n → fullPage w j) ∧
    length (products st) = sum_list (tilesParsed w <$> seq 0 n).
Proof.
  destruct (crawl_spec w maxPages) as (st & n & Hrun & Hn & Hreq & Hprod & Hfull).
  exists st, n.
  split; [exact Hrun|]. split; [unfold scrapeEquipment; now rewrite Hrun|].
  split; [exact Hreq|]. split; [exact Hn|]. split; [exact Hfull|].
  rewrite (Permutation_length Hprod), length_concat_sum, <- list_fmap_compose.
  f_equal. apply list_fmap_ext. intros _ j _. apply pageRecords_length.
Qed.

(** X13: a crawl of [scrapeEquipment] requests the listing pages 0, 1, 2,
    ... in order, each once, and never more than [maxPages] of them; every
    page before the last one requested had at least 12 tiles; and the
    result has one product for every tile parsed on the pages requested:
    none is lost and none comes twice.  The used-equipment scraper's
    [scrapeProducts] is that crawl with at most 80 pages. *)
Theorem crawl_requests_pages_in_order (w : World) (maxPages : nat) :
  (∃ st n,
     crawl w maxPages = Some (st, completionOf w 0 n) ∧
     scrapeEquipment w maxPages = Some (products st) ∧
     requested st = seq 0 n ∧
     n ≤ maxPages ∧
     (∀ j, S j < n → fullPage w j) ∧
     length (products st) = sum_list (tilesParsed w <$> seq 0 n)) ∧
  (∃ found n,
     UsedEquipment.scrapeProducts w = Some found ∧
     n ≤ 80 ∧
     length found = sum_list (tilesParsed w <$> seq 0 n)).
Proof.
  split; [apply crawl_pages|].
  destruct (crawl_pages w UsedEquipment.maxPages)
    as (st & n & _ & Hout & _ & Hn & _ & Hlen).
  exists (products st), n. split; [exact Hout|]. split; [exact Hn|exact Hlen].
Qed.

End Ceilings.

Section TractorHouseCeiling.
Import TractorHouse TractorHouseCrawlSpec.

(** X14: [scrapeInventoryListings] requests the pages 1, 2, 3, ... in
    order and never more than 50 of them; every page before the last one
    requested announced a next page and had at least 20 cards; the result
    is the listings of those pages in page order; and when the browser
    cannot be launched no page is requested and the result is empty. *)
Theorem tractor_house_requests_in_order (w : World) :
  ∃ n,
    n ≤ 50 ∧
    requested (crawl w) = seq 1 n ∧
    scrapeInventoryListings w = concat (pageRecords w <$> seq 1 n) ∧
    (∀ j, 1 ≤ j → j < n → continues w j) ∧
    (launchOk w = false → n = 0).
Proof.
  unfold scrapeInventoryListings, crawl. destruct (launchOk w).
  - destruct (th_crawlLoop_spec w maxPages 1 (mkCrawlState [] []))
      as (n & Hn & Hreq & Hlist & Hcont).
    exists n. cbn [listings requested app] in Hreq, Hlist.
    split; [exact Hn|]. split; [exact Hreq|]. split; [exact Hlist|]. split.
    + intros j Hj1 Hj2. apply Hcont; lia.
    + discriminate.
  - exists 0. simpl. repeat split; try done; lia.
Qed.

End TractorHouseCeiling.

(** ** Rows of a detail page *)

Section DetailRowFacts.
Import JsString AllEquipment DetailRows.

Lemma infoRows_fold (rows : list (string * string)) :
  foldl infoRowStep (mkDetails "" "") rows
    = mkDetails (lastValue isLocationRow rows) (lastValue isHoursRow rows).
Proof.
  induction rows as [|row rows IH] using rev_ind; [reflexivity|].
  rewrite foldl_app, IH. cbn [foldl]. unfold infoRowStep, lastValue.
  rewrite !List.filter_app. cbn [List.filter].
  unfold isHoursRow, isLocationRow, labelOf. cbn [detailLocation detailHours].
  destruct (includes (toLowerCase (trim (fst row))) "location"); cbn [negb andb].
  - rewrite last_snoc, app_nil_r. reflexivity.
  - destruct (includes (toLowerCase (trim (fst row))) "hour"
              || includes (toLowerCase (trim (fst row))) "hrs").
    + rewrite last_snoc, app_nil_r. reflexivity.
    + rewrite !app_nil_r. reflexivity.
Qed.

Lemma fullUrl_idem (url : string) : fullUrl (fullUrl url) = fullUrl url.
Proof.
  unfold fullUrl at 1. destruct (startsWith (fullUrl url) "http") eqn:E; [reflexivity|].
  unfold fullUrl in E. destruct (startsWith url "http") eqn:E'; [congruence|].
  discriminate.
Qed.

(** X15: when the detail page of a product loads, the location that
    [scrapeProductDetails] returns is the trimmed value of the last row
    whose label mentions "location", and the hours are the trimmed value of
    the last row whose label mentions "hour" or "hrs" and not "location";
    each is empty when there is no such row.  So a row labelled with both
    words sets the location only, and of two rows of a kind the later one
    wins.  The product gets these two values whether its URL was relative
    or already absolute. *)
Theorem details_are_the_last_rows (w : World) (p : Product)
    (rows : list (string * string)) :
  snd (detail w (fullUrl (productUrl p))) = DetailPage rows →
  scrapeProductDetails w (productUrl p)
    = mkDetails (lastValue isLocationRow rows) (lastValue isHoursRow rows) ∧
  location (enrich w p) = lastValue isLocationRow rows ∧
  hours (enrich w p) = lastValue isHoursRow rows ∧
  scrapeProductDetails w (fullUrl (productUrl p)) = scrapeProductDetails w (productUrl p).
Proof.
  intros Hpage.
  assert (scrapeProductDetails w (productUrl p)
            = mkDetails (lastValue isLocationRow rows) (lastValue isHoursRow rows)) as H.
  { unfold scrapeProductDetails, fetchDetails. rewrite Hpage. apply infoRows_fold. }
  split; [exact H|]. unfold enrich. cbn [location hours]. rewrite H.
  split; [reflexivity|]. split; [reflexivity|].
  rewrite <- H. unfold scrapeProductDetails, fetchDetails.
  now rewrite fullUrl_idem.
Qed.

Lemma details_are_the_last_rows_witness :
  scrapeProductDetails DetailRowsExample.labelled "/en-us/p/1"
    = mkDetails "8-5" "310" ∧
  lastValue isLocationRow DetailRowsExample.labelledRows = "8-5" ∧
  lastValue isHoursRow DetailRowsExample.labelledRows = "310".
Proof.
  pose proof (details_are_the_last_rows DetailRowsExample.labelled
                (mkProduct "" "" "" "" "" "" "" "" "/en-us/p/1" "" "" "")
                DetailRowsExample.labelledRows eq_refl) as (H & _).
  cbn [productUrl] in H. rewrite H. vm_compute. repeat split; reflexivity.
Defined.

End DetailRowFacts.


(** ** Choosing the workbooks *)

Section FileSelectionFacts.
Import JsString FileSelection.

Lemma elem_of_bfilter {X} (p : X → bool) (l : list X) (x : X) :
  x ∈ List.filter p l ↔ x ∈ l ∧ p x = true.
Proof. rewrite !list_elem_of_In. apply filter_In. Qed.

Lemma insertNewest_perm (x : FileStat) (l : list FileStat) : insertNewest x l ≡ₚ x :: l.
Proof.
  induction l as [|y l IH]; simpl; [reflexivity|].
  destruct (mtime y <=? mtime x)%Z; [reflexivity|].
  rewrite IH. apply Permutation_swap.
Qed.

Lemma sortNewest_perm (l : list FileStat) : sortNewest l ≡ₚ l.
Proof.
  induction l as [|x l IH]; simpl; [reflexivity|].
  now rewrite insertNewest_perm, IH.
Qed.

(** Newest first. *)
Local Abbreviation newestFirst :=
  (StronglySorted (fun a b : FileStat => (mtime b ≤ mtime a)%Z)).

Lemma insertNewest_sorted (x : FileStat) (l : list FileStat) :
  newestFirst l → newestFirst (insertNewest x l).
Proof.
  induction 1 as [|y l Hs IH Hy]; simpl; [repeat constructor|].
  destruct (mtime y <=? mtime x)%Z eqn:E.
  - apply Z.leb_le in E. constructor; [now constructor|].
    constructor; [exact E|]. eapply Forall_impl; [exact Hy|]. simpl. intros; lia.
  - apply Z.leb_gt in E. constructor; [exact IH|].
    rewrite insertNewest_perm. constructor; [lia | exact Hy].
Qed.

Lemma sortNewest_sorted (l : list FileStat) : newestFirst (sortNewest l).
Proof.
  induction l as [|x l IH]; simpl; [constructor | now apply insertNewest_sorted].
Qed.

Lemma bfilter_sorted (p : FileStat → bool) (l : list FileStat) :
  newestFirst l → newestFirst (List.filter p l).
Proof.
  induction 1 as [|y l Hs IH Hy]; simpl; [constructor|].
  destruct (p y); [|exact IH]. constructor; [exact IH|].
  apply Forall_forall. intros z Hz. apply elem_of_bfilter in Hz as [Hz _].
  rewrite Forall_forall in Hy. now apply Hy.
Qed.

Lemma sorted_head (x : FileStat) (l : list FileStat) (y : FileStat) :
  newestFirst (x :: l) → y ∈ x :: l → (mtime y ≤ mtime x)%Z.
Proof.
  intros Hs Hy. apply StronglySorted_inv in Hs as [_ Hx].
  apply elem_of_cons in Hy as [->|Hy]; [lia|].
  rewrite Forall_forall in Hx. now apply Hx.
Qed.

Lemma elem_of_stats (d : Directory) (x : FileStat) :
  x ∈ sortNewest (statAll d (List.filter isExcel (readdir d))) ↔
  workbookOf d (name x) ∧ mtime x = mtimeOf d (name x).
Proof.
  rewrite sortNewest_perm. unfold statAll, workbookOf. rewrite list_elem_of_fmap. split.
  - intros (f & -> & Hf). apply elem_of_bfilter in Hf. simpl. tauto.
  - intros [Hf Hm]. exists (name x). split; [|now apply elem_of_bfilter].
    destruct x as [n m]. simpl in *. now subst.
Qed.

(** The first file of a kind, in the sorted list. *)
Lemma first_of_kind (d : Directory) (word : string) (f : string) (rest : list string) :
  name <$> List.filter (fun x => includes (name x) word)
                       (sortNewest (statAll d (List.filter isExcel (readdir d))))
    = f :: rest →
  newestWith d word f.
Proof.
  intros H.
  pose proof (bfilter_sorted (fun x => includes (name x) word) _
                (sortNewest_sorted (statAll d (List.filter isExcel (readdir d))))) as Hs.
  destruct (List.filter _ _) as [|x xs] eqn:E; [discriminate|].
  injection H as <- _.
  assert (x ∈ x :: xs) as Hx by left.
  rewrite <- E in Hx. apply elem_of_bfilter in Hx as [Hx Hw].
  apply elem_of_stats in Hx as [Hwb Hm].
  split; [exact Hwb|]. split; [exact Hw|].
  intros g Hg Hgw.
  assert (mkFileStat g (mtimeOf d g) ∈ x :: xs) as Hin.
  { rewrite <- E. apply elem_of_bfilter. split; [|exact Hgw].
    apply elem_of_stats. split; [exact Hg | reflexivity]. }
  pose proof (sorted_head x xs _ Hs Hin) as Hle. simpl in Hle. lia.
Qed.

Lemma includes_empty (s : string) : includes s "" = true.
Proof. destruct s; reflexivity. Qed.

Lemma bfilter_nil {X} (p : X → bool) (l : list X) :
  List.filter p l = [] ↔ ∀ x, x ∈ l → p x = false.
Proof.
  induction l as [|y l IH]; simpl.
  - split; [intros _ x Hx; inversion Hx | reflexivity].
  - destruct (p y) eqn:E.
    + split; [discriminate|]. intros H. specialize (H y ltac:(left)). congruence.
    + rewrite IH. split.
      * intros H x Hx. apply elem_of_cons in Hx as [->|Hx]; auto.
      * intros H x Hx. apply H. now right.
Qed.

(** X16: the reconciliation analyzer finds no workbook exactly when no
    name of the directory starts with [akrs-] and ends with [.xlsx].
    Otherwise [main] analyses one or two workbooks of the directory: the
    most recent one with [all-equipment] in its name and the most recent
    one with [tractor-house] in its name, each when there is one; only
    when there is neither does it take the most recent workbook of all,
    which is also the one that the single-workbook analyzer reads.  So a
    workbook of the used-equipment scraper is analysed only in a directory
    without workbooks of the other two scrapers. *)
Theorem workbooks_chosen_by_kind (d : Directory) :
  (findExcelFiles d = None ↔ ∀ f, f ∈ readdir d → isExcel f = false) ∧
  (∀ files, findExcelFiles d = Some files →
     let chosen := filesToAnalyze files in
     1 ≤ length chosen ≤ 2 ∧
     (∀ f, f ∈ chosen → workbookOf d f) ∧
     newestWith d "" (latest files) ∧
     findLatestExcelFile d = Some (latest files) ∧
     (∀ f rest, equipment files = f :: rest →
        f ∈ chosen ∧ newestWith d "all-equipment" f) ∧
     (∀ f rest, tractorHouse files = f :: rest →
        f ∈ chosen ∧ newestWith d "tractor-house" f) ∧
     (∀ f, f ∈ chosen →
        includes f "all-equipment" = true ∨ includes f "tractor-house" = true ∨
        (f = latest files ∧
         ∀ g, workbookOf d g →
              includes g "all-equipment" = false ∧ includes g "tractor-house" = false))).
Proof.
  unfold findExcelFiles, findLatestExcelFile. cbv zeta.
  pose proof (sortNewest_sorted (statAll d (List.filter isExcel (readdir d)))) as Hs.
  pose proof (elem_of_stats d) as Hel.
  pose proof (first_of_kind d "all-equipment") as Heq.
  pose proof (first_of_kind d "tractor-house") as Hth.
  pose proof (sortNewest_perm (statAll d (List.filter isExcel (readdir d)))) as Hperm.
  set (sorted := sortNewest (statAll d (List.filter isExcel (readdir d)))) in *.
  set (eqs := name <$> List.filter (fun f => includes (name f) "all-equipment") sorted) in *.
  set (ths := name <$> List.filter (fun f => includes (name f) "tractor-house") sorted) in *.
  assert (eqs = [] → ths = [] → ∀ g, workbookOf d g →
          includes g "all-equipment" = false ∧ includes g "tractor-house" = false)
    as Hneither.
  { unfold eqs, ths. intros He Ht g Hg.
    apply fmap_nil_inv in He, Ht. rewrite bfilter_nil in He, Ht.
    assert (mkFileStat g (mtimeOf d g) ∈ sorted) as Hin
      by (apply Hel; split; [exact Hg | reflexivity]).
    split; [apply (He _ Hin) | apply (Ht _ Hin)]. }
  clearbody eqs ths.
  destruct sorted as [|first stats] eqn:Es.
  - (* nothing to sort *)
    apply Permutation_nil_l in Hperm. unfold statAll in Hperm.
    apply eq_sym, fmap_nil_inv in Hperm. rewrite Hperm. simpl.
    split; [|discriminate]. split; [|reflexivity].
    intros _ f Hf. destruct (isExcel f) eqn:E; [|reflexivity].
    assert (f ∈ List.filter isExcel (readdir d)) as Hin by now apply elem_of_bfilter.
    rewrite Hperm in Hin. inversion Hin.
  - assert (length (List.filter isExcel (readdir d)) ≠ 0) as Hlen.
    { apply Permutation_length in Hperm. unfold statAll in Hperm.
      rewrite length_fmap in Hperm. simpl in Hperm. lia. }
    apply Nat.eqb_neq in Hlen. rewrite Hlen.
    assert (workbookOf d (name first) ∧ mtime first = mtimeOf d (name first)) as [Hwf Hmf].
    { apply Hel. left. }
    split.
    { split; [discriminate|]. intros Hnone. destruct Hwf as [Hin Hex].
      rewrite (Hnone _ Hin) in Hex. discriminate. }
    intros files [= <-]. cbn [latest equipment tractorHouse all].
    assert (newestWith d "" (name first)) as Hlatest.
    { split; [exact Hwf|]. split; [apply includes_empty|].
      intros g Hg _.
      assert (mkFileStat g (mtimeOf d g) ∈ first :: stats) as Hin
        by (apply Hel; split; [exact Hg | reflexivity]).
      pose proof (sorted_head _ _ _ Hs Hin) as Hle. simpl in Hle. lia. }
    unfold filesToAnalyze. cbn [latest equipment tractorHouse all].
    destruct eqs as [|e es]; destruct ths as [|t ts]; cbn [app length Nat.eqb].
    + split; [lia|]. split; [intros f Hf; apply list_elem_of_singleton in Hf as ->; exact Hwf|].
      split; [exact Hlatest|]. split; [reflexivity|].
      split; [discriminate|]. split; [discriminate|].
      intros f Hf. apply list_elem_of_singleton in Hf as ->. right. right. auto.
    + destruct (Hth t ts eq_refl) as (Hw & Hinc & Hnew).
      split; [lia|]. split; [intros f Hf; apply list_elem_of_singleton in Hf as ->; exact Hw|].
      split; [exact Hlatest|]. split; [reflexivity|].
      split; [discriminate|]. split.
      * intros f rest [= <- _]. split; [left|]. split; auto.
      * intros f Hf. apply list_elem_of_singleton in Hf as ->. auto.
    + destruct (Heq e es eq_refl) as (Hw & Hinc & Hnew).
      split; [lia|]. split; [intros f Hf; apply list_elem_of_singleton in Hf as ->; exact Hw|].
      split; [exact Hlatest|]. split; [reflexivity|].
      split; [|split; [discriminate|]].
      * intros f rest [= <- _]. split; [left|]. split; auto.
      * intros f Hf. apply list_elem_of_singleton in Hf as ->. auto.
    + destruct (Heq e es eq_refl) as (Hw & Hinc & Hnew).
      destruct (Hth t ts eq_refl) as (Hw' & Hinc' & Hnew').
      split; [lia|]. split.
      { intros f Hf. apply elem_of_cons in Hf as [-> | Hf]; [exact Hw|].
        apply list_elem_of_singleton in Hf as ->. exact Hw'. }
      split; [exact Hlatest|]. split; [reflexivity|].
      split; [|split].
      * intros f rest [= <- _]. split; [left|]. split; auto.
      * intros f rest [= <- _]. split; [right; left|]. split; auto.
      * intros f Hf. apply elem_of_cons in Hf as [-> | Hf]; [auto|].
        apply list_elem_of_singleton in Hf as ->. auto.
Qed.

(** In the sample directory the analysis takes the all-equipment workbook
    of 5 January and the Tractor House workbook of 3 January, and leaves
    out the used-equipment workbook, the most recent of all. *)
Example workbooks_chosen_example :
  filesToAnalyze <$> findExcelFiles sampleDirectory
    = Some ["akrs-all-equipment-2025-01-05.xlsx"; "akrs-tractor-house-2025-01-03.xlsx"] ∧
  findLatestExcelFile sampleDirectory = Some "akrs-used-equipment-2025-01-09.xlsx".
Proof. vm_compute. split; reflexivity. Qed.

End FileSelectionFacts.

(** ** The run of the reconciliation analyzer *)

Section MainFacts.
Import JsString Reconcile FileSelection ReconcileMain AnalysisSpec DuplicateSpec.






(** The run on the sample directory: three used items and two Tractor
    House items, one of them a duplicate. *)
Example main_example :
  (fun r => (sourceFiles r, totalByType (analysis r), duplicates (duplicateInfo r),
             totalUnique (duplicateInfo r)))
    <$> main sampleDirectory sampleContents
  = Some (["akrs-all-equipment-2025-01-05.xlsx"; "akrs-tractor-house-2025-01-03.xlsx"],
          mkByType 1 3 2, 1, 3%Z).
Proof. vm_compute. reflexivity. Qed.

End MainFacts.

(** ** The normal form of the match key *)

Section NormalForm.
Import JsString Regex Reconcile Squeeze.

Lemma matchHere_spaces (s : list ascii) :
  matchHere [plus isSpace] s
    = match run isSpace s with 0 => None | S n => Some [take (S n) s] end.
Proof.
  cbn [matchHere]. unfold candidates. cbn [cls lo hi greedy plus].
  destruct (run isSpace s) as [|n]; [reflexivity|].
  replace (S (S n) - 1) with (S n) by lia.
  rewrite seq_S, rev_unit. cbn [firstSome fmap option_fmap option_map Nat.add].
  reflexivity.
Qed.

Lemma replaceGo_squeeze (s : string) :
  (∀ k, run isSpace (list_ascii_of_string s) = k →
        string_of_list_ascii (replaceGo [plus isSpace] [" "%char] k (list_ascii_of_string s))
          = squeeze true s) ∧
  string_of_list_ascii (replaceGo [plus isSpace] [" "%char] 0 (list_ascii_of_string s))
    = squeeze false s.
Proof.
  induction s as [|c t [IH1 IH2]].
  - split; [intros k Hk|]; cbn [list_ascii_of_string replaceGo];
      rewrite matchHere_spaces; cbn [run]; [destruct k|]; reflexivity.
  - assert (string_of_list_ascii
              (replaceGo [plus isSpace] [" "%char] 0 (list_ascii_of_string (String c t)))
            = squeeze false (String c t)) as H0.
    { cbn [list_ascii_of_string replaceGo]. rewrite matchHere_spaces. cbn [run squeeze].
      destruct (isSpace c) eqn:E.
      - cbn [fmap option_fmap option_map concat]. rewrite app_nil_r, length_take.
        pose proof (run_le_length isSpace (list_ascii_of_string t)) as Hle.
        cbn [length]. replace (S (run isSpace (list_ascii_of_string t))
                                 `min` S (length (list_ascii_of_string t)))
          with (S (run isSpace (list_ascii_of_string t))) by lia.
        cbn [app string_of_list_ascii]. f_equal. now apply IH1.
      - cbn [fmap option_fmap option_map string_of_list_ascii]. now rewrite IH2. }
    split; [|exact H0].
    intros k Hk. destruct k as [|k].
    + rewrite H0. cbn [run list_ascii_of_string] in Hk. cbn [squeeze].
      destruct (isSpace c); [discriminate | reflexivity].
    + cbn [run list_ascii_of_string] in Hk. cbn [list_ascii_of_string replaceGo squeeze].
      destruct (isSpace c); [|discriminate]. injection Hk as Hk. now apply IH1.
Qed.

(** [s.replace(/\s+/g, ' ')] *)
Lemma collapse_squeeze (s : string) :
  replaceAll [plus isSpace] " " s = squeeze false s.
Proof. apply replaceGo_squeeze. Qed.

Lemma squeeze_idem (s : string) :
  squeeze false (squeeze false s) = squeeze false s ∧
  squeeze true (squeeze true s) = squeeze true s.
Proof.
  induction s as [|c t [IH1 IH2]]; [split; reflexivity|].
  split; cbn [squeeze]; destruct (isSpace c) eqn:E; cbn [squeeze];
    rewrite ?E; cbn [isSpace]; try (simpl; congruence).
Qed.

Lemma squeeze_trimStart (s : string) : squeeze false (trimStart s) = squeeze true s.
Proof.
  induction s as [|c t IH]; [reflexivity|]. cbn [trimStart squeeze].
  destruct (isSpace c) eqn:E; [exact IH|]. cbn [squeeze]. now rewrite E.
Qed.


Lemma trimEnd_nonempty_squeeze (b : bool) (s : string) :
  trimEnd s ≠ "" → squeeze b (trimEnd s) ≠ "".
Proof.
  revert b. induction s as [|c t IH]; intros b; [intros H; exact H|].
  cbn [trimEnd]. destruct (trimEnd t) as [|c' t'] eqn:Et.
  - destruct (isSpace c) eqn:E; [intros H; exact H|].
    intros _. cbn [squeeze]. rewrite E. discriminate.
  - pose proof (IH true ltac:(discriminate)) as IH1.
    remember (String c' t') as u eqn:Eu. clear Eu IH.
    intros _. cbn [squeeze]. destruct (isSpace c); [destruct b|]; try discriminate.
    exact IH1.
Qed.

Lemma squeeze_trimEnd (b : bool) (s : string) :
  squeeze b (trimEnd s) = trimEnd (squeeze b s).
Proof.
  revert b. induction s as [|c t IH]; intros b; [reflexivity|].
  cbn [trimEnd squeeze].
  pose proof (trimEnd_nonempty_squeeze true t) as Hne1.
  pose proof (trimEnd_nonempty_squeeze false t) as Hne0.
  pose proof (IH true) as IHt. pose proof (IH false) as IHf.
  destruct (trimEnd t) as [|c' t'] eqn:Et.
  - cbn [squeeze] in IHt, IHf.
    destruct (isSpace c) eqn:E.
    + destruct b; cbn [squeeze trimEnd]; rewrite <- IHt; reflexivity.
    + cbn [squeeze trimEnd]. rewrite E, <- IHf. reflexivity.
  - specialize (Hne1 ltac:(discriminate)). specialize (Hne0 ltac:(discriminate)).
    remember (String c' t') as u eqn:Eu. clear Eu IH.
    cbn [squeeze]. destruct (isSpace c) eqn:E.
    + destruct b; [exact IHt|]. cbn [trimEnd]. rewrite <- IHt.
      destruct (squeeze true u); [congruence | reflexivity].
    + cbn [trimEnd]. rewrite <- IHf.
      destruct (squeeze false u); [congruence | reflexivity].
Qed.

Lemma trimEnd_idem (s : string) : trimEnd (trimEnd s) = trimEnd s.
Proof.
  induction s as [|c t IH]; [reflexivity|]. cbn [trimEnd].
  destruct (trimEnd t) as [|c' t'] eqn:Et.
  - destruct (isSpace c) eqn:E; [reflexivity|]. cbn [trimEnd]. now rewrite E.
  - cbn [trimEnd] in *. rewrite IH. reflexivity.
Qed.






(** [normalize] in one pass: upper case, runs of white space collapsed,
    none at either end. *)
Lemma normalize_squeeze (s : string) :
  normalize s = trimEnd (squeeze true (toUpperCase s)).
Proof.
  unfold normalize. destruct s as [|c t]; [reflexivity|]. cbn [truthy negb].
  rewrite collapse_squeeze. unfold trim.
  now rewrite squeeze_trimEnd, squeeze_trimStart.
Qed.







End NormalForm.

(** ** Tidied text *)

Section TidyText.
Import JsString Squeeze PriceLabels.

Lemma squeeze_true_head (s : string) :
  squeeze true s = "" ∨ ∃ c t, squeeze true s = String c t ∧ isSpace c = false.
Proof.
  induction s as [|c t IH]; [now left|]. cbn [squeeze].
  destruct (isSpace c) eqn:E; [exact IH|]. right. eauto.
Qed.

Lemma trimStart_squeeze (s : string) : trimStart (squeeze false s) = squeeze true s.
Proof.
  assert (∀ u, trimStart (squeeze true u) = squeeze true u) as Hfix.
  { intros u. destruct (squeeze_true_head u) as [->|(c & t & -> & E)]; [reflexivity|].
    cbn [trimStart]. now rewrite E. }
  destruct s as [|c t]; [reflexivity|]. cbn [squeeze].
  destruct (isSpace c) eqn:E.
  - cbn [trimStart]. change (isSpace " ") with true. cbn iota. apply Hfix.
  - cbn [trimStart]. now rewrite E.
Qed.

Lemma cleanText_squeeze (text : string) :
  TractorHouse.cleanText text = trimEnd (squeeze true text).
Proof.
  unfold TractorHouse.cleanText. destruct text as [|c t]; [reflexivity|].
  cbn [truthy negb]. rewrite collapse_squeeze. unfold trim. now rewrite trimStart_squeeze.
Qed.

Lemma cleanText_idem (text : string) :
  TractorHouse.cleanText (TractorHouse.cleanText text) = TractorHouse.cleanText text.
Proof.
  rewrite !cleanText_squeeze.
  now rewrite squeeze_trimEnd, (proj2 (squeeze_idem _)), trimEnd_idem.
Qed.

Lemma cleanPrice_cleanText (priceText : string) :
  AllEquipment.cleanPrice priceText = TractorHouse.cleanText (removeLabels priceText).
Proof.
  unfold AllEquipment.cleanPrice, TractorHouse.cleanText, removeLabels.
  destruct priceText as [|c t]; [reflexivity|]. cbn [truthy negb].
  destruct (Regex.replaceAll _ _ (Regex.replaceAll _ _ (String c t))); reflexivity.
Qed.

(** X19: the three text cleaners agree on what tidy text is.  [cleanText]
    collapses every run of white space to one space and leaves none at
    either end, and cleaning twice changes nothing; [normalize] is
    [cleanText] of the upper-case text, although the one trims before it
    collapses and the other after; and [cleanPrice] is [cleanText] of the
    price text without its labels, so its result is tidy too.  The labels
    are removed before the white space is collapsed: a label with two
    spaces or a line break between its words stays in the price, and
    cleaning that price again removes it. *)
Theorem cleaners_agree_on_tidy_text (text : string) :
  TractorHouse.cleanText text = trimEnd (squeeze true text) ∧
  TractorHouse.cleanText (TractorHouse.cleanText text) = TractorHouse.cleanText text ∧
  Reconcile.normalize text = TractorHouse.cleanText (toUpperCase text) ∧
  AllEquipment.cleanPrice text = TractorHouse.cleanText (removeLabels text) ∧
  TractorHouse.cleanText (AllEquipment.cleanPrice text) = AllEquipment.cleanPrice text ∧
  AllEquipment.cleanPrice "Starting  at $5" = "Starting at $5" ∧
  AllEquipment.cleanPrice (AllEquipment.cleanPrice "Starting  at $5") = "$5".
Proof.
  split; [apply cleanText_squeeze|]. split; [apply cleanText_idem|].
  split; [now rewrite normalize_squeeze, cleanText_squeeze|].
  split; [apply cleanPrice_cleanText|].
  split; [rewrite cleanPrice_cleanText; apply cleanText_idem|].
  split; vm_compute; reflexivity.
Qed.

End TidyText.

(** ** Dollar amounts *)

Section Prices.
Import JsString Regex NameSpec TractorHouse PriceSpec.

Lemma matchHere_plus (p : ascii → bool) (s : list ascii) :
  matchHere [plus p] s = match run p s with 0 => None | S n => Some [take (S n) s] end.
Proof.
  cbn [matchHere]. unfold candidates. cbn [cls lo hi greedy plus].
  destruct (run p s) as [|n]; [reflexivity|].
  replace (S (S n) - 1) with (S n) by lia.
  rewrite seq_S, rev_unit. cbn [firstSome fmap option_fmap option_map Nat.add].
  reflexivity.
Qed.

(** A match of the price pattern at the head of [s]: a dollar sign and
    all the digits and commas that follow it, at least one. *)
Lemma matchHere_price (s : list ascii) :
  matchHere pricePattern s
    = match s with
      | c :: t =>
          if Ascii.eqb c "$" then
            match run amountChar t with
            | 0 => None
            | S n => Some [["$"%char]; take (S n) t]
            end
          else None
      | [] => None
      end.
Proof.
  unfold pricePattern.
  change (matchHere [lit "$"; plus (fun c => isDigit c || Ascii.eqb c ",")] s)
    with (firstSome (fun n => cons (take n s) <$> matchHere [plus amountChar] (drop n s))
            (candidates (lit "$") s)).
  unfold candidates. cbn [cls lo hi greedy lit one].
  destruct s as [|c t]; [reflexivity|]. cbn [run].
  destruct (Ascii.eqb c "$") eqn:E; [|reflexivity].
  apply Ascii.eqb_eq in E as ->.
  cbn [Nat.min Nat.sub seq rev app firstSome take drop].
  rewrite matchHere_plus, take_0, drop_0. destruct (run amountChar t); reflexivity.
Qed.

Lemma list_ascii_of_string_app (a b : string) :
  list_ascii_of_string (a +:+ b) = list_ascii_of_string a ++ list_ascii_of_string b.
Proof. induction a as [|c a IH]; simpl; [reflexivity | now rewrite IH]. Qed.

Lemma string_of_list_inj (s : string) (l : list ascii) :
  list_ascii_of_string s = l → s = string_of_list_ascii l.
Proof. intros <-. now rewrite string_of_list_ascii_of_string. Qed.

Lemma run_drop (p : ascii → bool) (t : list ascii) :
  match drop (run p t) t with [] => True | c :: _ => p c = false end.
Proof.
  induction t as [|c t IH]; [exact I|]. cbn [run].
  destruct (p c) eqn:E; [exact IH | exact E].
Qed.

(** X20: [extractPrice] gives the first dollar amount of the price text:
    the first dollar sign that a digit or comma follows, with all the
    digits and commas after it and nothing else, so that cents after a
    point are dropped; a text without such an amount is returned tidied by
    [cleanText]. *)
Theorem price_is_first_dollar_amount (priceText : string) :
  (jsMatch pricePattern priceText = None →
   extractPrice priceText = cleanText priceText) ∧
  (∀ whole gs, jsMatch pricePattern priceText = Some (whole, gs) →
     ∃ before digits after,
       priceText = before +:+ "$" +:+ digits +:+ after ∧
       extractPrice priceText = "$" +:+ digits ∧
       digits ≠ "" ∧ allChars amountChar digits ∧ amountEnds after ∧
       ∀ b1 c b2, before = b1 +:+ "$" +:+ String c b2 → amountChar c = false) ∧
  extractPrice "Now $12,500.00 (was $13,000)" = "$12,500" ∧
  extractPrice "  Call   for price " = "Call for price".
Proof.
  split; [|split; [|split; vm_compute; reflexivity]].
  - intros H. unfold extractPrice. rewrite H. destruct priceText; reflexivity.
  - intros whole gs H.
    assert (truthy priceText = true) as Htext.
    { destruct priceText; [vm_compute in H; discriminate | reflexivity]. }
    unfold extractPrice. rewrite Htext, H. cbn [negb].
    unfold jsMatch in H.
    destruct (search pricePattern (list_ascii_of_string priceText)) as [[pre pieces]|] eqn:Es;
      [|discriminate].
    injection H as <- _.
    apply search_sound in Es as (Hm & (rest & Hs) & Hnone).
    rewrite matchHere_price in Hm.
    destruct (drop (length pre) (list_ascii_of_string priceText)) as [|c t] eqn:Ed;
      [discriminate|].
    destruct (Ascii.eqb c "$") eqn:Ec; [|discriminate].
    apply Ascii.eqb_eq in Ec as ->.
    pose proof (run_le_length amountChar t) as Hlen.
    pose proof (run_drop amountChar t) as Hend.
    pose proof (run_take amountChar t (run amountChar t) (le_n _)) as Hall.
    destruct (run amountChar t) as [|n] eqn:Er; [discriminate|].
    injection Hm as <-.
    rewrite Hs, drop_app_length in Ed. cbn [concat app] in Ed, Hs.
    rewrite app_nil_r in Ed, Hs. injection Ed as Ed.
    assert (rest = drop (S n) t) as Hrest.
    { rewrite <- Ed. rewrite drop_app_length'; [reflexivity|]. rewrite length_take. lia. }
    exists (string_of_list_ascii pre), (string_of_list_ascii (take (S n) t)),
      (string_of_list_ascii rest).
    split.
    { apply string_of_list_inj in Hs. rewrite Hs.
      rewrite string_of_list_ascii_app. cbn [string_of_list_ascii].
      now rewrite string_of_list_ascii_app. }
    split; [cbn [concat app]; now rewrite app_nil_r|].
    split; [apply nonempty_of_list; rewrite length_take; lia|].
    split; [unfold allChars; now rewrite list_ascii_of_string_of_list_ascii|].
    split.
    { rewrite Hrest. destruct (drop (S n) t); [exact I | exact Hend]. }
    intros b1 c b2 Hb.
    apply (f_equal list_ascii_of_string) in Hb.
    rewrite list_ascii_of_string_of_list_ascii, !list_ascii_of_string_app in Hb.
    cbn [list_ascii_of_string app] in Hb.
    specialize (Hnone (length (list_ascii_of_string b1))).
    rewrite Hs, Hb in Hnone.
    rewrite <- !app_assoc, drop_app_length in Hnone.
    rewrite matchHere_price in Hnone. cbn [app] in Hnone.
    change (Ascii.eqb "$" "$") with true in Hnone. cbn iota in Hnone. cbn [run] in Hnone.
    destruct (amountChar c); [|reflexivity].
    exfalso. specialize (Hnone ltac:(rewrite !length_app; simpl; lia)). discriminate.
Qed.

End Prices.

(** ** Names of the usual format *)

Section NameRoundTrip.
Import JsString Regex RegexSpec AllEquipment NameSpec NameFormat.

Lemma run_all (p : ascii → bool) (a b : list ascii) :
  Forall (fun c => p c = true) a → run p (a ++ b) = length a + run p b.
Proof.
  induction 1 as [|c a Hc _ IH]; [reflexivity|]. cbn [app run length]. rewrite Hc, IH. lia.
Qed.

Lemma matchHere_single (a : Atom) (p : Pattern) (s : list ascii) (n : nat) :
  candidates a s = [n] →
  matchHere (a :: p) s = cons (take n s) <$> matchHere p (drop n s).
Proof.
  intros H. cbn [matchHere]. rewrite H. cbn [firstSome].
  destruct (cons (take n s) <$> matchHere p (drop n s)); reflexivity.
Qed.

Lemma firstSome_skip {A B} (f : A → option B) (l1 l2 : list A) :
  (∀ x, x ∈ l1 → f x = None) → firstSome f (l1 ++ l2) = firstSome f l2.
Proof.
  induction l1 as [|x l1 IH]; intros H; [reflexivity|]. cbn [app firstSome].
  rewrite (H x ltac:(left)). apply IH. intros y Hy. apply H. now right.
Qed.

Lemma search_here (p : Pattern) (s : list ascii) (pieces : list (list ascii)) :
  matchHere p s = Some pieces → search p s = Some ([], pieces).
Proof. intros H. destruct s; cbn [search]; now rewrite H. Qed.

Lemma digit_facts (c : ascii) :
  isDigit c = true → isDot c = true ∧ isSpace c = false.
Proof. destruct c as [[] [] [] [] [] [] [] []]; vm_compute; intros; split; congruence. Qed.

Lemma lastChar_split (m : string) :
  nonBlank (lastChar m) = true →
  ∃ front z, list_ascii_of_string m = front ++ [z] ∧ isSpace z = false.
Proof.
  induction m as [|c t IH]; [discriminate|]. cbn [lastChar].
  destruct (lastChar t) as [z|] eqn:E.
  - intros H. destruct (IH H) as (front & z' & Hm & Hz).
    exists (c :: front), z'. cbn [list_ascii_of_string app]. now rewrite Hm.
  - intros H. exists [], c. destruct t as [|c' t'].
    + split; [reflexivity|]. cbn [nonBlank] in H. now apply negb_true_iff in H.
    + cbn [lastChar] in E. destruct (lastChar t'); discriminate.
Qed.

Lemma list_length_of_string (s : string) :
  length (list_ascii_of_string s) = String.length s.
Proof. induction s as [|c s IH]; simpl; [reflexivity | now rewrite IH]. Qed.

(** The part of the name pattern after the model: [\s+-\s+(\d+)]. *)
Local Abbreviation idPattern :=
  [plus isSpace; lit "-"; plus isSpace; group (plus isDigit)].

(** After a proper part of the model the rest of the pattern does not
    match: the white space, if any, is followed by more of the model and
    not by the dash. *)
Lemma model_is_not_cut (front : list ascii) (z : ascii) (rest : list ascii) (x : nat) :
  Forall (fun c => modelChar c = true) (front ++ [z]) → isSpace z = false →
  x ≤ length front →
  matchHere idPattern (drop x (front ++ [z]) ++ rest) = None.
Proof.
  intros Hchars Hz Hx.
  destruct (matchHere idPattern (drop x (front ++ [z]) ++ rest)) as [pieces|] eqn:E;
    [exfalso|reflexivity].
  apply matchHere_sound in E as (Hfit & tail & Heq).
  apply Forall2_cons_inv_l in Hfit as (sp & pieces' & (Hlen & _ & Hsp) & Hfit & ->).
  apply Forall2_cons_inv_l in Hfit as (d & pieces'' & Hd & _ & ->).
  apply fits_lit in Hd as ->.
  rewrite drop_app_le in Heq by exact Hx.
  cbn [concat] in Heq. rewrite <- !app_assoc in Heq. cbn [app] in Heq.
  assert (Forall (fun c => modelChar c = true) (drop x front ++ [z])) as Hd.
  { rewrite <- (take_drop x front), <- app_assoc in Hchars.
    now apply Forall_app in Hchars as [_ Hchars]. }
  assert (modelChar "-" = false) as Hdash by reflexivity.
  apply app_eq_app in Heq as [l [[Ha Hb]|[Ha Hb]]]; destruct l as [|c l];
    cbn [app] in Hb; injection Hb as Hc Hb.
  - subst z. apply Forall_app in Hd as [_ Hd]. apply Forall_cons in Hd as [Hd _]. congruence.
  - subst c. rewrite Ha in Hd. apply Forall_app in Hd as [Hd _].
    apply Forall_app in Hd as [_ Hd]. apply Forall_cons in Hd as [Hd _]. congruence.
  - subst z. apply Forall_app in Hd as [_ Hd]. apply Forall_cons in Hd as [Hd _]. congruence.
  - subst c. rewrite Ha in Hsp. apply Forall_app in Hsp as [_ Hsp].
    apply Forall_cons in Hsp as [Hsp _]. cbn [cls plus] in Hsp. congruence.
Qed.

(** The pattern on a name of the usual format. *)
Lemma matchHere_usual (Y front : list ascii) (z : ascii) (I : list ascii) (c0 d0 : ascii)
    (M' I' : list ascii) :
  length Y = 4 → Forall (fun c => isDigit c = true) Y →
  front ++ [z] = c0 :: M' → isSpace c0 = false →
  Forall (fun c => modelChar c = true) (front ++ [z]) → isSpace z = false →
  I = d0 :: I' → Forall (fun c => isDigit c = true) I →
  matchHere namePattern (Y ++ " "%char :: (front ++ [z]) ++ " "%char :: "-"%char :: " "%char :: I)
    = Some [Y; [" "%char]; front ++ [z]; [" "%char]; ["-"%char]; [" "%char]; I].
Proof.
  intros HY HYd HM Hc0 Hchars Hz HI HId.
  set (M := front ++ [z]) in *.
  unfold namePattern.
  (* the year *)
  rewrite (matchHere_single _ _ _ 4).
  2:{ unfold candidates. cbn [cls lo hi greedy group exactly].
      rewrite run_all by exact HYd. cbn [run]. change (isDigit " ") with false.
      cbn iota. rewrite HY. reflexivity. }
  rewrite take_app_length', drop_app_length' by (symmetry; exact HY).
  (* the white space after it *)
  rewrite (matchHere_single _ _ _ 1).
  2:{ unfold candidates. cbn [cls lo hi greedy plus]. cbn [run].
      change (isSpace " ") with true. cbn iota. rewrite HM. cbn [app run].
      rewrite Hc0. reflexivity. }
  cbn [take drop]. rewrite ?take_0, ?drop_0.
  (* the model *)
  assert (Forall (fun c => isDot c = true) M) as Hdot.
  { eapply Forall_impl; [exact Hchars|]. intros c Hc. unfold modelChar in Hc.
    now apply andb_true_iff in Hc as [Hc _]. }
  assert (Forall (fun c => isDot c = true) I) as HIdot.
  { eapply Forall_impl; [exact HId|]. intros c Hc. now apply digit_facts in Hc. }
  assert (length M = S (length front)) as HlenM.
  { unfold M. rewrite length_app. simpl. lia. }
  change (matchHere (group (plusLazy isDot) :: idPattern)
            (M ++ " "%char :: "-"%char :: " "%char :: I))
    with (firstSome
            (fun n => cons (take n (M ++ " "%char :: "-"%char :: " "%char :: I))
                        <$> matchHere idPattern
                              (drop n (M ++ " "%char :: "-"%char :: " "%char :: I)))
            (candidates (group (plusLazy isDot))
               (M ++ " "%char :: "-"%char :: " "%char :: I))).
  unfold candidates. cbn [cls lo hi greedy group plusLazy].
  rewrite run_all by exact Hdot. cbn [run].
  change (isDot " ") with true. change (isDot "-") with true. cbn iota.
  change (" "%char :: "-"%char :: " "%char :: I) with ([" "%char; "-"%char; " "%char] ++ I).
  replace (run isDot I) with (length I)
    by (rewrite <- (app_nil_r I) at 2; rewrite run_all by exact HIdot; simpl; lia).
  replace (S (length M + S (S (S (length I)))) - 1)
    with (length front + S (S (S (S (length I))))) by lia.
  rewrite seq_app, firstSome_skip.
  2:{ intros x Hx. apply elem_of_seq in Hx.
      rewrite drop_app_le by lia.
      unfold M. rewrite model_is_not_cut; [reflexivity|exact Hchars|exact Hz|lia]. }
  rewrite <- cons_seq. cbn [firstSome].
  replace (1 + length front) with (length M) by lia.
  rewrite take_app_length, drop_app_length.
  (* the dash and the id *)
  rewrite (matchHere_single _ _ _ 1) by reflexivity.
  cbn [app take drop]. rewrite ?take_0, ?drop_0.
  rewrite (matchHere_single _ _ _ 1) by reflexivity.
  cbn [take drop]. rewrite ?take_0, ?drop_0.
  rewrite (matchHere_single _ _ _ 1).
  2:{ unfold candidates. cbn [cls lo hi greedy plus]. cbn [run].
      change (isSpace " ") with true. cbn iota. rewrite HI. cbn [run].
      rewrite HI in HId. apply Forall_cons in HId as [Hd0 _].
      apply digit_facts in Hd0 as [_ ->]. reflexivity. }
  cbn [take drop]. rewrite ?take_0, ?drop_0.
  cbn [matchHere]. unfold candidates. cbn [cls lo hi greedy group plus].
  replace (run isDigit I) with (length I)
    by (rewrite <- (app_nil_r I) at 2; rewrite run_all by exact HId; simpl; lia).
  rewrite HI at 1. cbn [length].
  replace (S (S (length I')) - 1) with (S (length I')) by lia.
  rewrite seq_S, rev_unit. cbn [firstSome Nat.add].
  replace (S (length I')) with (length I) by (rewrite HI; reflexivity).
  rewrite firstn_all. reflexivity.
Qed.

(** X21: a name of the usual format parses back into its parts: a year
    of four digits, one space, a model text without dash, line terminator
    or white space at its ends, the separator [" - "] and an id of digits
    give that year, that model and that id, also when the model has
    spaces inside. *)
Theorem usual_names_parse_to_their_parts (y m i : string) :
  String.length y = 4 → allChars isDigit y →
  modelText m →
  i ≠ "" → allChars isDigit i →
  parseProductName (y +:+ " " +:+ m +:+ " - " +:+ i) = mkParsedName y m i.
Proof.
  intros Hy Hyd (Hchars & Hfirst & Hlast) Hi Hid.
  destruct (lastChar_split m Hlast) as (front & z & Hm & Hz).
  destruct m as [|c0 m']; [discriminate|]. cbn [firstChar nonBlank] in Hfirst.
  apply negb_true_iff in Hfirst.
  destruct i as [|d0 i']; [congruence|].
  destruct y as [|y0 y']; [discriminate|].
  unfold parseProductName. cbn [append truthy negb]. unfold jsMatch.
  change (String y0 (y' +:+ " " +:+ String c0 m' +:+ " - " +:+ String d0 i'))
    with (String y0 y' +:+ " " +:+ String c0 m' +:+ " - " +:+ String d0 i').
  rewrite !list_ascii_of_string_app. cbn [list_ascii_of_string app] in Hm |- *.
  rewrite (search_here _ _ [list_ascii_of_string (String y0 y'); [" "%char];
                            front ++ [z]; [" "%char]; ["-"%char]; [" "%char];
                            list_ascii_of_string (String d0 i')]).
  - cbn [groups namePattern capture group exactly plus plusLazy lit one].
    rewrite <- Hm.
    change (d0 :: list_ascii_of_string i') with (list_ascii_of_string (String d0 i')).
    change (c0 :: list_ascii_of_string m') with (list_ascii_of_string (String c0 m')).
    change (y0 :: list_ascii_of_string y') with (list_ascii_of_string (String y0 y')).
    now rewrite !string_of_list_ascii_of_string.
  - change (matchHere namePattern
              (list_ascii_of_string (String y0 y') ++ " "%char
                 :: (c0 :: list_ascii_of_string m')
                 ++ " "%char :: "-"%char :: " "%char :: list_ascii_of_string (String d0 i'))
            = Some [list_ascii_of_string (String y0 y'); [" "%char];
                    front ++ [z]; [" "%char]; ["-"%char]; [" "%char];
                    list_ascii_of_string (String d0 i')]).
    rewrite Hm.
    apply (matchHere_usual _ front z _ c0 d0 (list_ascii_of_string m')
             (list_ascii_of_string i')).
    + rewrite <- Hy. apply list_length_of_string.
    + exact Hyd.
    + now rewrite <- Hm.
    + exact Hfirst.
    + rewrite <- Hm. exact Hchars.
    + exact Hz.
    + reflexivity.
    + exact Hid.
Qed.

Lemma usual_names_parse_to_their_parts_witness :
  parseProductName ("2019" +:+ " " +:+ "Gator XUV 835M" +:+ " - " +:+ "77")
    = mkParsedName "2019" "Gator XUV 835M" "77".
Proof.
  apply (usual_names_parse_to_their_parts "2019" "Gator XUV 835M" "77").
  - reflexivity.
  - unfold allChars. simpl. repeat constructor.
  - unfold modelText, allChars. split; [simpl; repeat constructor|]. split; reflexivity.
  - discriminate.
  - unfold allChars. simpl. repeat constructor.
Defined.

End NameRoundTrip.

(** ** Cards of the Tractor House inventory *)

Section Cards.
Import JsString TractorHouse TractorHouseCard TractorHouseCrawlSpec NameSpec.

Lemma split_nonempty (sep : ascii) (s : string) : split sep s ≠ [].
Proof.
  destruct s as [|c t]; [discriminate|]. cbn [split].
  destruct (Ascii.eqb c sep); [discriminate|]. destruct (split sep t); discriminate.
Qed.

Lemma join_cons (sep : string) (x : string) (l : list string) :
  l ≠ [] → join sep (x :: l) = x +:+ sep +:+ join sep l.
Proof. destruct l; [congruence | reflexivity]. Qed.

(** [s.split(' ').join(' ')] is [s]. *)
Lemma join_split (c : ascii) (s : string) : join (String c "") (split c s) = s.
Proof.
  induction s as [|x t IH]; [reflexivity|]. cbn [split].
  destruct (Ascii.eqb x c) eqn:E.
  - apply Ascii.eqb_eq in E as ->.
    rewrite join_cons by apply split_nonempty. now rewrite IH.
  - pose proof (split_nonempty c t) as Hne.
    destruct (split c t) as [|part parts]; [congruence|].
    destruct parts as [|p parts].
    + cbn [join] in *. now rewrite IH.
    + change (join (String c "") (part :: p :: parts))
        with (part +:+ String c "" +:+ join (String c "") (p :: parts)) in IH.
      change (join (String c "") (String x part :: p :: parts))
        with (String x part +:+ String c "" +:+ join (String c "") (p :: parts)).
      rewrite <- IH. reflexivity.
Qed.

Lemma string_app_assoc (a b c : string) : (a +:+ b) +:+ c = a +:+ b +:+ c.
Proof.
  induction a as [|x a IH]; [reflexivity|].
  change (String x ((a +:+ b) +:+ c) = String x (a +:+ b +:+ c)). now rewrite IH.
Qed.

Lemma isYear_spec (s : string) :
  isYear s = true → String.length s = 4 ∧ allChars isDigit s.
Proof.
  unfold isYear. intros H. apply andb_true_iff in H as [Hl Hd].
  apply Nat.eqb_eq in Hl. split; [exact Hl|].
  unfold allChars. apply Forall_forall. intros c Hc.
  rewrite forallb_forall in Hd. apply Hd. now apply list_elem_of_In.
Qed.

Lemma parseTitle_round_trip (title : string) :
  (partYear (parseTitle title) ≠ "" →
   title = partYear (parseTitle title) +:+ " " +:+ partMake (parseTitle title)
             +:+ " " +:+ partModel (parseTitle title) ∧
   String.length (partYear (parseTitle title)) = 4 ∧
   allChars isDigit (partYear (parseTitle title))) ∧
  (partYear (parseTitle title) = "" →
   partMake (parseTitle title) = "" ∧ partModel (parseTitle title) = "") ∧
  (title = "" → parseTitle title = mkTitleParts "" "" "").
Proof.
  unfold parseTitle. destruct (truthy title) eqn:Et;
    [|split; [intros H; now contradiction H|split; [now split|reflexivity]]].
  split; [|split; [|intros ->; discriminate]].
  - pose proof (join_split " " title) as Hj.
    destruct (split " " title) as [|p0 [|p1 [|p2 rest]]]; try (intros H; now contradiction H).
    destruct (isYear p0) eqn:Ey; [|intros H; now contradiction H].
    apply isYear_spec in Ey as [Hl Hd].
    destruct rest as [|p3 rest]; cbn [partYear partMake partModel]; intros _.
    + split; [|now split]. rewrite <- Hj. reflexivity.
    + split; [|now split]. rewrite <- Hj.
      rewrite !join_cons by discriminate. now rewrite !string_app_assoc.
  - destruct (split " " title) as [|p0 [|p1 [|p2 rest]]]; try (now split).
    destruct (isYear p0) eqn:Ey; [|now split].
    apply isYear_spec in Ey as [Hl _].
    destruct rest; cbn [partYear]; intros ->; discriminate.
Qed.

Lemma specStep_idem (el : Card) (s : Specs) :
  specStep el (specStep el s) = specStep el s.
Proof.
  unfold specStep.
  destruct (includes _ "hour"); [reflexivity|].
  destruct (includes _ "serial"); [reflexivity|].
  destruct (includes _ "stock"); reflexivity.
Qed.

(** However many containers a card has, its specs are those after one. *)
Lemma readSpecs_once (el : Card) :
  readSpecs el
    = match specContainers el with
      | 0 => mkSpecs "" "" ""
      | S _ => specStep el (mkSpecs "" "" "")
      end.
Proof.
  unfold readSpecs. destruct (specContainers el) as [|k]; [reflexivity|].
  induction k as [|k IH]; [reflexivity|].
  change (Nat.iter (S (S k)) (specStep el) (mkSpecs "" "" ""))
    with (specStep el (Nat.iter (S k) (specStep el) (mkSpecs "" "" ""))).
  rewrite IH. apply specStep_idem.
Qed.

End Cards.

Section CardListings.
Import JsString TractorHouse TractorHouseCard TractorHouseCrawlSpec NameSpec.

Lemma extract_meaningful (el : Card) :
  meaningful (extract el) = truthy (title (extract el)).
Proof.
  unfold meaningful. destruct (truthy (title (extract el))) eqn:E; [reflexivity|].
  apply truthy_false in E. cbn [extract title make model] in *.
  destruct (parseTitle_round_trip
              (orText (getText el "h2.listing-portion-title strong")
                      (getText el ".list-listing-title-link strong")))
    as (_ & _ & Hempty).
  rewrite (Hempty E). reflexivity.
Qed.

(** X22: the year, make and model of a card are read from its title, and
    put together again they are the title: when the title has at least
    three words and the first is four digits, the title is the year, the
    make and the model with single spaces between them, the make being the
    second word of a title of three words and the second and third word of
    a longer one; otherwise the three fields are empty.  So the test for a
    meaningful card, a title, a model or a make, is the test that the
    title is not empty. *)
Theorem title_is_year_make_model (el : Card) :
  (year (extract el) ≠ "" →
   title (extract el)
     = year (extract el) +:+ " " +:+ make (extract el) +:+ " " +:+ model (extract el) ∧
   String.length (year (extract el)) = 4 ∧ allChars isDigit (year (extract el))) ∧
  (year (extract el) = "" → make (extract el) = "" ∧ model (extract el) = "") ∧
  meaningful (extract el) = truthy (title (extract el)) ∧
  parseTitle "2020 KUBOTA M7 172" = mkTitleParts "2020" "KUBOTA M7" "172" ∧
  parseTitle "2021 KUBOTA M7" = mkTitleParts "2021" "KUBOTA" "M7" ∧
  parseTitle "JOHN DEERE 9RX 640" = mkTitleParts "" "" "".
Proof.
  pose proof (parseTitle_round_trip
                (orText (getText el "h2.listing-portion-title strong")
                        (getText el ".list-listing-title-link strong")))
    as (Hyear & Hnone & _).
  split; [exact Hyear|]. split; [exact Hnone|].
  split; [apply extract_meaningful|].
  vm_compute. repeat split; reflexivity.
Qed.

(** What [scrapeInventoryListings] keeps of a card. *)
Lemma pageListings_extract (els : list Card) (item : Listing) :
  item ∈ pageListings (extract <$> els) →
  ∃ el, el ∈ els ∧ item = cleanItem (extract el) ∧ title (extract el) ≠ "".
Proof.
  unfold pageListings. intros H. apply list_elem_of_filter in H as [Hm H].
  apply list_elem_of_fmap in H as (raw & -> & H).
  apply list_elem_of_fmap in H as (el & -> & H).
  exists el. split; [exact H|]. split; [reflexivity|].
  change (meaningful (cleanItem (extract el))) with (meaningful (extract el)) in Hm.
  rewrite extract_meaningful in Hm. intros E. rewrite E in Hm. discriminate.
Qed.

(** X23: every listing that a crawl over cards returns comes from a card
    with a title, and has that title; its condition and description are
    empty; and of its hours, serial number and stock number at most one is
    set, whatever the card shows: every spec container of a card is read
    through the first label and the first value of the card, so a card
    with containers has the specs of a card with one. *)
Theorem listings_of_cards (launchOk : bool) (cards : nat → option (list Card * option bool)) :
  Forall (fun item =>
            title item ≠ "" ∧ condition item = "" ∧ description item = "" ∧
            ((hours item = "" ∧ serialNumber item = "")
             ∨ (hours item = "" ∧ stockNumber item = "")
             ∨ (serialNumber item = "" ∧ stockNumber item = "")))
         (scrapeInventoryListings (worldOf launchOk cards)) ∧
  (∀ el, readSpecs el
         = match specContainers el with
           | 0 => mkSpecs "" "" ""
           | S _ => specStep el (mkSpecs "" "" "")
           end) ∧
  (hours (extract sampleCard), serialNumber (extract sampleCard),
   stockNumber (extract sampleCard)) = ("412", "", "").
Proof.
  split; [|split; [apply readSpecs_once | vm_compute; reflexivity]].
  unfold scrapeInventoryListings, crawl. cbn [TractorHouse.launchOk worldOf].
  destruct launchOk; [|constructor].
  destruct (th_crawlLoop_spec (worldOf true cards) maxPages 1 (mkCrawlState [] []))
    as (n & _ & _ & Hlist & _).
  cbn [listings requested app] in Hlist. rewrite Hlist.
  apply Forall_concat, Forall_fmap, Forall_forall. intros j _.
  apply Forall_forall. intros item Hitem.
  unfold pageRecords in Hitem. cbn [page worldOf] in Hitem.
  destruct (cards j) as [[els hasNextPage]|]; [|inversion Hitem].
  apply pageListings_extract in Hitem as (el & _ & -> & Ht).
  split; [exact Ht|]. split; [reflexivity|]. split; [reflexivity|].
  cbn [cleanItem extract hours serialNumber stockNumber].
  clear Ht. rewrite readSpecs_once.
  destruct (specContainers el); [left; split; reflexivity|].
  unfold specStep.
  destruct (includes _ "hour"); [right; right; split; reflexivity|].
  destruct (includes _ "serial"); [right; left; split; reflexivity|].
  destruct (includes _ "stock"); left; split; reflexivity.
Qed.

End CardListings.

(** ** Products of a crawl *)

Section ProductFields.
Import JsString Batch AllEquipment CrawlSpec.

Lemma trim_idem (s : string) : trim (trim s) = trim s.
Proof.
  destruct (trim_head s) as [H|(c & t & H & E)]; [now rewrite H|].
  unfold trim at 1. rewrite H. cbn [trimStart]. rewrite E, <- H.
  unfold trim. apply trimEnd_idem.
Qed.

(** X24: every product that [scrapeEquipment] returns is a tile of a
    requested page with the location and hours of its detail page, and
    nothing else of it is changed by the enrichment: its year, model and
    id are those parsed from its name, its name and brand have no white
    space around them, its price is tidy, and its location and hours are
    what [scrapeProductDetails] gives for its URL. *)
Theorem products_are_enriched_tiles (w : World) (maxPages : nat) :
  ∃ found,
    scrapeEquipment w maxPages = Some found ∧
    Forall (fun p =>
              (∃ pageNum tiles t,
                 pageNum < maxPages ∧ parsed w pageNum = Some tiles ∧ t ∈ tiles ∧
                 p = enrich w (tileProduct t)) ∧
              parseProductName (productName p)
                = mkParsedName (year p) (model p) (productId p) ∧
              trim (productName p) = productName p ∧
              trim (brand p) = brand p ∧
              TractorHouse.cleanText (price p) = price p ∧
              mkDetails (location p) (hours p) = scrapeProductDetails w (productUrl p))
           found.
Proof.
  destruct (crawl_spec w maxPages) as (st & n & Hrun & Hn & Hreq & Hprod & Hfull).
  exists (products st). split; [unfold scrapeEquipment; now rewrite Hrun|].
  rewrite Forall_forall. intros p Hp. rewrite Hprod in Hp.
  apply list_elem_of_In, in_concat in Hp as (page & Hpage & Hp).
  apply list_elem_of_In in Hpage, Hp.
  apply list_elem_of_fmap in Hpage as (j & -> & Hj). apply elem_of_seq in Hj.
  unfold pageRecords in Hp. destruct (parsed w j) as [tiles|] eqn:Ej; [|inversion Hp].
  apply list_elem_of_fmap in Hp as (raw & -> & Hp).
  apply list_elem_of_fmap in Hp as (t & -> & Ht).
  split.
  { exists j, tiles, t. split; [lia|]. split; [exact Ej|]. split; [exact Ht | reflexivity]. }
  cbn [enrich tileProduct productName year model productId brand price location hours
         productUrl].
  split; [now destruct (parseProductName (trim (tileName t)))|].
  split; [apply trim_idem|]. split; [apply trim_idem|].
  split; [rewrite cleanPrice_cleanText; apply cleanText_idem|].
  now destruct (scrapeProductDetails w (orEmpty (tileHref t))).
Qed.

End ProductFields.

(** ** Names of the workbooks *)

Section FileNameFacts.
Import JsString Regex NameSpec FileSelection FileNames.

Lemma matchHere_exact (cls : ascii → bool) (k : nat) (cap : bool) (p : Pattern)
    (piece rest : list ascii) :
  length piece = k → Forall (fun c => cls c = true) piece →
  matchHere (mkAtom cls k (Some k) true cap :: p) (piece ++ rest)
    = cons piece <$> matchHere p rest.
Proof.
  intros Hk Hp. rewrite (matchHere_single _ _ _ k).
  - now rewrite take_app_length', drop_app_length' by (symmetry; exact Hk).
  - unfold candidates. cbn [Regex.cls lo hi greedy]. rewrite run_all by exact Hp.
    rewrite Hk. replace (Nat.min k (k + run cls rest)) with k by lia.
    replace (S k - k) with 1 by lia. reflexivity.
Qed.

Lemma matchHere_group (cls : ascii → bool) (k : nat) (p : Pattern)
    (piece rest : list ascii) :
  length piece = k → Forall (fun c => cls c = true) piece →
  matchHere (group (exactly k cls) :: p) (piece ++ rest) = cons piece <$> matchHere p rest.
Proof. apply matchHere_exact. Qed.

Lemma matchHere_lit (c : ascii) (p : Pattern) (rest : list ascii) :
  matchHere (lit c :: p) (c :: rest) = cons [c] <$> matchHere p rest.
Proof.
  apply (matchHere_exact (fun x => Ascii.eqb x c) 1 false p [c] rest); [reflexivity|].
  constructor; [apply Ascii.eqb_refl | constructor].
Qed.

(** The stamp pattern on a stamp. *)
Lemma stamp_match (Y Mo D H Mi S rest : list ascii) :
  length Y = 4 → Forall (fun c => isDigit c = true) Y →
  length Mo = 2 → Forall (fun c => isDigit c = true) Mo →
  length D = 2 → Forall (fun c => isDigit c = true) D →
  length H = 2 → Forall (fun c => isDigit c = true) H →
  length Mi = 2 → Forall (fun c => isDigit c = true) Mi →
  length S = 2 → Forall (fun c => isDigit c = true) S →
  matchHere stampPattern
    (Y ++ "-"%char :: Mo ++ "-"%char :: D ++ "T"%char :: H ++ "-"%char :: Mi
       ++ "-"%char :: S ++ rest)
    = Some [Y; ["-"%char]; Mo; ["-"%char]; D; ["T"%char]; H; ["-"%char]; Mi;
            ["-"%char]; S].
Proof.
  intros HY HYd HMo HMod HD HDd HH HHd HMi HMid HS HSd. unfold stampPattern.
  rewrite matchHere_group, matchHere_lit by assumption.
  rewrite matchHere_group, matchHere_lit by assumption.
  rewrite matchHere_group, matchHere_lit by assumption.
  rewrite matchHere_group, matchHere_lit by assumption.
  rewrite matchHere_group, matchHere_lit by assumption.
  rewrite matchHere_group by assumption. reflexivity.
Qed.

Lemma stamp_not_here (c : ascii) (t : list ascii) :
  isDigit c = false → matchHere stampPattern (c :: t) = None.
Proof.
  intros Hc. unfold stampPattern. cbn [matchHere]. unfold candidates.
  cbn [cls lo hi greedy group exactly run]. rewrite Hc. reflexivity.
Qed.

Lemma search_skip (before t : list ascii) :
  Forall (fun c => isDigit c = false) before →
  search stampPattern (before ++ t) = prod_map (app before) id <$> search stampPattern t.
Proof.
  induction 1 as [|c before Hc _ IH]; cbn [app].
  - destruct (search stampPattern t) as [[a b]|]; reflexivity.
  - cbn [search]. rewrite (stamp_not_here c _ Hc), IH.
    destruct (search stampPattern t) as [[a b]|]; reflexivity.
Qed.

(** The date read from a name that holds a stamp after a prefix without
    digits. *)
Lemma dateArgument_stamp (before after : string) (t : Instant) :
  wellFormed t →
  Forall (fun c => isDigit c = false) (list_ascii_of_string before) →
  dateArgument
    (before +:+ (isoYear t +:+ "-" +:+ isoMonth t +:+ "-" +:+ isoDay t +:+ "T"
                   +:+ isoHour t +:+ "-" +:+ isoMinute t +:+ "-" +:+ isoSecond t)
            +:+ after)
    = Some (localReading t).
Proof.
  intros ((HY & HYd) & (HMo & HMod) & (HD & HDd) & (HH & HHd) & (HMi & HMid)
          & (HS & HSd) & _) Hbefore.
  unfold dateArgument, jsMatch, localReading.
  rewrite !list_ascii_of_string_app. cbn [list_ascii_of_string app].
  repeat first [rewrite <- app_assoc | progress cbn [app]].
  rewrite search_skip by exact Hbefore.
  rewrite <- (list_length_of_string (isoYear t)) in HY.
  rewrite <- (list_length_of_string (isoMonth t)) in HMo.
  rewrite <- (list_length_of_string (isoDay t)) in HD.
  rewrite <- (list_length_of_string (isoHour t)) in HH.
  rewrite <- (list_length_of_string (isoMinute t)) in HMi.
  rewrite <- (list_length_of_string (isoSecond t)) in HS.
  rewrite (search_here _ _ _ (stamp_match _ _ _ _ _ _ _
                                HY HYd HMo HMod HD HDd HH HHd HMi HMid HS HSd)).
  cbn [fmap option_fmap option_map prod_map fst snd id].
  cbn [groups stampPattern capture group exactly lit one].
  now rewrite !string_of_list_ascii_of_string.
Qed.

Lemma matchHere_colon (s : list ascii) :
  matchHere [lit ":"] s
    = match s with
      | c :: _ => if Ascii.eqb c ":" then Some [[c]] else None
      | [] => None
      end.
Proof.
  destruct s as [|c t]; [reflexivity|].
  destruct (Ascii.eqb c ":") eqn:E.
  - apply Ascii.eqb_eq in E as ->. now rewrite matchHere_lit.
  - cbn [matchHere]. unfold candidates. cbn [cls lo hi greedy lit one run].
    rewrite E. reflexivity.
Qed.

(** [s.replace(/:/g, '-')] *)
Lemma replace_colons (s : string) :
  replaceAll [lit ":"] "-" s
    = mapChars (fun c => if Ascii.eqb c ":" then "-"%char else c) s.
Proof.
  unfold replaceAll. cbn [list_ascii_of_string].
  induction s as [|c t IH]; [reflexivity|].
  cbn [list_ascii_of_string replaceGo mapChars]. rewrite matchHere_colon.
  destruct (Ascii.eqb c ":"); cbn [fmap option_fmap option_map concat app length
                                     string_of_list_ascii]; now rewrite IH.
Qed.

Lemma mapChars_app (f : ascii → ascii) (a b : string) :
  mapChars f (a +:+ b) = mapChars f a +:+ mapChars f b.
Proof.
  induction a as [|c a IH]; [reflexivity|].
  change (String (f c) (mapChars f (a +:+ b)) = String (f c) (mapChars f a +:+ mapChars f b)).
  now rewrite IH.
Qed.

Lemma mapChars_digits (f : ascii → ascii) (s : string) :
  (∀ c, isDigit c = true → f c = c) → allChars isDigit s → mapChars f s = s.
Proof.
  intros Hf. unfold allChars. induction s as [|c s IH]; [reflexivity|].
  cbn [list_ascii_of_string mapChars]. intros H. apply Forall_cons in H as [Hc H].
  now rewrite (Hf c Hc), IH.
Qed.

Lemma colon_not_digit (c : ascii) :
  isDigit c = true → (if Ascii.eqb c ":" then "-"%char else c) = c.
Proof. destruct c as [[] [] [] [] [] [] [] []]; vm_compute; congruence. Qed.

Lemma split_first (sep : ascii) (a b : string) :
  Forall (fun c => Ascii.eqb c sep = false) (list_ascii_of_string a) →
  ∃ parts, TractorHouseCard.split sep (a +:+ String sep b) = a :: parts.
Proof.
  induction a as [|c a IH]; cbn [list_ascii_of_string]; intros H.
  - change ("" +:+ String sep b) with (String sep b). cbn [TractorHouseCard.split].
    rewrite Ascii.eqb_refl. eauto.
  - apply Forall_cons in H as [Hc H]. destruct (IH H) as [parts Hp].
    change (String c a +:+ String sep b) with (String c (a +:+ String sep b)).
    cbn [TractorHouseCard.split]. rewrite Hc, Hp. eauto.
Qed.

Lemma digits_no (p : ascii → bool) (s : string) :
  (∀ c, isDigit c = true → p c = false) → allChars isDigit s →
  Forall (fun c => p c = false) (list_ascii_of_string s).
Proof. intros Hp H. eapply Forall_impl; [exact H|]. exact Hp. Qed.

Lemma digit_is_no (c : ascii) :
  isDigit c = true →
  Ascii.eqb c "." = false ∧ c ≠ "a"%char ∧ c ≠ "t"%char.
Proof. destruct c as [[] [] [] [] [] [] [] []]; vm_compute; repeat split; congruence. Qed.

(** The stamp of an instant. *)
Lemma fileStamp_instant (t : Instant) :
  wellFormed t →
  fileStamp (toISOString t)
    = isoYear t +:+ "-" +:+ isoMonth t +:+ "-" +:+ isoDay t +:+ "T" +:+ isoHour t
        +:+ "-" +:+ isoMinute t +:+ "-" +:+ isoSecond t.
Proof.
  intros ((HY & HYd) & (HMo & HMod) & (HD & HDd) & (HH & HHd) & (HMi & HMid)
          & (HS & HSd) & (Hms & Hmsd)).
  unfold fileStamp, toISOString. rewrite replace_colons, !mapChars_app.
  change (mapChars _ "-") with "-". change (mapChars _ "T") with "T".
  change (mapChars _ ":") with "-". change (mapChars _ ".") with ".".
  change (mapChars _ "Z") with "Z".
  rewrite !(mapChars_digits _ _ colon_not_digit) by assumption.
  set (stamp := isoYear t +:+ "-" +:+ isoMonth t +:+ "-" +:+ isoDay t +:+ "T"
                  +:+ isoHour t +:+ "-" +:+ isoMinute t +:+ "-" +:+ isoSecond t).
  assert (isoYear t +:+ "-" +:+ isoMonth t +:+ "-" +:+ isoDay t +:+ "T" +:+ isoHour t
            +:+ "-" +:+ isoMinute t +:+ "-" +:+ isoSecond t +:+ "." +:+ isoMillis t +:+ "Z"
          = stamp +:+ String "." (isoMillis t +:+ "Z")) as ->.
  { unfold stamp. now rewrite !string_app_assoc. }
  destruct (split_first "." stamp (isoMillis t +:+ "Z")) as [parts ->]; [|reflexivity].
  unfold stamp. rewrite !list_ascii_of_string_app. cbn [list_ascii_of_string].
  repeat (apply Forall_app; split);
    try (apply digits_no; [intros c Hc; now apply digit_is_no in Hc | assumption]);
    repeat constructor.
Qed.

Lemma substring_all (s : string) : substring 0 (String.length s) s = s.
Proof. induction s as [|c s IH]; [reflexivity|]. cbn [String.length substring]. now rewrite IH. Qed.

Lemma substring_skip (a s : string) (m : nat) :
  substring (String.length a) m (a +:+ s) = substring 0 m s.
Proof.
  induction a as [|c a IH]; [reflexivity|].
  change (String c a +:+ s) with (String c (a +:+ s)). cbn [String.length substring].
  exact IH.
Qed.

Lemma endsWith_app (a suffix : string) : endsWith (a +:+ suffix) suffix = true.
Proof.
  unfold endsWith. rewrite string_length_app.
  replace (String.length a + String.length suffix - String.length suffix)
    with (String.length a) by lia.
  rewrite substring_skip, substring_all, String.eqb_refl.
  rewrite andb_true_r. apply Nat.leb_le. lia.
Qed.

Lemma includes_step (c : ascii) (t sub : string) :
  String.prefix sub (String c t) = false → includes (String c t) sub = includes t sub.
Proof. intros H. cbn [includes]. now rewrite H. Qed.

(** A text without the first character of [sub] does not include it. *)
Lemma includes_absent (a : ascii) (sub s : string) :
  Forall (fun c => c ≠ a) (list_ascii_of_string s) → includes s (String a sub) = false.
Proof.
  induction s as [|c s IH]; cbn [list_ascii_of_string]; intros H; [reflexivity|].
  apply Forall_cons in H as [Hc H]. rewrite includes_step; [now apply IH|].
  cbn [String.prefix]. destruct (ascii_dec a c); [congruence | reflexivity].
Qed.

(** The stamp and the extension hold no [a] and no [t]. *)
Lemma stamp_letters (t : Instant) (a : ascii) :
  wellFormed t → a = "a"%char ∨ a = "t"%char →
  Forall (fun c => c ≠ a)
    (list_ascii_of_string (fileStamp (toISOString t) +:+ ".xlsx")).
Proof.
  intros Hw Ha. rewrite (fileStamp_instant t Hw).
  destruct Hw as ((HY & HYd) & (HMo & HMod) & (HD & HDd) & (HH & HHd) & (HMi & HMid)
                  & (HS & HSd) & _).
  rewrite !string_app_assoc, !list_ascii_of_string_app. cbn [list_ascii_of_string].
  repeat (apply Forall_app; split);
    try (eapply Forall_impl; [eassumption|]; intros c Hc; apply digit_is_no in Hc;
         destruct Ha as [-> | ->]; tauto);
    destruct Ha as [-> | ->]; repeat constructor; discriminate.
Qed.

(** X25: the names that the three scrapers give their workbooks are names
    that the analyzers look for, and the date written into a name is the
    date read back from it.  For an instant [YYYY-MM-DDTHH:mm:ss.sssZ] the
    stamp in the name is [YYYY-MM-DDTHH-mm-ss]; each of the three names
    starts with [akrs-] and ends with [.xlsx]; the first holds
    [all-equipment] and not [tractor-house], the second the reverse, and
    the name of the used-equipment scraper holds neither; and from each
    name [generateHeatmapHTML] reads [YYYY-MM-DDTHH:mm:ss], the instant
    without its zone.  The page takes its date from the first workbook
    analysed, so from the all-equipment workbook when there is one, also
    when the Tractor House workbook is the more recent. *)
Theorem names_written_are_names_read (t t' : Instant) :
  wellFormed t → wellFormed t' →
  fileStamp (toISOString t)
    = isoYear t +:+ "-" +:+ isoMonth t +:+ "-" +:+ isoDay t +:+ "T" +:+ isoHour t
        +:+ "-" +:+ isoMinute t +:+ "-" +:+ isoSecond t ∧
  (isExcel (allEquipmentName (toISOString t)) = true ∧
   isExcel (tractorHouseName (toISOString t)) = true ∧
   isExcel (usedEquipmentName (toISOString t)) = true) ∧
  (includes (allEquipmentName (toISOString t)) "all-equipment" = true ∧
   includes (allEquipmentName (toISOString t)) "tractor-house" = false) ∧
  (includes (tractorHouseName (toISOString t)) "all-equipment" = false ∧
   includes (tractorHouseName (toISOString t)) "tractor-house" = true) ∧
  (includes (usedEquipmentName (toISOString t)) "all-equipment" = false ∧
   includes (usedEquipmentName (toISOString t)) "tractor-house" = false) ∧
  (dateArgument (allEquipmentName (toISOString t)) = Some (localReading t) ∧
   dateArgument (tractorHouseName (toISOString t)) = Some (localReading t) ∧
   dateArgument (usedEquipmentName (toISOString t)) = Some (localReading t)) ∧
  pageDate [allEquipmentName (toISOString t); tractorHouseName (toISOString t')]
    = Some (localReading t).
Proof.
  intros Hw Hw'.
  pose proof (fileStamp_instant t Hw) as Hstamp.
  pose proof (stamp_letters t "a" Hw (or_introl eq_refl)) as Hna.
  pose proof (stamp_letters t "t" Hw (or_intror eq_refl)) as Hnt.
  assert (∀ before, Forall (fun c => isDigit c = false) (list_ascii_of_string before) →
            dateArgument (before +:+ fileStamp (toISOString t) +:+ ".xlsx")
              = Some (localReading t)) as Hdate.
  { intros before Hb. rewrite Hstamp. now apply dateArgument_stamp. }
  assert (∀ before, startsWith (before +:+ fileStamp (toISOString t) +:+ ".xlsx") "akrs-"
                      = true →
            isExcel (before +:+ fileStamp (toISOString t) +:+ ".xlsx") = true) as Hexcel.
  { intros before Hb. unfold isExcel. rewrite Hb. cbn [andb].
    rewrite <- string_app_assoc. apply endsWith_app. }
  unfold allEquipmentName, tractorHouseName, usedEquipmentName, pageDate.
  split; [exact Hstamp|].
  split; [repeat split; apply Hexcel; reflexivity|].
  split; [split; [reflexivity|]|split; [split; [|reflexivity]|split; [split|split]]].
  - change ("akrs-all-equipment-" +:+ fileStamp (toISOString t) +:+ ".xlsx")
      with (String "a" (String "k" (String "r" (String "s" (String "-" (String "a"
             (String "l" (String "l" (String "-" (String "e" (String "q" (String "u"
             (String "i" (String "p" (String "m" (String "e" (String "n" (String "t"
             (String "-" (fileStamp (toISOString t) +:+ ".xlsx")))))))))))))))))))).
    repeat (rewrite includes_step by reflexivity). now apply includes_absent.
  - change ("akrs-tractor-house-" +:+ fileStamp (toISOString t) +:+ ".xlsx")
      with (String "a" (String "k" (String "r" (String "s" (String "-" (String "t"
             (String "r" (String "a" (String "c" (String "t" (String "o" (String "r"
             (String "-" (String "h" (String "o" (String "u" (String "s" (String "e"
             (String "-" (fileStamp (toISOString t) +:+ ".xlsx")))))))))))))))))))).
    repeat (rewrite includes_step by reflexivity). now apply includes_absent.
  - change ("akrs-used-equipment-" +:+ fileStamp (toISOString t) +:+ ".xlsx")
      with (String "a" (String "k" (String "r" (String "s" (String "-" (String "u"
             (String "s" (String "e" (String "d" (String "-" (String "e" (String "q"
             (String "u" (String "i" (String "p" (String "m" (String "e" (String "n"
             (String "t" (String "-"
               (fileStamp (toISOString t) +:+ ".xlsx"))))))))))))))))))))).
    repeat (rewrite includes_step by reflexivity). now apply includes_absent.
  - change ("akrs-used-equipment-" +:+ fileStamp (toISOString t) +:+ ".xlsx")
      with (String "a" (String "k" (String "r" (String "s" (String "-" (String "u"
             (String "s" (String "e" (String "d" (String "-" (String "e" (String "q"
             (String "u" (String "i" (String "p" (String "m" (String "e" (String "n"
             (String "t" (String "-"
               (fileStamp (toISOString t) +:+ ".xlsx"))))))))))))))))))))).
    repeat (rewrite includes_step by reflexivity). now apply includes_absent.
  - repeat split; apply Hdate; cbn [list_ascii_of_string]; repeat constructor.
  - apply Hdate. cbn [list_ascii_of_string]. repeat constructor.
Qed.

Lemma names_written_are_names_read_witness :
  allEquipmentName (toISOString sampleInstant) = "akrs-all-equipment-2025-01-05T14-03-59.xlsx" ∧
  dateArgument (usedEquipmentName (toISOString sampleInstant)) = Some "2025-01-05T14:03:59" ∧
  pageDate [allEquipmentName (toISOString sampleInstant);
            tractorHouseName (toISOString laterInstant)]
    = Some "2025-01-05T14:03:59".
Proof.
  assert (wellFormed sampleInstant ∧ wellFormed laterInstant) as [Hw Hw'].
  { unfold wellFormed, digits, allChars. simpl. repeat split; repeat constructor. }
  pose proof (names_written_are_names_read sampleInstant laterInstant Hw Hw')
    as (_ & _ & _ & _ & _ & (_ & _ & Hused) & Hpage).
  split; [vm_compute; reflexivity|]. split; [exact Hused | exact Hpage].
Defined.

End FileNameFacts.
